(** * Conductor plugins: the credential and call-envelope substrate

    A shallow embedding of the parts of the plugin adapters that carry the
    host contract: the per-plugin fetch envelopes (Spotify, Gmail, Google
    Calendar, n8n, X), the refresh-on-401 path, the OAuth 1.0a signer, the
    n8n base-URL normaliser and the tool tables with their approval flags.

    Conventions.
    - A JavaScript string is a Rocq [string]: one [ascii] per UTF-16 code
      unit, which covers the code units below 256.  [String.length] is
      [.length].
    - HTTP status codes and other numbers are [Z].
    - Every [await] on the keychain or on [fetch] is an effect node of the
      program type [Prog]; the code between two awaits is pure. *)

From Stdlib Require Import ZArith String Ascii List Bool Lia DecimalString.
From stdpp Require Import base gmap strings list.

(* ===================================================================== *)
(** ** JavaScript strings *)
(* ===================================================================== *)

Module JS.

(** [s.endsWith(suf)] *)
Fixpoint endsWith (s suf : string) : bool :=
  String.eqb s suf ||
  match s with
  | EmptyString => false
  | String _ s' => endsWith s' suf
  end.

(** [s.startsWith(pre)] *)
Fixpoint startsWith (s pre : string) {struct pre} : bool :=
  match pre with
  | EmptyString => true
  | String a pre' =>
      match s with
      | EmptyString => false
      | String b s' => Ascii.eqb a b && startsWith s' pre'
      end
  end.

(** [s.replace(/\/$/, '')]: the pattern has no [m] flag, so [$] matches at
    the end of the input only, and without [g] at most one match is
    replaced: one trailing slash is removed. *)
Fixpoint strip_trailing_slash (s : string) : string :=
  match s with
  | EmptyString => EmptyString
  | String c s' =>
      if String.eqb s' "" && Ascii.eqb c "/"%char
      then EmptyString
      else String c (strip_trailing_slash s')
  end.

(** Truthiness of a value of type [string | null]: [null] and the empty
    string are falsy. *)
Definition truthy (v : option string) : bool :=
  match v with
  | Some s => negb (String.eqb s "")
  | None => false
  end.

(** [v ?? d] *)
Definition nullish (v : option string) (d : string) : string :=
  match v with
  | Some s => s
  | None => d
  end.

(** [s.toUpperCase()] on ASCII letters; the method names it is applied to
    are ASCII. *)
Definition upper_unit (c : ascii) : ascii :=
  let n := N_of_ascii c in
  if ((97 <=? n) && (n <=? 122))%N then ascii_of_N (n - 32) else c.

Fixpoint toUpperCase (s : string) : string :=
  match s with
  | EmptyString => EmptyString
  | String c rest => String (upper_unit c) (toUpperCase rest)
  end.

(** [s.replace(/c/g, d)] for a single character [c]. *)
Fixpoint replace_all (c d : ascii) (s : string) : string :=
  match s with
  | EmptyString => EmptyString
  | String x rest =>
      String (if Ascii.eqb x c then d else x) (replace_all c d rest)
  end.

Fixpoint insert_sorted (k : string) (l : list string) : list string :=
  match l with
  | [] => [k]
  | x :: rest =>
      if String.leb k x then k :: l else x :: insert_sorted k rest
  end.

(** [keys.sort()]: ascending by code units. *)
Definition sort (l : list string) : list string :=
  fold_right insert_sorted [] l.

(** [s.includes(pat)] *)
Fixpoint includes (s pat : string) : bool :=
  startsWith s pat ||
  match s with
  | EmptyString => false
  | String _ s' => includes s' pat
  end.

(** [s.slice(n)]: the code units of [s] from index [n] on. *)
Fixpoint skip (n : nat) (s : string) : string :=
  match n, s with
  | O, _ => s
  | S n', String _ s' => skip n' s'
  | S _, EmptyString => EmptyString
  end.

(** [s.replace(pat, rep)] for a string pattern and a replacement without
    [$] patterns: the first occurrence only is replaced. *)
Fixpoint replace_first (pat rep s : string) : string :=
  if startsWith s pat then rep +:+ skip (String.length pat) s
  else match s with
       | EmptyString => EmptyString
       | String c s' => String c (replace_first pat rep s')
       end.

(** [s.padStart(n, fill)] for a one-character [fill]. *)
Definition padStart (n : nat) (fill : ascii) (s : string) : string :=
  string_of_list_ascii (repeat fill (n - String.length s)) +:+ s.

(** The decimal digit [d]. *)
Definition digit (d : Z) : ascii := ascii_of_N (Z.to_N (48 + d)).

(** [s.replace(/^\//, '')]: without the slash [s] starts with, if any. *)
Definition strip_leading_slash (s : string) : string :=
  match s with
  | String c rest => if Ascii.eqb c "/" then rest else s
  | EmptyString => s
  end.

(** [s.toLowerCase()] on code units below 256: the letters [A] to [Z]
    and the capital letters from [À] to [Þ], which leaves out [×]. *)
Definition lower_unit (c : ascii) : ascii :=
  let n := N_of_ascii c in
  if ((65 <=? n) && (n <=? 90)
      || (192 <=? n) && (n <=? 222) && negb (n =? 215))%N
  then ascii_of_N (n + 32) else c.

Fixpoint toLowerCase (s : string) : string :=
  match s with
  | EmptyString => EmptyString
  | String c rest => String (lower_unit c) (toLowerCase rest)
  end.

(** The code units below 256 that [\s] matches: tab, line feed, vertical
    tab, form feed, carriage return, space and no-break space. *)
Definition is_space (c : ascii) : bool :=
  let n := N_of_ascii c in
  ((9 <=? n) && (n <=? 13) || (n =? 32) || (n =? 160))%N.

(** What is left of [s] after the match of [/^\s*/]. *)
Fixpoint skip_spaces (s : string) : string :=
  match s with
  | String c rest => if is_space c then skip_spaces rest else s
  | EmptyString => s
  end.

(** [s.split(sep).pop()] for a one-character [sep]: what follows the
    last [sep], the whole of [s] when there is none. *)
Fixpoint last_segment (sep : ascii) (s : string) : string :=
  match s with
  | EmptyString => EmptyString
  | String c rest =>
      if includes rest (String sep EmptyString) || Ascii.eqb c sep
      then last_segment sep rest
      else s
  end.

(** The line feed of a ["\n"] escape. *)
Definition NL : string := String (ascii_of_nat 10) EmptyString.
Definition CRLF : string := String (ascii_of_nat 13) NL.
Definition QUOTE : string := String (ascii_of_nat 34) EmptyString.

End JS.

(* ===================================================================== *)
(** ** JSON values *)
(* ===================================================================== *)

Set Warnings "-register-all".

(** A parsed JSON document.  Numbers are restricted to integers; the fields
    of an object are keyed uniquely, as [JSON.parse] leaves them. *)
Inductive Json : Type :=
| JNull
| JBool (b : bool)
| JNum (n : Z)
| JStr (s : string)
| JArr (items : list Json)
| JObj (fields : list (string * Json)).

(** A JavaScript value that may be [undefined]. *)
Abbreviation JsValue := (option Json).
Abbreviation undefined := (@None Json).

Module JsVal.

Fixpoint lookup (name : string) (fields : list (string * Json)) : JsValue :=
  match fields with
  | [] => undefined
  | (k, v) :: rest => if String.eqb k name then Some v else lookup name rest
  end.

(** [v.name] for a [v] that is neither [null] nor [undefined]: own
    properties of an object; the names read by the adapters are not
    properties of a primitive or an array. *)
Definition prop (v : Json) (name : string) : JsValue :=
  match v with
  | JObj fields => lookup name fields
  | _ => undefined
  end.

(** [v?.name] *)
Definition optprop (v : JsValue) (name : string) : JsValue :=
  match v with
  | None | Some JNull => undefined
  | Some j => prop j name
  end.

(** [a ?? b] *)
Definition nullish (a : JsValue) (b : Json) : Json :=
  match a with
  | None | Some JNull => b
  | Some j => j
  end.

Definition truthy (v : JsValue) : bool :=
  match v with
  | None | Some JNull => false
  | Some (JBool b) => b
  | Some (JNum n) => negb (Z.eqb n 0)
  | Some (JStr s) => negb (String.eqb s "")
  | Some (JArr _) | Some (JObj _) => true
  end.


Definition string_of_Z (n : Z) : string :=
  DecimalString.NilZero.string_of_int (Z.to_int n).

Definition string_of_nat (n : nat) : string :=
  DecimalString.NilZero.string_of_uint (Nat.to_uint n).

Fixpoint join (sep : string) (parts : list string) : string :=
  match parts with
  | [] => ""
  | [x] => x
  | x :: rest => x +:+ sep +:+ join sep rest
  end.

(** The string a template literal substitutes for a value. *)
Fixpoint toString (j : Json) : string :=
  match j with
  | JNull => "null"
  | JBool true => "true"
  | JBool false => "false"
  | JNum n => string_of_Z n
  | JStr s => s
  | JArr items =>
      join ","
        (List.map (fun x => match x with JNull => "" | _ => toString x end)
                  items)
  | JObj _ => "[object Object]"
  end.

(** The same for a value that may be [undefined]. *)
Definition template (v : JsValue) : string :=
  match v with
  | Some j => toString j
  | None => "undefined"
  end.

(** A value the key chain can keep: a falsy one is never handed to it,
    and a truthy one is kept as its string, which must not be empty. *)
Definition keepable (v : JsValue) : bool :=
  negb (truthy v) || negb (String.eqb (template v) "").

(** What the key chain keeps of a truthy value handed to [set], and what
    [get] gives back for it.  A Secret Record's value is a string; a
    truthy value of another type (a number, [true], an array, an object)
    is kept as the string JavaScript makes of it, which is what a
    template literal and [URLSearchParams] make of the value read back.
    A falsy value is [None]; so is a truthy value whose string is empty,
    an array such as [[]], which a store of strings cannot give back as
    a truthy value: the statements that depend on it assume [keepable]
    tokens. *)
Definition kept (v : JsValue) : option string :=
  if truthy v && negb (String.eqb (template v) "")
  then Some (template v) else None.

(** [a ?? b] where [b] may itself be [undefined]. *)
Definition or_else (a b : JsValue) : JsValue :=
  match a with
  | None | Some JNull => b
  | Some _ => a
  end.

(** [v?.[0]] *)
Definition first (v : JsValue) : JsValue :=
  match v with
  | Some (JArr (x :: _)) => Some x
  | Some (JStr (String c _)) => Some (JStr (String c EmptyString))
  | Some (JObj fields) => lookup "0" fields
  | _ => undefined
  end.

(** [Object.keys(v).length] for a [v] that is neither [null] nor
    [undefined]: the fields of an object, the indices of an array or of a
    string, nothing for a number or a boolean. *)
Definition keys_length (v : Json) : nat :=
  match v with
  | JObj fields => length fields
  | JArr items => length items
  | JStr s => String.length s
  | _ => 0
  end.

(** [a === b] for values parsed from JSON: primitives by value; two
    arrays or two objects are never the same object. *)
Definition strict_eq (a b : JsValue) : bool :=
  match a, b with
  | None, None => true
  | Some JNull, Some JNull => true
  | Some (JBool x), Some (JBool y) => Bool.eqb x y
  | Some (JNum x), Some (JNum y) => Z.eqb x y
  | Some (JStr x), Some (JStr y) => String.eqb x y
  | _, _ => false
  end.

(** [v === s] for a string [s]. *)
Definition is_string (v : JsValue) (s : string) : bool :=
  match v with
  | Some (JStr x) => String.eqb x s
  | _ => false
  end.

(** [v?.length]: the length of an array or of a string, the [length]
    field of an object. *)
Definition length_of (v : JsValue) : JsValue :=
  match v with
  | Some (JArr items) => Some (JNum (Z.of_nat (length items)))
  | Some (JStr s) => Some (JNum (Z.of_nat (String.length s)))
  | Some (JObj fields) => lookup "length" fields
  | _ => undefined
  end.

End JsVal.

(* ===================================================================== *)
(** ** HTTP requests and responses *)
(* ===================================================================== *)

Module Http.

Inductive ReqBody :=
| NoBody
| JsonBody (j : Json)                       (* JSON.stringify(j) *)
| FormBody (fields : list (string * string)) (* new URLSearchParams({..}) *).

(** A request as handed to [fetch].  The URL is kept as the string given
    to the [URL] constructor together with the search parameters set on
    it afterwards; its serialisation is not modelled. *)
Record Request := mkRequest {
  method : string;
  url : string;
  params : list (string * string);
  headers : list (string * string);
  body : ReqBody
}.

(** [options.body ? JSON.stringify(options.body) : undefined] *)
Definition json_body (b : JsValue) : ReqBody :=
  match b with
  | Some j => if JsVal.truthy b then JsonBody j else NoBody
  | None => NoBody
  end.

(** The payload of a response: nothing, a JSON document (its text and the
    value [JSON.parse] makes of it), or text that is not JSON.
    [res.json()] succeeds on a JSON document only. *)
Inductive RespBody :=
| EmptyBody
| JsonDoc (source : string) (value : Json)
| TextBody (t : string).

Record Response := mkResponse {
  status : Z;
  statusText : string;
  content : RespBody
}.

(** [res.ok] *)
Definition ok (r : Response) : bool :=
  (200 <=? status r)%Z && (status r <=? 299)%Z.

(** What [fetch] settles with: a response, or a rejection when no
    response is had.  Which URL strings parse is not modelled: a world
    that answers a request stands for one in which its URL string parses,
    and the request goes to what that string resolves to. *)
Inductive Reply :=
| Responds (r : Response)
| NetworkFailure.

End Http.

(* ===================================================================== *)
(** ** Programs: the effects of an async function *)
(* ===================================================================== *)

Inductive JsError :=
| Error (message : string)                        (* new Error(message) *)
| ErrorWithStatus (message : string) (status : Z) (* ... with .status set *)
| SyntaxError                    (* res.json() on a body that is not JSON *)
| TypeError                      (* a property read on null *)
| NetworkError                   (* fetch rejected *)
| RangeError                     (* call stack exhausted *).

(** An async function, as the tree of its awaits.  Each node other than
    [Ret] and [Throw] is one suspension point: the effect is performed and
    the continuation resumes with its result. *)
Inductive Prog (A : Type) : Type :=
| Ret (a : A)
| Throw (e : JsError)
| KeychainGet (dir service key : string) (k : option string -> Prog A)
| KeychainSet (dir service key value : string) (k : Prog A)
| Fetch (req : Http.Request) (k : Http.Reply -> Prog A)
| Sleep (ms : Z) (k : Prog A)
| RandomBytes (n : nat) (k : list Z -> Prog A)
| DateNow (k : Z -> Prog A).

Arguments Ret {A} a.
Arguments Throw {A} e.
Arguments KeychainGet {A} dir service key k.
Arguments KeychainSet {A} dir service key value k.
Arguments Fetch {A} req k.
Arguments Sleep {A} ms k.
Arguments RandomBytes {A} n k.
Arguments DateNow {A} k.

Fixpoint bind {A B : Type} (m : Prog A) (f : A -> Prog B) : Prog B :=
  match m with
  | Ret a => f a
  | Throw e => Throw e
  | KeychainGet d s k c => KeychainGet d s k (fun v => bind (c v) f)
  | KeychainSet d s k v c => KeychainSet d s k v (bind c f)
  | Fetch req c => Fetch req (fun r => bind (c r) f)
  | Sleep ms c => Sleep ms (bind c f)
  | RandomBytes n c => RandomBytes n (fun bs => bind (c bs) f)
  | DateNow c => DateNow (fun t => bind (c t) f)
  end.

(** [try { m } catch (e) { h e }], also [m.catch(h)]. *)
Fixpoint catch {A : Type} (m : Prog A) (h : JsError -> Prog A) : Prog A :=
  match m with
  | Ret a => Ret a
  | Throw e => h e
  | KeychainGet d s k c => KeychainGet d s k (fun v => catch (c v) h)
  | KeychainSet d s k v c => KeychainSet d s k v (catch c h)
  | Fetch req c => Fetch req (fun r => catch (c r) h)
  | Sleep ms c => Sleep ms (catch c h)
  | RandomBytes n c => RandomBytes n (fun bs => catch (c bs) h)
  | DateNow c => DateNow (fun t => catch (c t) h)
  end.

#[global] Instance prog_ret : MRet Prog := @Ret.
#[global] Instance prog_bind : MBind Prog := fun A B f m => bind m f.

(** [await fetch(req)]: a rejection is thrown at the await. *)
Definition fetch (req : Http.Request) : Prog Http.Response :=
  Fetch req (fun reply =>
    match reply with
    | Http.Responds r => Ret r
    | Http.NetworkFailure => Throw NetworkError
    end).

(** [await res.json()] *)
Definition json (res : Http.Response) : Prog Json :=
  match Http.content res with
  | Http.JsonDoc _ j => Ret j
  | _ => Throw SyntaxError
  end.

(** [await res.text()] *)
Definition text (res : Http.Response) : string :=
  match Http.content res with
  | Http.EmptyBody => ""
  | Http.TextBody t => t
  | Http.JsonDoc source _ => source
  end.

(** [v.name] where [v] may be [null]: reading a property of [null] throws. *)
Definition getProp (v : Json) (name : string) : Prog JsValue :=
  match v with
  | JNull => Throw TypeError
  | _ => Ret (JsVal.prop v name)
  end.

(** [v.name] where [v] may be [null] or [undefined]. *)
Definition getOpt (v : JsValue) (name : string) : Prog JsValue :=
  match v with
  | Some j => getProp j name
  | None => Throw TypeError
  end.

(** [items.map(f)] for an [f] that may throw. *)
Fixpoint map_each {A B : Type} (f : A -> Prog B) (items : list A) : Prog (list B) :=
  match items with
  | [] => Ret []
  | x :: rest =>
      y ← f x;
      ys ← map_each f rest;
      Ret (y :: ys)
  end.

(** [items.find(p)] for a [p] that may throw. *)
Fixpoint array_find (p : Json -> Prog bool) (items : list Json) : Prog JsValue :=
  match items with
  | [] => Ret undefined
  | x :: rest =>
      b ← p x;
      if (b : bool) then Ret (Some x) else array_find p rest
  end.

(* ===================================================================== *)
(** ** The world a program runs in *)
(* ===================================================================== *)

Inductive Event :=
| EvKeychainGet (dir service key : string) (value : option string)
| EvKeychainSet (dir service key value : string)
| EvFetch (req : Http.Request) (reply : Http.Reply)
| EvSleep (ms : Z).

(** The upstream services: the reply to a request, given the requests
    received before it (oldest first). *)
Definition Server := list Http.Request -> Http.Request -> Http.Reply.

(** Modelled from the spec: the Secret Store behind the [Keychain] class of
    [@conductor-plugins/shared], which is not part of this repository's
    sources.  It is a key-value persistence bound to a configuration
    directory and keyed by [(service, key)]: [set(s,k,v); get(s,k) == v], a
    missing record is absent and not an error, and two stores pointed at
    the same directory observe the same records.  Storage failures are not
    modelled. *)
Abbreviation SecretStore := (gmap (string * string * string) string).

Record World := mkWorld {
  store : SecretStore;
  server : Server;
  clock : Z;               (* Date.now(), in milliseconds *)
  entropy : nat -> Z;      (* the bytes crypto.randomBytes hands out *)
  drawn : nat;             (* how many of them were handed out *)
  trace : list Event       (* what happened so far, oldest first *)
}.

Definition requests (tr : list Event) : list Http.Request :=
  omap (fun e => match e with EvFetch req _ => Some req | _ => None end) tr.

Definition record (e : Event) (w : World) : World :=
  mkWorld (store w) (server w) (clock w) (entropy w) (drawn w) (trace w ++ [e]).

Definition set_store (st : SecretStore) (w : World) : World :=
  mkWorld st (server w) (clock w) (entropy w) (drawn w) (trace w).

Definition advance (ms : Z) (w : World) : World :=
  mkWorld (store w) (server w) (clock w + ms)%Z (entropy w) (drawn w) (trace w).

Definition draw (n : nat) (w : World) : list Z * World :=
  (List.map (fun i => (entropy w (drawn w + i) mod 256)%Z) (seq 0 n),
   mkWorld (store w) (server w) (clock w) (entropy w) (drawn w + n) (trace w)).

(** One suspension point: the effect at the head of the program is
    performed on the world and the program resumes.  A finished program
    does not move. *)
Definition step {A : Type} (p : Prog A) (w : World) : Prog A * World :=
  match p with
  | Ret _ | Throw _ => (p, w)
  | KeychainGet d s k c =>
      let v := store w !! (d, s, k) in
      (c v, record (EvKeychainGet d s k v) w)
  | KeychainSet d s k v c =>
      (c, record (EvKeychainSet d s k v) (set_store (<[(d, s, k) := v]> (store w)) w))
  | Fetch req c =>
      let reply := server w (requests (trace w)) req in
      (c reply, record (EvFetch req reply) w)
  | Sleep ms c => (c, record (EvSleep ms) (advance ms w))
  | RandomBytes n c => let '(bs, w') := draw n w in (c bs, w')
  | DateNow c => (c (clock w), w)
  end.

Inductive Outcome (A : Type) : Type :=
| Returned (a : A)
| Thrown (e : JsError).

Arguments Returned {A} a.
Arguments Thrown {A} e.

(** A logical call run on its own, to completion. *)
Fixpoint run {A : Type} (p : Prog A) (w : World) : Outcome A * World :=
  match p with
  | Ret a => (Returned a, w)
  | Throw e => (Thrown e, w)
  | KeychainGet d s k c =>
      let v := store w !! (d, s, k) in
      run (c v) (record (EvKeychainGet d s k v) w)
  | KeychainSet d s k v c =>
      run c (record (EvKeychainSet d s k v) (set_store (<[(d, s, k) := v]> (store w)) w))
  | Fetch req c =>
      let reply := server w (requests (trace w)) req in
      run (c reply) (record (EvFetch req reply) w)
  | Sleep ms c => run c (record (EvSleep ms) (advance ms w))
  | RandomBytes n c => let '(bs, w') := draw n w in run (c bs) w'
  | DateNow c => run (c (clock w)) w
  end.

(** Several calls in flight under cooperative scheduling: the schedule
    names, step by step, the call that resumes next. *)
Fixpoint run_pool {A : Type} (schedule : list nat) (pool : list (Prog A))
    (w : World) : list (Prog A) * World :=
  match schedule with
  | [] => (pool, w)
  | i :: rest =>
      match pool !! i with
      | Some p =>
          let '(p', w') := step p w in
          run_pool rest (<[i := p']> pool) w'
      | None => run_pool rest pool w
      end
  end.

(** [sends_at_most target n p]: on every path through [p], at most [n] of
    the requests it sends satisfy [target]. *)
Inductive sends_at_most {A : Type} (target : Http.Request -> bool)
  : nat -> Prog A -> Prop :=
| SendsRet n a : sends_at_most target n (Ret a)
| SendsThrow n e : sends_at_most target n (Throw e)
| SendsGet n d s k c :
    (forall v, sends_at_most target n (c v)) ->
    sends_at_most target n (KeychainGet d s k c)
| SendsSet n d s k v c :
    sends_at_most target n c ->
    sends_at_most target n (KeychainSet d s k v c)
| SendsHit n req c :
    target req = true ->
    (forall r, sends_at_most target n (c r)) ->
    sends_at_most target (S n) (Fetch req c)
| SendsMiss n req c :
    target req = false ->
    (forall r, sends_at_most target n (c r)) ->
    sends_at_most target n (Fetch req c)
| SendsSleep n ms c :
    sends_at_most target n c ->
    sends_at_most target n (Sleep ms c)
| SendsRandom n len c :
    (forall bs, sends_at_most target n (c bs)) ->
    sends_at_most target n (RandomBytes len c)
| SendsNow n c :
    (forall t, sends_at_most target n (c t)) ->
    sends_at_most target n (DateNow c).

(** [sends_at_least reads replies target n p]: as long as the key chain
    answers every read within [reads] and the services answer every
    request within [replies], at least [n] of the requests [p] sends on
    any path satisfy [target], and what [p] writes keeps the key chain
    within [reads]. *)
Inductive sends_at_least {A : Type}
    (reads : string -> string -> string -> option string -> Prop)
    (replies : Http.Request -> Http.Reply -> Prop)
    (target : Http.Request -> bool) : nat -> Prog A -> Prop :=
| LeastRet a : sends_at_least reads replies target 0 (Ret a)
| LeastThrow e : sends_at_least reads replies target 0 (Throw e)
| LeastGet n d s k c :
    (forall v, reads d s k v -> sends_at_least reads replies target n (c v)) ->
    sends_at_least reads replies target n (KeychainGet d s k c)
| LeastSet n d s k v c :
    reads d s k (Some v) ->
    sends_at_least reads replies target n c ->
    sends_at_least reads replies target n (KeychainSet d s k v c)
| LeastFetch n req c :
    (forall r, replies req r ->
               sends_at_least reads replies target
                 (n - (if target req then 1 else 0)) (c r)) ->
    sends_at_least reads replies target n (Fetch req c)
| LeastSleep n ms c :
    sends_at_least reads replies target n c ->
    sends_at_least reads replies target n (Sleep ms c)
| LeastRandom n len c :
    (forall bs, sends_at_least reads replies target n (c bs)) ->
    sends_at_least reads replies target n (RandomBytes len c)
| LeastNow n c :
    (forall t, sends_at_least reads replies target n (c t)) ->
    sends_at_least reads replies target n (DateNow c).

(** A world whose key chain and services stay within [reads] and
    [replies]. *)
Definition answers_within
    (reads : string -> string -> string -> option string -> Prop)
    (replies : Http.Request -> Http.Reply -> Prop) (w : World) : Prop :=
  (forall d s k, reads d s k (store w !! (d, s, k)))
  /\ (forall history req, replies req (server w history req)).

(** What a program is allowed to do: the requests it may send, the
    credentials ([config_dir], service, key) it may write and the errors
    it may raise. *)
Record Limits := mkLimits {
  may_send : Http.Request -> Prop;
  may_write : string -> string -> string -> Prop;
  may_throw : JsError -> Prop
}.

(** [within L p]: on every path through [p], whatever the replies, [p]
    stays inside [L]. *)
Inductive within {A : Type} (L : Limits) : Prog A -> Prop :=
| WithinRet a : within L (Ret a)
| WithinThrow e : may_throw L e -> within L (Throw e)
| WithinGet d s k c :
    (forall v, within L (c v)) -> within L (KeychainGet d s k c)
| WithinSet d s k v c :
    may_write L d s k -> within L c -> within L (KeychainSet d s k v c)
| WithinFetch req c :
    may_send L req -> (forall r, within L (c r)) -> within L (Fetch req c)
| WithinSleep ms c : within L c -> within L (Sleep ms c)
| WithinRandom n c :
    (forall bs, within L (c bs)) -> within L (RandomBytes n c)
| WithinNow c : (forall t, within L (c t)) -> within L (DateNow c).

(** The same of one event of a trace. *)
Definition event_within (L : Limits) (e : Event) : Prop :=
  match e with
  | EvFetch req _ => may_send L req
  | EvKeychainSet d s k _ => may_write L d s k
  | _ => True
  end.

(** A call that only reads the Secret Store. *)
Definition reads_only : Limits :=
  mkLimits (fun _ => True) (fun _ _ _ => False) (fun _ => True).

(** [pauses_at_most budget p]: on every path through [p] the delays it
    waits for add up to [budget] milliseconds at most. *)
Inductive pauses_at_most {A : Type} : Z -> Prog A -> Prop :=
| PausesRet budget a : (0 <= budget)%Z -> pauses_at_most budget (Ret a)
| PausesThrow budget e : (0 <= budget)%Z -> pauses_at_most budget (Throw e)
| PausesGet budget d s k c :
    (forall v, pauses_at_most budget (c v)) ->
    pauses_at_most budget (KeychainGet d s k c)
| PausesSet budget d s k v c :
    pauses_at_most budget c -> pauses_at_most budget (KeychainSet d s k v c)
| PausesFetch budget req c :
    (forall r, pauses_at_most budget (c r)) ->
    pauses_at_most budget (Fetch req c)
| PausesSleep budget ms c :
    (0 <= ms)%Z -> pauses_at_most budget c ->
    pauses_at_most (ms + budget) (Sleep ms c)
| PausesRandom budget n c :
    (forall bs, pauses_at_most budget (c bs)) ->
    pauses_at_most budget (RandomBytes n c)
| PausesNow budget c :
    (forall t, pauses_at_most budget (c t)) ->
    pauses_at_most budget (DateNow c).

(** Whatever a call of [p] returns satisfies [P]. *)
Definition returns_only {A : Type} (P : A -> Prop) (p : Prog A) : Prop :=
  forall w a w', run p w = (Returned a, w') -> P a.

(** A program without effects: it settles in the world it starts in. *)
Definition pure {A : Type} (p : Prog A) : Prop :=
  exists o, forall w, run p w = (o, w).

Definition finished {A : Type} (p : Prog A) : bool :=
  match p with
  | Ret _ | Throw _ => true
  | _ => false
  end.

(** The program a settled call has become. *)
Definition settled {A : Type} (o : Outcome A) : Prog A :=
  match o with
  | Returned a => Ret a
  | Thrown e => Throw e
  end.

(* ===================================================================== *)
(** ** What a trace shows *)
(* ===================================================================== *)

Module Observe.

(** A refresh begins by reading the stored refresh token, so each
    attempt leaves exactly one such read. *)
Definition is_refresh_read (e : Event) : bool :=
  match e with
  | EvKeychainGet _ _ key _ => String.eqb key "refresh_token"
  | _ => false
  end.

Definition refresh_attempts (evs : list Event) : nat :=
  length (List.filter is_refresh_read evs).

(** The requests sent to URLs under [base]. *)
Definition calls_to (base : string) (evs : list Event) : list Http.Request :=
  List.filter (fun r => JS.startsWith (Http.url r) base) (requests evs).

(** The replies that carried a given status. *)
Definition replies_with (st : Z) (evs : list Event) : list Http.Request :=
  omap (fun e => match e with
                 | EvFetch req (Http.Responds r) =>
                     if (Http.status r =? st)%Z then Some req else None
                 | _ => None
                 end) evs.

(** How many of the requests sent so far satisfy [target]. *)
Definition hits (target : Http.Request -> bool) (evs : list Event) : nat :=
  length (List.filter target (requests evs)).

(** The methods that change what they are sent to. *)
Definition mutating (method : string) : bool :=
  existsb (String.eqb method) ["POST"; "PUT"; "PATCH"; "DELETE"].

End Observe.

(* ===================================================================== *)
(** ** The host: keychain handles *)
(* ===================================================================== *)

(** Modelled from the spec: the [Conductor] host context handed to
    [initialize]; [conductor.getConfig().getConfigDir()] is the
    [config_dir] the Secret Store is bound to. *)
Record Conductor := mkConductor { getConfigDir : string }.

Module Keychain.

(** Modelled from the spec: a [Keychain] handle, [new Keychain(configDir)];
    [get] yields the stored value or [null], [set] replaces it.  The
    specification lets both fail with a [StorageError]; that failure is
    not modelled, here both succeed. *)
Record t := new { configDir : string }.

Definition get (kc : t) (service key : string) : Prog (option string) :=
  KeychainGet (configDir kc) service key Ret.

Definition set (kc : t) (service key value : string) : Prog unit :=
  KeychainSet (configDir kc) service key value (Ret tt).

End Keychain.

(* ===================================================================== *)
(** ** Bytes, SHA-1, HMAC and Base64: what [crypto] and [Buffer] compute *)
(* ===================================================================== *)

Module Bytes.
(** The UTF-8 bytes of a string whose code units are below 256. *)
Definition utf8_unit (c : ascii) : list Z :=
  let n := Z.of_N (N_of_ascii c) in
  if (n <? 128)%Z then [n]
  else [Z.lor 192 (Z.shiftr n 6); Z.lor 128 (Z.land n 63)].

Fixpoint utf8 (s : string) : list Z :=
  match s with
  | EmptyString => []
  | String c rest => utf8_unit c ++ utf8 rest
  end.

Definition hex_digit (upper : bool) (d : Z) : ascii :=
  ascii_of_N (Z.to_N (if (d <? 10)%Z then 48 + d
                      else (if upper then 55 else 87) + d)).

Definition hex_byte (upper : bool) (b : Z) : string :=
  String (hex_digit upper (Z.shiftr b 4))
    (String (hex_digit upper (Z.land b 15)) EmptyString).

(** [buf.toString('hex')] *)
Fixpoint hex (bs : list Z) : string :=
  match bs with
  | [] => ""
  | b :: rest => hex_byte false b +:+ hex rest
  end.
End Bytes.

Module Sha1.
Local Open Scope Z_scope.

Definition MASK : Z := 4294967295.
Definition w32 (x : Z) : Z := Z.land x MASK.
Definition rotl (n x : Z) : Z :=
  w32 (Z.lor (Z.shiftl x n) (Z.shiftr x (32 - n))).

(** Big-endian bytes of a word. *)
Definition be_bytes (width : nat) (x : Z) : list Z :=
  List.map (fun i => Z.land (Z.shiftr x (8 * Z.of_nat (width - 1 - i))) 255)
           (seq 0 width).

Fixpoint be_word (bs : list Z) (acc : Z) : Z :=
  match bs with
  | [] => acc
  | b :: rest => be_word rest (Z.lor (Z.shiftl acc 8) b)
  end.

(** Append the bit 1, zeros up to 56 mod 64 bytes, and the bit length. *)
Definition pad (msg : list Z) : list Z :=
  let len := Z.of_nat (length msg) in
  let zeros := Z.to_nat ((55 - len) mod 64) in
  (msg ++ 128 :: repeat 0 zeros ++ be_bytes 8 (8 * len))%list.

Fixpoint chunks (fuel : nat) (size : nat) (bs : list Z) : list (list Z) :=
  match fuel with
  | O => []
  | S fuel' =>
      match bs with
      | [] => []
      | _ => take size bs :: chunks fuel' size (drop size bs)
      end
  end.

Definition words (block : list Z) : list Z :=
  List.map (fun bs => be_word bs 0) (chunks 16 4 block).

(** The message schedule, newest word first. *)
Fixpoint expand (n : nat) (ws : list Z) : list Z :=
  match n with
  | O => ws
  | S n' =>
      let w := rotl 1 (Z.lxor (Z.lxor (nth 2 ws 0) (nth 7 ws 0))
                              (Z.lxor (nth 13 ws 0) (nth 15 ws 0))) in
      expand n' (w :: ws)
  end.

Definition schedule (block : list Z) : list Z :=
  rev (expand 64 (rev (words block))).

Definition f (t : nat) (b c d : Z) : Z :=
  if (t <? 20)%nat then Z.lor (Z.land b c) (Z.land (Z.lxor b MASK) d)
  else if (t <? 40)%nat then Z.lxor (Z.lxor b c) d
  else if (t <? 60)%nat then
    Z.lor (Z.lor (Z.land b c) (Z.land b d)) (Z.land c d)
  else Z.lxor (Z.lxor b c) d.

Definition K (t : nat) : Z :=
  if (t <? 20)%nat then 1518500249
  else if (t <? 40)%nat then 1859775393
  else if (t <? 60)%nat then 2400959708
  else 3395469782.

Record State := mkState { ha : Z; hb : Z; hc : Z; hd : Z; he : Z }.

Definition round (st : State) (tw : nat * Z) : State :=
  let '(t, w) := tw in
  let temp := w32 (rotl 5 (ha st) + f t (hb st) (hc st) (hd st)
                   + he st + K t + w) in
  mkState temp (ha st) (rotl 30 (hb st)) (hc st) (hd st).

Definition compress (h : State) (block : list Z) : State :=
  let ws := schedule block in
  let r := fold_left round (combine (seq 0 80) ws) h in
  mkState (w32 (ha h + ha r)) (w32 (hb h + hb r)) (w32 (hc h + hc r))
          (w32 (hd h + hd r)) (w32 (he h + he r)).

Definition INIT : State :=
  mkState 1732584193 4023233417 2562383102 271733878 3285377520.

Definition digest (msg : list Z) : list Z :=
  let padded := pad msg in
  let h := fold_left compress (chunks (length padded) 64 padded) INIT in
  (be_bytes 4 (ha h) ++ be_bytes 4 (hb h) ++ be_bytes 4 (hc h)
   ++ be_bytes 4 (hd h) ++ be_bytes 4 (he h))%list.
End Sha1.

Module Hmac.
Local Open Scope Z_scope.
Definition BLOCK : nat := 64.

Definition block_key (key : list Z) : list Z :=
  let k := if (BLOCK <? length key)%nat then Sha1.digest key else key in
  (k ++ repeat 0 (BLOCK - length k))%list.

(** HMAC-SHA1 (RFC 2104). *)
Definition sha1 (key msg : list Z) : list Z :=
  let k := block_key key in
  let ipad := List.map (Z.lxor 54) k in
  let opad := List.map (Z.lxor 92) k in
  Sha1.digest (opad ++ Sha1.digest (ipad ++ msg)).
End Hmac.

Module Base64.
Local Open Scope Z_scope.
Definition ALPHABET : string :=
  "ABCDEFGHIJKLMNOPQRSTUVWXYZabcdefghijklmnopqrstuvwxyz0123456789+/".

Definition digit (d : Z) : ascii :=
  match String.get (Z.to_nat d) ALPHABET with
  | Some c => c
  | None => "="%char
  end.

(** [buf.toString('base64')]: three bytes make four digits; the last
    group is padded with [=]. *)
Fixpoint encode (bs : list Z) : string :=
  match bs with
  | [] => ""
  | [a] =>
      String (digit (Z.shiftr a 2))
        (String (digit (Z.shiftl (Z.land a 3) 4)) "==")
  | [a; b] =>
      String (digit (Z.shiftr a 2))
        (String (digit (Z.lor (Z.shiftl (Z.land a 3) 4) (Z.shiftr b 4)))
           (String (digit (Z.shiftl (Z.land b 15) 2)) "="))
  | a :: b :: c :: rest =>
      String (digit (Z.shiftr a 2))
        (String (digit (Z.lor (Z.shiftl (Z.land a 3) 4) (Z.shiftr b 4)))
           (String (digit (Z.lor (Z.shiftl (Z.land b 15) 2) (Z.shiftr c 6)))
              (String (digit (Z.land c 63)) (encode rest))))
  end.
End Base64.

Module Uri.

Definition is_alnum (c : ascii) : bool :=
  let n := N_of_ascii c in
  ((48 <=? n) && (n <=? 57) || (65 <=? n) && (n <=? 90)
   || (97 <=? n) && (n <=? 122))%N.

Definition is_one_of (set : string) (c : ascii) : bool :=
  existsb (Ascii.eqb c) (list_ascii_of_string set).

Fixpoint percent (bs : list Z) : string :=
  match bs with
  | [] => ""
  | b :: rest => String "%"%char (Bytes.hex_byte true b) +:+ percent rest
  end.

(** [encodeURIComponent(s)]: letters, digits and [- _ . ! ~ * ' ( )] stay;
    every other code unit becomes the escapes of its UTF-8 bytes. *)
Fixpoint encodeURIComponent (s : string) : string :=
  match s with
  | EmptyString => ""
  | String c rest =>
      (if is_alnum c || is_one_of "-_.!~*'()" c
       then String c EmptyString
       else percent (Bytes.utf8_unit c))
      +:+ encodeURIComponent rest
  end.

(** Percent-encoding as RFC 3986 has it, following the specification's
    words for the OAuth 1.0a signer: only the unreserved characters
    (letters, digits and [- . _ ~]) stay. *)
Fixpoint percent_rfc3986 (s : string) : string :=
  match s with
  | EmptyString => ""
  | String c rest =>
      (if is_alnum c || is_one_of "-._~" c
       then String c EmptyString
       else percent (Bytes.utf8_unit c))
      +:+ percent_rfc3986 rest
  end.

(** No character that [encodeURIComponent] leaves alone although RFC 3986
    reserves it. *)
Definition no_sub_delims (s : string) : bool :=
  forallb (fun c => negb (is_one_of "!*'()" c)) (list_ascii_of_string s).

(** A character that ends a path segment or starts the query or the
    fragment of a URL. *)
Definition is_delimiter (c : ascii) : bool := is_one_of "/?#&=+ " c.

End Uri.

(* ===================================================================== *)
(** ** The shared retry helper *)
(* ===================================================================== *)

Module Shared.

(** How often a failed call is run again, and the first delay. *)
Record RetryPolicy := mkPolicy { maxRetries : nat; baseDelayMs : Z }.

(** An error the specification files under [TransientError]: a 5xx
    status or a network failure. *)
Definition transient (e : JsError) : bool :=
  match e with
  | NetworkError => true
  | ErrorWithStatus _ st => (500 <=? st)%Z && (st <=? 599)%Z
  | _ => false
  end.

Fixpoint retry_loop {A : Type} (policy : RetryPolicy) (attempt left : nat)
    (fn : Prog A) : Prog A :=
  match left with
  | O => fn
  | S left' =>
      catch fn (fun e =>
        if transient e
        then Sleep (baseDelayMs policy * 2 ^ Z.of_nat attempt)%Z
               (retry_loop policy (S attempt) left' fn)
        else Throw e)
  end.

(** Modelled from the spec: [withRetry] of [@conductor-plugins/shared],
    which is not part of this repository's sources.  It runs the call
    again when it fails with a transient error (5xx or network), with
    exponential backoff; how many times is the implementer's choice and
    is the [policy] here.  The helper receives a thunk and cannot see
    the HTTP method of the request inside it. *)
Definition withRetry {A : Type} (policy : RetryPolicy) (fn : Prog A) : Prog A :=
  retry_loop policy 0 (maxRetries policy) fn.

End Shared.

(* ===================================================================== *)
(** ** Tool definitions *)
(* ===================================================================== *)

(** An entry of [getTools()].  [requiresApproval] is optional in the
    source: [None] is a definition that does not set it.  The arguments
    have the shape the tool's [inputSchema] declares. *)
Record PluginTool := mkTool {
  name : string;
  description : string;
  requiresApproval : option bool;
  Args : Type;
  handler : Args -> Prog Json
}.

(** The default of an omitted [requiresApproval] is [false]. *)
Definition approval_required (t : PluginTool) : bool :=
  default false (requiresApproval t).

(** The fields of a result object; a property whose value is [undefined]
    is left out, as [JSON.stringify] leaves it out. *)
Definition result_object (fields : list (string * JsValue)) : Json :=
  JObj (omap (fun kv => match snd kv with
                        | Some v => Some (fst kv, v)
                        | None => None
                        end) fields).

(* ===================================================================== *)
(** ** Spotify: [plugins/spotify/src/index.ts] *)
(* ===================================================================== *)

Module Spotify.

Definition SPOTIFY_BASE : string := "https://api.spotify.com/v1".
Definition SPOTIFY_AUTH : string := "https://accounts.spotify.com".

Record SpotifyPlugin := mkPlugin {
  keychain : Keychain.t;
  configDir : string
}.

Definition initialize (conductor : Conductor) : SpotifyPlugin :=
  {| configDir := getConfigDir conductor;
     keychain := Keychain.new (getConfigDir conductor) |}.

Definition NOT_AUTHENTICATED : string :=
  "Spotify not authenticated." +:+ JS.NL +:+
  "Run: conductor plugins auth spotify" +:+ JS.NL +:+
  "Or manually set: conductor plugins config spotify access_token <TOKEN>".

Definition REFRESH_FAILED : string :=
  "Spotify token expired and refresh failed. Run: conductor plugins auth spotify".

Definition getToken (this : SpotifyPlugin) : Prog string :=
  token ← Keychain.get (keychain this) "spotify" "access_token";
  match token with
  | Some t => if String.eqb t "" then Throw (Error NOT_AUTHENTICATED) else Ret t
  | None => Throw (Error NOT_AUTHENTICATED)
  end.

Definition token_request (refreshToken clientId : string) : Http.Request :=
  {| Http.method := "POST";
     Http.url := SPOTIFY_AUTH +:+ "/api/token";
     Http.params := [];
     Http.headers := [("Content-Type", "application/x-www-form-urlencoded")];
     Http.body := Http.FormBody [("grant_type", "refresh_token");
                                 ("refresh_token", refreshToken);
                                 ("client_id", clientId)] |}.

(** Refresh the access token using the stored refresh token.  Any truthy
    [access_token] of the reply is stored and returned, and any truthy
    [refresh_token] is stored, as the strings the key chain keeps of
    them ([JsVal.kept]). *)
Definition refreshToken (this : SpotifyPlugin) : Prog (option string) :=
  refreshToken ← Keychain.get (keychain this) "spotify" "refresh_token";
  clientId ← Keychain.get (keychain this) "spotify" "client_id";
  match refreshToken, clientId with
  | Some rt, Some cid =>
      if String.eqb rt "" || String.eqb cid "" then Ret None else
      res ← fetch (token_request rt cid);
      if negb (Http.ok res) then Ret None else
      data ← json res;
      access_token ← getProp data "access_token";
      match JsVal.kept access_token with
      | Some access =>
          Keychain.set (keychain this) "spotify" "access_token" access;;
          match JsVal.kept (JsVal.prop data "refresh_token") with
          | Some rotated =>
              Keychain.set (keychain this) "spotify" "refresh_token" rotated;;
              Ret (Some access)
          | None => Ret (Some access)
          end
      | None => Ret None
      end
  | _, _ => Ret None
  end.

(** A token endpoint whose tokens the key chain can keep
    ([JsVal.keepable]): in none of its replies is [access_token] or
    [refresh_token] a truthy value with an empty string. *)
Definition keepable_tokens (srv : Server) : Prop :=
  forall history req res source data,
    srv history req = Http.Responds res ->
    Http.content res = Http.JsonDoc source data ->
    JsVal.keepable (JsVal.prop data "access_token") = true
    /\ JsVal.keepable (JsVal.prop data "refresh_token") = true.

Record FetchOptions := mkOptions {
  method : option string;
  body : JsValue;
  params : option (list (string * string))
}.

Definition no_options : FetchOptions := mkOptions None undefined None.

Definition api_request (token path : string) (options : FetchOptions)
  : Http.Request :=
  {| Http.method := default "GET" (method options);
     Http.url := SPOTIFY_BASE +:+ path;
     Http.params := default [] (params options);
     Http.headers := [("Authorization", "Bearer " +:+ token);
                      ("Content-Type", "application/json")];
     Http.body := Http.json_body (body options) |}.

(** The statements of [spotifyFetch] after the refresh branch: what the
    call settles with, given the response. *)
Definition respond (res : Http.Response) : Prog Json :=
  if (Http.status res =? 204)%Z || (Http.status res =? 202)%Z then
    Ret (JObj [])
  else if negb (Http.ok res) then
    err ← catch (json res) (fun _ => Ret (JObj []));
    error ← getProp err "error";
    Throw (Error ("Spotify API " +:+ JsVal.string_of_Z (Http.status res)
                  +:+ ": " +:+
                  JsVal.toString
                    (JsVal.nullish (JsVal.optprop error "message")
                                   (JStr (Http.statusText res)))))
  else json res.

(** API fetch with auto-refresh.  [depth] bounds the nesting of the
    recursive call; nesting never exceeds two, the second call being made
    with [retry = false]. *)
Fixpoint spotifyFetch (depth : nat) (this : SpotifyPlugin) (path : string)
    (options : FetchOptions) (retry : bool) : Prog Json :=
  match depth with
  | 0 => Throw RangeError
  | S depth' =>
      token ← getToken this;
      res ← fetch (api_request token path options);
      if (Http.status res =? 401)%Z && retry then
        newToken ← refreshToken this;
        if JS.truthy newToken
        then spotifyFetch depth' this path options false
        else Throw (Error REFRESH_FAILED)
      else respond res
  end.

Definition TOKEN_URL : string := SPOTIFY_AUTH +:+ "/api/token".

(** A request to the token endpoint. *)
Definition is_token_request (req : Http.Request) : bool :=
  JS.startsWith (Http.url req) TOKEN_URL.

(** The three spotify credentials are stored and not empty. *)
Definition credentials_stored (this : SpotifyPlugin)
  : string -> string -> string -> option string -> Prop :=
  fun d s k v =>
    d = Keychain.configDir (keychain this) -> s = "spotify" ->
    k = "access_token" \/ k = "refresh_token" \/ k = "client_id" ->
    JS.truthy v = true.

(** The API answers every request with 401. *)
Definition always_unauthorized : Http.Request -> Http.Reply -> Prop :=
  fun req r =>
    is_token_request req = false ->
    exists res, r = Http.Responds res /\ Http.status res = 401%Z.

(** The world when the call's first request, made with token [A], was
    answered by [r1]. *)
Definition after_401 (this : SpotifyPlugin) (path : string)
    (options : FetchOptions) (w : World) (A : string) (r1 : Http.Response)
  : World :=
  record (EvFetch (api_request A path options) (Http.Responds r1))
    (record (EvKeychainGet (Keychain.configDir (keychain this))
               "spotify" "access_token" (Some A)) w).

(** The world [refreshToken] leaves behind when it stores a new token,
    and the rotated refresh token if there is one. *)
Definition stored (this : SpotifyPlugin) (access : string)
    (rotated : option string) (w : World) : World :=
  let dir := Keychain.configDir (keychain this) in
  let w1 := record (EvKeychainSet dir "spotify" "access_token" access)
              (set_store (<[(dir, "spotify", "access_token") := access]> (store w)) w) in
  match rotated with
  | Some r =>
      record (EvKeychainSet dir "spotify" "refresh_token" r)
        (set_store (<[(dir, "spotify", "refresh_token") := r]> (store w1)) w1)
  | None => w1
  end.

(** What one [spotifyFetch] call is allowed: its API request, with some
    bearer token, and the token request; the two tokens of this plugin in
    the Secret Store; any error but the overflow of the nesting bound. *)
Definition envelope (this : SpotifyPlugin) (path : string)
    (options : FetchOptions) : Limits :=
  mkLimits
    (fun req => (exists token, req = api_request token path options)
                \/ (exists rt cid, req = token_request rt cid))
    (fun d s k => d = Keychain.configDir (keychain this) /\ s = "spotify"
                  /\ (k = "access_token" \/ k = "refresh_token"))
    (fun e => e <> RangeError).

(** [msToTime], for a whole number of milliseconds (below 2^53 in
    magnitude, where [String(n)] is the decimal numeral): [Math.floor] of
    a quotient is [Z.div], [%] is [Z.rem]. *)
Definition msToTime (ms : Z) : string :=
  let total := (ms / 1000)%Z in
  let m := (total / 60)%Z in
  let s := Z.rem total 60 in
  JsVal.string_of_Z m +:+ ":" +:+ JS.padStart 2 "0" (JsVal.string_of_Z s).

(** The [spotify_volume] entry of [getTools()], for a whole-number
    [volume], which [Math.round] leaves as it is. *)
Definition spotify_volume (this : SpotifyPlugin) : PluginTool :=
  {| name := "spotify_volume";
     description := "Set Spotify playback volume (0–100)";
     requiresApproval := None;
     Args := Z;  (* volume *)
     handler := fun volume =>
       let vol := Z.max 0 (Z.min 100 volume) in
       spotifyFetch 2 this "/me/player/volume"
         (mkOptions (Some "PUT") undefined
            (Some [("volume_percent", JsVal.string_of_Z vol)])) true;;
       Ret (result_object [("volume", Some (JNum vol))]) |}.

Record QueueArgs := mkQueue { uri : option string; query : option string }.

Definition NO_TRACK_FOUND (query : string) : Json :=
  JObj [("error", JStr ("No track found for: " +:+ JS.QUOTE +:+ query
                        +:+ JS.QUOTE))].

Definition PROVIDE_URI_OR_QUERY : Json :=
  JObj [("error", JStr "Provide uri or query.")].

(** The statements of the [spotify_queue] handler from [if (!trackUri)]
    on. *)
Definition enqueue (this : SpotifyPlugin) (trackUri : JsValue) : Prog Json :=
  if negb (JsVal.truthy trackUri) then Ret PROVIDE_URI_OR_QUERY
  else
    spotifyFetch 2 this "/me/player/queue"
      (mkOptions (Some "POST") undefined
         (Some [("uri", JsVal.template trackUri)])) true;;
    Ret (result_object [("queued", Some (JBool true)); ("uri", trackUri)]).

(** The [spotify_queue] entry of [getTools()]. *)
Definition spotify_queue (this : SpotifyPlugin) : PluginTool :=
  {| name := "spotify_queue";
     description := "Add a track to the playback queue by URI or search query";
     requiresApproval := None;
     Args := QueueArgs;
     handler := fun args =>
       if negb (JS.truthy (uri args)) && JS.truthy (query args) then
         results ← spotifyFetch 2 this "/search"
                     (mkOptions None undefined
                        (Some [("q", JS.nullish (query args) "");
                               ("type", "track"); ("limit", "1")])) true;
         tracks ← getProp results "tracks";
         let track := JsVal.first (JsVal.optprop tracks "items") in
         if negb (JsVal.truthy track)
         then Ret (NO_TRACK_FOUND (JS.nullish (query args) ""))
         else enqueue this (JsVal.optprop track "uri")
       else enqueue this (JStr <$> uri args) |}.

End Spotify.

(* ===================================================================== *)
(** ** Gmail: [plugins/gmail/src/index.ts] *)
(* ===================================================================== *)

Module Gmail.

Definition GMAIL_BASE : string :=
  "https://gmail.googleapis.com/gmail/v1/users/me".

Record GmailPlugin := mkPlugin {
  keychain : Keychain.t;
  configDir : string
}.

Definition initialize (conductor : Conductor) : GmailPlugin :=
  {| configDir := getConfigDir conductor;
     keychain := Keychain.new (getConfigDir conductor) |}.

Definition NOT_AUTHENTICATED : string :=
  "Google not authenticated. Run: conductor auth google".
Definition TOKEN_EXPIRED : string :=
  "Google token expired. Re-authenticate: conductor auth google".

Definition getToken (this : GmailPlugin) : Prog string :=
  token ← Keychain.get (keychain this) "google" "access_token";
  match token with
  | Some t => if String.eqb t "" then Throw (Error NOT_AUTHENTICATED) else Ret t
  | None => Throw (Error NOT_AUTHENTICATED)
  end.

Record FetchOptions := mkOptions { method : option string; body : JsValue }.

Definition api_request (token path : string) (options : FetchOptions)
  : Http.Request :=
  {| Http.method := default "GET" (method options);
     Http.url := GMAIL_BASE +:+ path;
     Http.params := [];
     Http.headers := [("Authorization", "Bearer " +:+ token);
                      ("Content-Type", "application/json")];
     Http.body := Http.json_body (body options) |}.

Definition gmailFetch (this : GmailPlugin) (path : string)
    (options : FetchOptions) : Prog Json :=
  token ← getToken this;
  res ← fetch (api_request token path options);
  if negb (Http.ok res) then
    let err := text res in
    if (Http.status res =? 401)%Z then Throw (Error TOKEN_EXPIRED)
    else Throw (Error ("Gmail API " +:+ JsVal.string_of_Z (Http.status res)
                       +:+ ": " +:+ err))
  else json res.

Record EmailOpts := mkEmail {
  to : string;
  subject : string;
  email_body : string;
  cc : option string;
  inReplyTo : option string
}.

(** Encode email as RFC 2822 base64url for the Gmail API. *)
Definition encodeEmail (opts : EmailOpts) : string :=
  let lines :=
    JsVal.join JS.CRLF
      (omap id
         [Some ("To: " +:+ to opts);
          Some ("Subject: " +:+ subject opts);
          (if JS.truthy (cc opts)
           then Some ("Cc: " +:+ JS.nullish (cc opts) "") else None);
          (if JS.truthy (inReplyTo opts)
           then Some ("In-Reply-To: " +:+ JS.nullish (inReplyTo opts) "")
           else None);
          Some "Content-Type: text/plain; charset=UTF-8";
          Some "";
          Some (email_body opts)]) in
  JS.replace_all "/" "_"
    (JS.replace_all "+" "-" (Base64.encode (Bytes.utf8 lines))).

Record SendArgs := mkSend {
  send_to : string;
  send_subject : string;
  send_body : string;
  send_cc : option string
}.

(** The [gmail_send] entry of [getTools()]. *)
Definition gmail_send (this : GmailPlugin) : PluginTool :=
  {| name := "gmail_send";
     description := "Send an email via Gmail";
     requiresApproval := None;
     Args := SendArgs;
     handler := fun args =>
       let raw := encodeEmail (mkEmail (send_to args) (send_subject args)
                                       (send_body args) (send_cc args) None) in
       result ← gmailFetch this "/messages/send"
                  (mkOptions (Some "POST") (Some (JObj [("raw", JStr raw)])));
       id ← getProp result "id";
       Ret (result_object [("sent", Some (JBool true));
                           ("messageId", id);
                           ("threadId", JsVal.prop result "threadId")]) |}.

(** The characters of base64 text, and of its URL-safe variant. *)
Definition is_base64 (c : ascii) : bool :=
  Uri.is_alnum c || Uri.is_one_of "+/=" c.
Definition is_base64url (c : ascii) : bool :=
  Uri.is_alnum c || Uri.is_one_of "-_=" c.

(** The text that [encodeEmail] encodes, its [lines]. *)
Definition message (opts : EmailOpts) : string :=
  JsVal.join JS.CRLF
    (omap id
       [Some ("To: " +:+ to opts);
        Some ("Subject: " +:+ subject opts);
        (if JS.truthy (cc opts)
         then Some ("Cc: " +:+ JS.nullish (cc opts) "") else None);
        (if JS.truthy (inReplyTo opts)
         then Some ("In-Reply-To: " +:+ JS.nullish (inReplyTo opts) "")
         else None);
        Some "Content-Type: text/plain; charset=UTF-8";
        Some "";
        Some (email_body opts)]).

(** The first statement of [b64decode]: the base64url alphabet mapped
    back to the base64 one, [b64]; the result goes to
    [Buffer.from(b64, 'base64')]. *)
Definition b64 (s : string) : string :=
  JS.replace_all "_" "/" (JS.replace_all "-" "+" s).

(** Get header value from message headers. *)
Definition getHeader (headers : Json) (name : string) : Prog Json :=
  match headers with
  | JNull => Ret (JStr "")
  | JArr items =>
      h ← array_find
            (fun h =>
               n ← getProp h "name";
               match n with
               | Some (JStr s) =>
                   Ret (String.eqb (JS.toLowerCase s) (JS.toLowerCase name))
               | _ => Throw TypeError   (* no toLowerCase *)
               end) items;
      Ret (JsVal.nullish (JsVal.optprop h "value") (JStr ""))
  | _ => Throw TypeError   (* headers.find is not a function *)
  end.

(** [s.replace(/^Re:\s*/i, '')]: only [r] and [R] match [R] without
    regard to case, and [e] and [E] match [e]. *)
Definition strip_re (s : string) : string :=
  match s with
  | String r (String e (String colon rest)) =>
      if (Ascii.eqb r "r" || Ascii.eqb r "R")
         && (Ascii.eqb e "e" || Ascii.eqb e "E")
         && Ascii.eqb colon ":"
      then JS.skip_spaces rest else s
  | _ => s
  end.

(** The subject of a reply to a message with the subject [s]. *)
Definition reply_subject (s : string) : string := "Re: " +:+ strip_re s.

(** [encodeEmail] as [gmail_reply] calls it: without [cc], and with
    header values of the original message for [to] and [inReplyTo], which
    need not be strings. *)
Definition encodeReply (to : Json) (subject body : string) (inReplyTo : Json)
  : string :=
  let lines :=
    JsVal.join JS.CRLF
      (omap id
         [Some ("To: " +:+ JsVal.toString to);
          Some ("Subject: " +:+ subject);
          None;
          (if JsVal.truthy (Some inReplyTo)
           then Some ("In-Reply-To: " +:+ JsVal.toString inReplyTo)
           else None);
          Some "Content-Type: text/plain; charset=UTF-8";
          Some "";
          Some body]) in
  JS.replace_all "/" "_"
    (JS.replace_all "+" "-" (Base64.encode (Bytes.utf8 lines))).

Record ReplyArgs := mkReply {
  reply_messageId : string;
  reply_body : string
}.

(** The [gmail_reply] entry of [getTools()]. *)
Definition gmail_reply (this : GmailPlugin) : PluginTool :=
  {| name := "gmail_reply";
     description := "Reply to an existing Gmail message/thread";
     requiresApproval := None;
     Args := ReplyArgs;
     handler := fun args =>
       orig ← gmailFetch this
                ("/messages/" +:+ reply_messageId args +:+
                 "?format=metadata&metadataHeaders=From&metadataHeaders=Subject&metadataHeaders=Message-ID")
                (mkOptions None undefined);
       payload ← getProp orig "payload";
       let h := JsVal.nullish (JsVal.optprop payload "headers") (JArr []) in
       to ← getHeader h "From";
       original ← getHeader h "Subject";
       match original with
       | JStr s =>
           let subject := reply_subject s in
           inReplyTo ← getHeader h "Message-ID";
           let raw := encodeReply to subject (reply_body args) inReplyTo in
           result ← gmailFetch this "/messages/send"
                      (mkOptions (Some "POST")
                         (Some (result_object
                                  [("raw", Some (JStr raw));
                                   ("threadId", JsVal.prop orig "threadId")])));
           id ← getProp result "id";
           Ret (result_object [("sent", Some (JBool true));
                               ("messageId", id);
                               ("threadId", JsVal.prop result "threadId")])
       | _ => Throw TypeError   (* no replace *)
       end |}.

End Gmail.

(* ===================================================================== *)
(** ** Google Calendar: [plugins/gcal/src/index.ts] *)
(* ===================================================================== *)

Module Gcal.

Definition CAL_BASE : string := "https://www.googleapis.com/calendar/v3".

Record GoogleCalendarPlugin := mkPlugin { keychain : Keychain.t }.

Definition initialize (conductor : Conductor) : GoogleCalendarPlugin :=
  {| keychain := Keychain.new (getConfigDir conductor) |}.

Definition NOT_AUTHENTICATED : string :=
  "Google not authenticated. Run: conductor auth google".
Definition TOKEN_EXPIRED : string :=
  "Google token expired. Re-authenticate: conductor auth google".

Definition getToken (this : GoogleCalendarPlugin) : Prog string :=
  token ← Keychain.get (keychain this) "google" "access_token";
  match token with
  | Some t => if String.eqb t "" then Throw (Error NOT_AUTHENTICATED) else Ret t
  | None => Throw (Error NOT_AUTHENTICATED)
  end.

Record FetchOptions := mkOptions { method : option string; body : JsValue }.

Definition api_request (token path : string) (options : FetchOptions)
  : Http.Request :=
  {| Http.method := default "GET" (method options);
     Http.url := CAL_BASE +:+ path;
     Http.params := [];
     Http.headers := [("Authorization", "Bearer " +:+ token);
                      ("Content-Type", "application/json")];
     Http.body := Http.json_body (body options) |}.

Definition calFetch (this : GoogleCalendarPlugin) (path : string)
    (options : FetchOptions) : Prog Json :=
  token ← getToken this;
  res ← fetch (api_request token path options);
  if negb (Http.ok res) then
    let err := text res in
    if (Http.status res =? 401)%Z then Throw (Error TOKEN_EXPIRED)
    else Throw (Error ("Google Calendar API "
                       +:+ JsVal.string_of_Z (Http.status res) +:+ ": " +:+ err))
  else if (Http.status res =? 204)%Z then Ret (JObj [])
  else json res.

Record DeleteArgs := mkDelete { eventId : string; calendarId : option string }.

(** The [gcal_delete_event] entry of [getTools()]. *)
Definition gcal_delete_event (this : GoogleCalendarPlugin) : PluginTool :=
  {| name := "gcal_delete_event";
     description := "Delete a Google Calendar event";
     requiresApproval := None;
     Args := DeleteArgs;
     handler := fun args =>
       calFetch this
         ("/calendars/"
          +:+ Uri.encodeURIComponent (JS.nullish (calendarId args) "primary")
          +:+ "/events/" +:+ Uri.encodeURIComponent (eventId args))
         (mkOptions (Some "DELETE") undefined);;
       Ret (result_object [("deleted", Some (JBool true));
                           ("eventId", Some (JStr (eventId args)))]) |}.

End Gcal.

(* ===================================================================== *)
(** ** n8n: [N8nPlugin] *)
(* ===================================================================== *)

Module N8n.

Definition DEFAULT_URL : string := "http://localhost:5678".
Definition API_SUFFIX : string := "/api/v1".

Record N8nPlugin := mkPlugin { keychain : Keychain.t }.

Definition initialize (conductor : Conductor) : N8nPlugin :=
  {| keychain := Keychain.new (getConfigDir conductor) |}.

Definition NOT_CONFIGURED : string :=
  "n8n API key not configured." +:+ JS.NL +:+
  "Get one from your n8n instance: Settings → API → Create Key" +:+ JS.NL +:+
  "Then run: conductor plugins config n8n api_key <KEY>".

(** The two statements of [getConfig] that compute [baseUrl] from the
    stored [n8n/base_url] ([rawUrl], [null] when absent): strip a
    trailing slash, ensure the [/api/v1] suffix. *)
Definition normaliseBaseUrl (rawUrl : option string) : string :=
  let baseUrl := JS.strip_trailing_slash (JS.nullish rawUrl DEFAULT_URL) in
  if negb (JS.endsWith baseUrl API_SUFFIX)
  then baseUrl +:+ API_SUFFIX
  else baseUrl.

Record Config := mkConfig { apiKey : string; baseUrl : string }.

Definition getConfig (this : N8nPlugin) : Prog Config :=
  apiKey ← Keychain.get (keychain this) "n8n" "api_key";
  match apiKey with
  | Some key =>
      if String.eqb key "" then Throw (Error NOT_CONFIGURED) else
      rawUrl ← Keychain.get (keychain this) "n8n" "base_url";
      Ret (mkConfig key (normaliseBaseUrl rawUrl))
  | None => Throw (Error NOT_CONFIGURED)
  end.

Record FetchOptions := mkOptions {
  method : option string;
  body : JsValue;
  params : option (list (string * string))
}.

Definition no_options : FetchOptions := mkOptions None undefined None.

(** The request of [n8nFetch].  Its [Http.url] is the string
    [`${baseUrl}${path}`] handed to [new URL], with the search parameters
    set on it; the URL the request goes to is what the URL standard makes
    of that string (dot segments are resolved, a [?] or [#] in it ends
    the path), which is not modelled. *)
Definition api_request (cfg : Config) (path : string) (options : FetchOptions)
  : Http.Request :=
  {| Http.method := default "GET" (method options);
     Http.url := baseUrl cfg +:+ path;
     Http.params := default [] (params options);
     Http.headers := [("X-N8N-API-KEY", apiKey cfg);
                      ("Content-Type", "application/json");
                      ("Accept", "application/json")];
     Http.body := Http.json_body (body options) |}.

(** [n8nFetch].  [new URL] rejects a string that is not a URL before
    anything is sent; which strings are is not modelled (see
    [Http.Reply]). *)
Definition n8nFetch (this : N8nPlugin) (path : string)
    (options : FetchOptions) : Prog Json :=
  cfg ← getConfig this;
  res ← fetch (api_request cfg path options);
  if (Http.status res =? 204)%Z then Ret (JObj [])
  else if negb (Http.ok res) then
    err ← catch (json res)
                (fun _ => Ret (JObj [("message", JStr (Http.statusText res))]));
    message ← getProp err "message";
    Throw (Error ("n8n API " +:+ JsVal.string_of_Z (Http.status res) +:+ ": "
                  +:+ JsVal.toString
                        (JsVal.nullish message (JStr (Http.statusText res)))))
  else json res.

(** The [n8n_delete_execution] entry of [getTools()]. *)
Definition n8n_delete_execution (this : N8nPlugin) : PluginTool :=
  {| name := "n8n_delete_execution";
     description := "Delete a workflow execution from n8n history";
     requiresApproval := None;
     Args := string;  (* executionId *)
     handler := fun executionId =>
       n8nFetch this ("/executions/" +:+ executionId)
                (mkOptions (Some "DELETE") undefined None);;
       Ret (result_object [("deleted", Some (JBool true));
                           ("executionId", Some (JStr executionId))]) |}.

(** [baseUrl.replace('/api/v1', '')], the [n8nBase] of [n8n_trigger] and
    [n8n_webhook] and the [instanceUrl] of [n8n_health]. *)
Definition n8nBase (baseUrl : string) : string :=
  JS.replace_first "/api/v1" "" baseUrl.

Section Executions.

(** The digits of
    [Math.round((new Date(stoppedAt).getTime() - new Date(startedAt).getTime()) / 1000)]
    for the two stored values, [startedAt] first; [Date] is not
    modelled. *)
Variable elapsed : Json -> Json -> string.

(** [formatExecution(e)]; reading a property of [null] throws. *)
Definition formatExecution (e : Json) : Prog Json :=
  startedAt ← getProp e "startedAt";
  let stoppedAt := JsVal.prop e "stoppedAt" in
  let duration :=
    if JsVal.truthy startedAt && JsVal.truthy stoppedAt
    then JStr (elapsed (JsVal.nullish startedAt JNull)
                       (JsVal.nullish stoppedAt JNull) +:+ "s")
    else JNull in
  let resultData := JsVal.optprop (JsVal.prop e "data") "resultData" in
  Ret (result_object
         [("id", JsVal.prop e "id");
          ("workflowId", JsVal.prop e "workflowId");
          ("workflowName",
           Some (JsVal.nullish (JsVal.optprop (JsVal.prop e "workflowData") "name")
                               JNull));
          ("status",
           Some (JStr (if JsVal.truthy (JsVal.or_else (JsVal.prop e "status")
                                                      (JsVal.prop e "finished"))
                       then "success" else "running")));
          ("mode", Some (JsVal.nullish (JsVal.prop e "mode") (JStr "unknown")));
          ("startedAt", Some (JsVal.nullish startedAt JNull));
          ("stoppedAt", Some (JsVal.nullish stoppedAt JNull));
          ("duration", Some duration);
          ("nodeCount",
           Some (JNum (Z.of_nat
                         (JsVal.keys_length
                            (JsVal.nullish (JsVal.optprop resultData "runData")
                                           (JObj []))))));
          ("error",
           Some (JsVal.nullish
                   (JsVal.optprop (JsVal.optprop resultData "error") "message")
                   JNull))]).

(** [items.map(f)] for an [f] that may throw. *)
Fixpoint traverse (f : Json -> Prog Json) (items : list Json)
  : Prog (list Json) :=
  match items with
  | [] => Ret []
  | x :: rest =>
      y ← f x;
      ys ← traverse f rest;
      Ret (y :: ys)
  end.

Record ExecutionsArgs := mkExecutions {
  workflowId : option string;
  status : option string;
  limit : option Z
}.

Definition is_error (formatted : Json) : bool :=
  match JsVal.prop formatted "status" with
  | Some (JStr s) => String.eqb s "error"
  | _ => false
  end.

(** The [n8n_executions] entry of [getTools()]. *)
Definition n8n_executions (this : N8nPlugin) : PluginTool :=
  {| name := "n8n_executions";
     description := "List recent workflow executions with status and duration";
     requiresApproval := None;
     Args := ExecutionsArgs;
     handler := fun args =>
       let params :=
         [("limit", JsVal.string_of_Z (Z.min (default 20%Z (limit args)) 100))]
         ++ (if JS.truthy (workflowId args)
             then [("workflowId", JS.nullish (workflowId args) "")] else [])
         ++ (if JS.truthy (status args)
             then [("status", JS.nullish (status args) "")] else []) in
       data ← n8nFetch this "/executions" (mkOptions None undefined (Some params));
       inner ← getProp data "data";
       match JsVal.nullish inner data with
       | JArr executions =>
           formatted ← traverse formatExecution executions;
           let errorCount := length (List.filter is_error formatted) in
           Ret (result_object
                  [("count", Some (JNum (Z.of_nat (length formatted))));
                   ("errors", Some (JNum (Z.of_nat errorCount)));
                   ("executions", Some (JArr formatted))])
       | _ => Throw TypeError   (* executions.map is not a function *)
       end |}.

End Executions.

Section Trigger.

Variable elapsed : Json -> Json -> string.

(** [res.headers.get('content-type')]: the headers of a response are not
    part of [Http.Response]. *)
Variable contentType : Http.Response -> option string.

(** [{ 'Content-Type': 'application/json', ...(headers ?? {}) }]: a
    [Content-Type] among [headers] replaces the value and keeps the first
    place. *)
Definition spread_headers (headers : list (string * string))
  : list (string * string) :=
  let is_content_type (kv : string * string) := String.eqb (fst kv) "Content-Type" in
  ("Content-Type",
   default "application/json" (snd <$> List.find is_content_type headers))
  :: List.filter (fun kv => negb (is_content_type kv)) headers.

(** Fire a webhook URL directly. *)
Definition webhook_request (webhookUrl method : string) (body : JsValue)
    (headers : option (list (string * string))) : Http.Request :=
  {| Http.method := method;
     Http.url := webhookUrl;
     Http.params := [];
     Http.headers := spread_headers (default [] headers);
     Http.body := Http.json_body body |}.

Definition webhookFetch (webhookUrl method : string) (body : JsValue)
    (headers : option (list (string * string))) : Prog Json :=
  res ← fetch (webhook_request webhookUrl method body headers);
  if negb (Http.ok res)
  then Throw (Error ("Webhook " +:+ JsVal.string_of_Z (Http.status res)
                     +:+ ": " +:+ Http.statusText res))
  else
    let ct := JS.nullish (contentType res) "" in
    if JS.includes ct "application/json" then json res
    else Ret (JObj [("response", JStr (text res))]).

(** [t?.includes(needle)] for the [type] of a node: a substring of a
    string, an element of an array; [undefined] and [null] give
    [undefined], which is falsy; any other value has no such method. *)
Definition type_includes (t : JsValue) (needle : string) : Prog bool :=
  match t with
  | None | Some JNull => Ret false
  | Some (JStr s) => Ret (JS.includes s needle)
  | Some (JArr items) =>
      Ret (existsb (fun x => match x with
                             | JStr s => String.eqb s needle
                             | _ => false
                             end) items)
  | Some _ => Throw TypeError
  end.

Definition is_trigger (n : Json) : Prog bool :=
  t ← getProp n "type";
  a ← type_includes t "Trigger";
  if (a : bool) then Ret true else
  b ← type_includes t "Webhook";
  if (b : bool) then Ret true else type_includes t "Cron".

Definition detectTriggerType (nodes : list Json) : Prog string :=
  triggerNode ← array_find is_trigger nodes;
  if negb (JsVal.truthy triggerNode) then Ret "manual" else
  let t := JsVal.optprop triggerNode "type" in
  webhook ← type_includes t "Webhook";
  if (webhook : bool) then Ret "webhook" else
  cron ← type_includes t "Cron";
  schedule ← (if (cron : bool) then Ret true else type_includes t "Schedule");
  if (schedule : bool) then Ret "schedule" else
  email ← type_includes t "EmailImap";
  if (email : bool) then Ret "email" else
  match t with
  | None | Some JNull => Ret "trigger"
  | Some (JStr s) => Ret (JS.replace_first "Trigger" "" (JS.last_segment "." s))
  | Some _ => Throw TypeError   (* type.split is not a function *)
  end.

Definition is_webhook (n : Json) : Prog bool :=
  t ← getProp n "type";
  if JsVal.is_string t "n8n-nodes-base.webhook" then Ret true
  else type_includes t "Webhook".

Definition extractWebhookPath (nodes : list Json) : Prog Json :=
  webhookNode ← array_find is_webhook nodes;
  let parameters := JsVal.optprop webhookNode "parameters" in
  Ret (JsVal.nullish (JsVal.optprop parameters "path")
         (JsVal.nullish (JsVal.optprop parameters "webhookId") JNull)).

(** A node whose [type] is a string without ['Trigger'], ['Webhook'] and
    ['Cron']. *)
Definition plain_node (n : Json) : bool :=
  match JsVal.prop n "type" with
  | Some (JStr s) =>
      negb (JS.includes s "Trigger") && negb (JS.includes s "Webhook")
      && negb (JS.includes s "Cron")
  | _ => false
  end.

Record TriggerArgs := mkTrigger {
  trigger_id : string;
  payload : option Json;
  waitForResult : option bool
}.

(** The loop of [n8n_trigger] that polls for completion, with [left]
    rounds to go, and [otherwise] for the statements after it. *)
Fixpoint poll (this : N8nPlugin) (id : string) (execId : Json) (left : nat)
    (otherwise : Prog Json) : Prog Json :=
  match left with
  | O => otherwise
  | S left' =>
      Sleep 2000
        (exec ← catch (n8nFetch this ("/executions/" +:+ JsVal.toString execId)
                         no_options)
                      (fun _ => Ret JNull);
         if JsVal.truthy (JsVal.optprop (Some exec) "finished")
            || JsVal.is_string (JsVal.optprop (Some exec) "status") "error"
         then
           execution ← formatExecution elapsed exec;
           Ret (result_object [("triggered", Some (JBool true));
                               ("method", Some (JStr "execute"));
                               ("workflowId", Some (JStr id));
                               ("execution", Some execution)])
         else poll this id execId left' otherwise)
  end.

(** The [n8n_trigger] entry of [getTools()]. *)
Definition n8n_trigger (this : N8nPlugin) : PluginTool :=
  {| name := "n8n_trigger";
     description :=
       "Manually trigger an n8n workflow execution. " +:+
       "For webhook workflows, fires the webhook URL. " +:+
       "For others, uses the n8n execute API.";
     requiresApproval := None;
     Args := TriggerArgs;
     handler := fun args =>
       let id := trigger_id args in
       let payload := default (JObj []) (payload args) in
       workflow ← n8nFetch this ("/workflows/" +:+ id) no_options;
       nodes ← getProp workflow "nodes";
       match JsVal.nullish nodes (JArr []) with
       | JArr nodes =>
           triggerType ← detectTriggerType nodes;
           webhookPath ← extractWebhookPath nodes;
           if String.eqb triggerType "webhook" && JsVal.truthy (Some webhookPath)
           then
             cfg ← getConfig this;
             let webhookUrl := n8nBase (baseUrl cfg) +:+ "/webhook/"
                               +:+ JsVal.toString webhookPath in
             result ← webhookFetch webhookUrl "POST" (Some payload) None;
             Ret (result_object
                    [("triggered", Some (JBool true));
                     ("method", Some (JStr "webhook"));
                     ("webhookUrl", Some (JStr webhookUrl));
                     ("workflowId", Some (JStr id));
                     ("workflowName", JsVal.prop workflow "name");
                     ("response", Some result)])
           else
             result ← n8nFetch this ("/workflows/" +:+ id +:+ "/run")
                        (mkOptions (Some "POST")
                           (Some (JObj [("runData", payload)])) None);
             data ← getProp result "data";
             let execId := JsVal.optprop data "executionId" in
             let otherwise :=
               Ret (result_object
                      [("triggered", Some (JBool true));
                       ("method", Some (JStr "execute"));
                       ("workflowId", Some (JStr id));
                       ("workflowName", JsVal.prop workflow "name");
                       ("executionId", Some (JsVal.nullish execId JNull))]) in
             if default false (waitForResult args) && JsVal.truthy execId
             then poll this id (JsVal.nullish execId JNull) 15 otherwise
             else otherwise
       | _ => Throw TypeError   (* nodes.find is not a function *)
       end |}.

Record WebhookArgs := mkWebhook {
  webhook_path : string;
  webhook_payload : JsValue;
  webhook_method : option string;
  webhook_headers : option (list (string * string))
}.

(** The [n8n_webhook] entry of [getTools()]. *)
Definition n8n_webhook (this : N8nPlugin) : PluginTool :=
  {| name := "n8n_webhook";
     description :=
       "Fire an n8n webhook directly by its path or full URL. " +:+
       "Use this when you know the webhook path but not the workflow ID.";
     requiresApproval := None;
     Args := WebhookArgs;
     handler := fun args =>
       let path := webhook_path args in
       let method := default "POST" (webhook_method args) in
       url ← (if JS.startsWith path "http" then Ret path
              else
                cfg ← getConfig this;
                Ret (n8nBase (baseUrl cfg) +:+ "/webhook/"
                     +:+ JS.strip_leading_slash path));
       result ← webhookFetch url method (webhook_payload args)
                  (webhook_headers args);
       Ret (result_object [("fired", Some (JBool true));
                           ("url", Some (JStr url));
                           ("method", Some (JStr method));
                           ("response", Some result)]) |}.

End Trigger.

Section Credentials.

(** [JSON.stringify], which is not modelled. *)
Variable stringify : Json -> string.

(** One entry of [credentials] in the result of [n8n_credentials]. *)
Definition credential_entry (c : Json) : Prog Json :=
  id ← getProp c "id";
  Ret (result_object
         [("id", id);
          ("name", JsVal.prop c "name");
          ("type", JsVal.prop c "type");
          ("createdAt", Some (JsVal.nullish (JsVal.prop c "createdAt") JNull));
          ("updatedAt", Some (JsVal.nullish (JsVal.prop c "updatedAt") JNull))]).

(** The [n8n_credentials] entry of [getTools()]; its argument is [type]. *)
Definition n8n_credentials (this : N8nPlugin) : PluginTool :=
  {| name := "n8n_credentials";
     description :=
       "List credential types configured in n8n (names only — no secrets exposed)";
     requiresApproval := None;
     Args := option string;
     handler := fun type =>
       let params :=
         if JS.truthy type
         then [("filter", stringify (JObj [("type", JStr (JS.nullish type ""))]))]
         else [] in
       data ← n8nFetch this "/credentials" (mkOptions None undefined (Some params));
       inner ← getProp data "data";
       match JsVal.nullish inner data with
       | JArr creds =>
           entries ← map_each credential_entry creds;
           Ret (result_object
                  [("count", Some (JNum (Z.of_nat (length creds))));
                   ("credentials", Some (JArr entries))])
       | _ => Throw TypeError   (* creds.map is not a function *)
       end |}.

End Credentials.

End N8n.


(* ===================================================================== *)
(** ** X: [plugins/x/src/index.ts] *)
(* ===================================================================== *)

Module X.

Definition X_BASE : string := "https://api.twitter.com/2".

Record XPlugin := mkPlugin { keychain : Keychain.t }.

Definition initialize (conductor : Conductor) : XPlugin :=
  {| keychain := Keychain.new (getConfigDir conductor) |}.

Record OAuthCreds := mkCreds {
  apiKey : string;
  apiSecret : string;
  accessToken : string;
  accessSecret : string
}.

Definition WRITE_NOT_CONFIGURED : string :=
  "X write credentials not fully configured. Run:" +:+ JS.NL +:+
  "  conductor plugins config x api_key <KEY>" +:+ JS.NL +:+
  "  conductor plugins config x api_secret <SECRET>" +:+ JS.NL +:+
  "  conductor plugins config x access_token <TOKEN>" +:+ JS.NL +:+
  "  conductor plugins config x access_secret <SECRET>".

(** The four reads of [Promise.all] are started in the order written. *)
Definition getOAuthCreds (this : XPlugin) : Prog OAuthCreds :=
  apiKey ← Keychain.get (keychain this) "x" "api_key";
  apiSecret ← Keychain.get (keychain this) "x" "api_secret";
  accessToken ← Keychain.get (keychain this) "x" "access_token";
  accessSecret ← Keychain.get (keychain this) "x" "access_secret";
  if negb (JS.truthy apiKey) || negb (JS.truthy apiSecret)
     || negb (JS.truthy accessToken) || negb (JS.truthy accessSecret)
  then Throw (Error WRITE_NOT_CONFIGURED)
  else Ret (mkCreds (JS.nullish apiKey "") (JS.nullish apiSecret "")
                    (JS.nullish accessToken "") (JS.nullish accessSecret "")).

(** The world after the four credential reads of [getOAuthCreds]. *)
Definition after_credentials (this : XPlugin) (creds : OAuthCreds) (w : World)
  : World :=
  let dir := Keychain.configDir (keychain this) in
  record (EvKeychainGet dir "x" "access_secret" (Some (accessSecret creds)))
    (record (EvKeychainGet dir "x" "access_token" (Some (accessToken creds)))
       (record (EvKeychainGet dir "x" "api_secret" (Some (apiSecret creds)))
          (record (EvKeychainGet dir "x" "api_key" (Some (apiKey creds))) w))).

(** [oauthParams], an object literal: its keys in insertion order. *)
Definition oauthParams (nonce timestamp : string) (creds : OAuthCreds)
  : list (string * string) :=
  [("oauth_consumer_key", apiKey creds);
   ("oauth_nonce", nonce);
   ("oauth_signature_method", "HMAC-SHA1");
   ("oauth_timestamp", timestamp);
   ("oauth_token", accessToken creds);
   ("oauth_version", "1.0")].

(** [obj[k]] of an object of strings. *)
Fixpoint field (obj : list (string * string)) (k : string) : string :=
  match obj with
  | [] => "undefined"
  | (k', v) :: rest => if String.eqb k' k then v else field rest k
  end.

Definition sortedParams (allParams : list (string * string)) : string :=
  JsVal.join "&"
    (List.map (fun k => Uri.encodeURIComponent k +:+ "="
                        +:+ Uri.encodeURIComponent (field allParams k))
              (JS.sort (List.map fst allParams))).

Definition baseString (method url : string)
    (allParams : list (string * string)) : string :=
  JsVal.join "&" [JS.toUpperCase method;
                  Uri.encodeURIComponent url;
                  Uri.encodeURIComponent (sortedParams allParams)].

Definition signingKey (creds : OAuthCreds) : string :=
  Uri.encodeURIComponent (apiSecret creds) +:+ "&"
  +:+ Uri.encodeURIComponent (accessSecret creds).

(** [crypto.createHmac('sha1', key).update(base).digest('base64')] *)
Definition hmac_sha1_base64 (key base : string) : string :=
  Base64.encode (Hmac.sha1 (Bytes.utf8 key) (Bytes.utf8 base)).

(** The [oauth_signature] that [buildOAuthHeader] computes, given the
    nonce and the timestamp it drew. *)
Definition oauth_signature (nonce timestamp method url : string)
    (creds : OAuthCreds) : string :=
  let oauthParams := oauthParams nonce timestamp creds in
  let allParams := oauthParams in
  hmac_sha1_base64 (signingKey creds) (baseString method url allParams).

(** The body of [buildOAuthHeader] after the nonce and the timestamp. *)
Definition buildOAuthHeaderWith (nonce timestamp method url : string)
    (creds : OAuthCreds) : string :=
  let signed := (oauthParams nonce timestamp creds
                 ++ [("oauth_signature",
                      oauth_signature nonce timestamp method url creds)])%list in
  let headerValue :=
    JsVal.join ", "
      (List.map (fun kv => Uri.encodeURIComponent (fst kv) +:+ "=" +:+ JS.QUOTE
                           +:+ Uri.encodeURIComponent (snd kv) +:+ JS.QUOTE)
                signed) in
  "OAuth " +:+ headerValue.

(** OAuth 1.0a HMAC-SHA1 signature for write operations. *)
Definition buildOAuthHeader (method url : string) (creds : OAuthCreds)
  : Prog string :=
  RandomBytes 16 (fun bytes =>
  DateNow (fun now =>
    let nonce := Bytes.hex bytes in
    let timestamp := JsVal.string_of_Z (now / 1000)%Z in
    Ret (buildOAuthHeaderWith nonce timestamp method url creds))).

Section Envelopes.

(** The retry policy of the shared helper that [xFetch] and [xPost]
    call. *)
Variable policy : Shared.RetryPolicy.

Definition post_request (authHeader url : string) (body : Json)
  : Http.Request :=
  {| Http.method := "POST";
     Http.url := url;
     Http.params := [];
     Http.headers := [("Authorization", authHeader);
                      ("Content-Type", "application/json")];
     Http.body := Http.JsonBody body |}.

(** The request [xPost] sends from world [w] with the stored [creds]:
    the header is built once, from the bytes and the time drawn after the
    credentials were read, before the retry helper is entered. *)
Definition signed_post (this : XPlugin) (creds : OAuthCreds) (path : string)
    (body : Json) (w : World) : Http.Request :=
  let w0 := after_credentials this creds w in
  let url := X_BASE +:+ path in
  post_request
    (buildOAuthHeaderWith (Bytes.hex (fst (draw 16 w0)))
       (JsVal.string_of_Z (clock w0 / 1000)) "POST" url creds)
    url body.

(** The failure branch shared by [xFetch] and [xPost]. *)
Definition api_error (res : Http.Response) : Prog Json :=
  errStr ← catch (errJSON ← json res;
                  detail ← getProp errJSON "detail";
                  Ret (JsVal.nullish detail
                         (JsVal.nullish (JsVal.prop errJSON "title")
                                        (JStr (Http.statusText res)))))
                 (fun _ => Ret (JStr (Http.statusText res)));
  Throw (ErrorWithStatus
           ("X API " +:+ JsVal.string_of_Z (Http.status res) +:+ ": "
            +:+ JsVal.toString errStr)
           (Http.status res)).

(** OAuth 1.0a signed POST (write operations). *)
Definition xPost (this : XPlugin) (path : string) (body : Json) : Prog Json :=
  creds ← getOAuthCreds this;
  let url := X_BASE +:+ path in
  authHeader ← buildOAuthHeader "POST" url creds;
  Shared.withRetry policy
    (res ← fetch (post_request authHeader url body);
     if negb (Http.ok res) then api_error res else json res).

Record PostTweetArgs := mkPostTweet {
  text : string;
  replyToId : option string
}.

Definition tweet_too_long (text : string) : Json :=
  JObj [("error",
         JStr ("Tweet too long: " +:+ JsVal.string_of_nat (String.length text)
               +:+ " chars (max 280)."))].

Definition tweet_body (args : PostTweetArgs) : Json :=
  JObj (("text", JStr (text args))
        :: (if JS.truthy (replyToId args)
            then [("reply",
                   JObj [("in_reply_to_tweet_id",
                          JStr (JS.nullish (replyToId args) ""))])]
            else [])).

(** The [x_post_tweet] entry of [getTools()]. *)
Definition x_post_tweet (this : XPlugin) : PluginTool :=
  {| name := "x_post_tweet";
     description :=
       "Post a new tweet to X (requires OAuth 1.0a write credentials)";
     requiresApproval := Some true;
     Args := PostTweetArgs;
     handler := fun args =>
       if (280 <? String.length (text args))%nat
       then Ret (tweet_too_long (text args))
       else
         res ← xPost this "/tweets" (tweet_body args);
         data ← getProp res "data";
         Ret (result_object
                [("posted", Some (JBool true));
                 ("id", JsVal.optprop data "id");
                 ("text", JsVal.optprop data "text");
                 ("url", Some (JStr ("https://x.com/i/web/status/"
                                     +:+ JsVal.template
                                           (JsVal.optprop data "id"))))]) |}.

(** The [x_delete_tweet] entry of [getTools()]: its request is sent
    directly, outside the retry helper. *)
Definition x_delete_tweet (this : XPlugin) : PluginTool :=
  {| name := "x_delete_tweet";
     description :=
       "Delete one of your tweets (requires OAuth write credentials)";
     requiresApproval := Some true;
     Args := string;  (* tweetId *)
     handler := fun tweetId =>
       creds ← getOAuthCreds this;
       let url := X_BASE +:+ "/tweets/" +:+ tweetId in
       authHeader ← buildOAuthHeader "DELETE" url creds;
       res ← fetch {| Http.method := "DELETE";
                      Http.url := url;
                      Http.params := [];
                      Http.headers := [("Authorization", authHeader)];
                      Http.body := Http.NoBody |};
       if negb (Http.ok res)
       then Throw (Error ("Delete failed: "
                          +:+ JsVal.string_of_Z (Http.status res) +:+ " "
                          +:+ Http.statusText res))
       else
         data ← json res;
         inner ← getProp data "data";
         Ret (result_object
                [("deleted",
                  Some (JsVal.nullish (JsVal.optprop inner "deleted")
                                      (JBool true)));
                 ("tweetId", Some (JStr tweetId))]) |}.

End Envelopes.

Section ReadTools.

Variable policy : Shared.RetryPolicy.

Definition BEARER_NOT_CONFIGURED : string :=
  "X Bearer Token not configured." +:+ JS.NL +:+
  "Get one at https://developer.x.com and run:" +:+ JS.NL +:+
  "  conductor plugins config x bearer_token <YOUR_TOKEN>".

Definition getBearerToken (this : XPlugin) : Prog string :=
  token ← Keychain.get (keychain this) "x" "bearer_token";
  match token with
  | Some t => if String.eqb t "" then Throw (Error BEARER_NOT_CONFIGURED) else Ret t
  | None => Throw (Error BEARER_NOT_CONFIGURED)
  end.

(** The request of [xFetch]: no method is given, so it is a GET. *)
Definition get_request (token path : string) (params : list (string * string))
  : Http.Request :=
  {| Http.method := "GET";
     Http.url := X_BASE +:+ path;
     Http.params := params;
     Http.headers := [("Authorization", "Bearer " +:+ token)];
     Http.body := Http.NoBody |}.

(** Bearer token fetch (read operations). *)
Definition xFetch (this : XPlugin) (path : string)
    (params : option (list (string * string))) : Prog Json :=
  token ← getBearerToken this;
  Shared.withRetry policy
    (res ← fetch (get_request token path (default [] params));
     if negb (Http.ok res) then api_error res else json res).

Record GetUserArgs := mkGetUser {
  lookup_username : option string;
  lookup_userId : option string
}.

Definition USER_FIELDS : string :=
  "name,username,description,public_metrics,created_at,verified,location,url".

(** The [x_get_user] entry of [getTools()]. *)
Definition x_get_user (this : XPlugin) : PluginTool :=
  {| name := "x_get_user";
     description := "Get an X user profile by username or ID";
     requiresApproval := None;
     Args := GetUserArgs;
     handler := fun args =>
       let username := lookup_username args in
       let userId := lookup_userId args in
       if negb (JS.truthy username) && negb (JS.truthy userId)
       then Throw (Error "Provide username or userId.")
       else
         let path := if JS.truthy userId
                     then "/users/" +:+ JS.nullish userId ""
                     else "/users/by/username/" +:+ JS.nullish username "" in
         res ← xFetch this path (Some [("user.fields", USER_FIELDS)]);
         u ← getProp res "data";
         id ← getOpt u "id";
         let field := JsVal.optprop u in
         let metric name :=
           JsVal.nullish (JsVal.optprop (field "public_metrics") name) (JNum 0) in
         Ret (result_object
                [("id", id);
                 ("username", field "username");
                 ("name", field "name");
                 ("bio", Some (JsVal.nullish (field "description") (JStr "")));
                 ("location", Some (JsVal.nullish (field "location") (JStr "")));
                 ("url", Some (JsVal.nullish (field "url") (JStr "")));
                 ("followers", Some (metric "followers_count"));
                 ("following", Some (metric "following_count"));
                 ("tweetCount", Some (metric "tweet_count"));
                 ("verified", Some (JsVal.nullish (field "verified") (JBool false)));
                 ("createdAt", Some (JsVal.nullish (field "created_at") (JStr "")));
                 ("xUrl", Some (JStr ("https://x.com/"
                                      +:+ JsVal.template (field "username"))))]) |}.

Record TimelineArgs := mkTimeline {
  username : string;
  maxResults : option Z;
  excludeReplies : option bool;
  excludeRetweets : option bool
}.

(** The parameters of the second request of [x_get_timeline]. *)
Definition timeline_params (args : TimelineArgs) : list (string * string) :=
  let exclude :=
    (if default false (excludeReplies args) then ["replies"] else [])
    ++ (if default false (excludeRetweets args) then ["retweets"] else []) in
  [("max_results",
    JsVal.string_of_Z (Z.min (Z.max (default 10%Z (maxResults args)) 5) 100));
   ("tweet.fields", "created_at,public_metrics")]
  ++ match exclude with
     | [] => []
     | _ :: _ => [("exclude", JsVal.join "," exclude)]
     end.

(** One entry of [tweets] in the result of [x_get_timeline]. *)
Definition timeline_tweet (username : string) (t : Json) : Prog Json :=
  id ← getProp t "id";
  let metric name :=
    JsVal.nullish (JsVal.optprop (JsVal.prop t "public_metrics") name) (JNum 0) in
  Ret (result_object
         [("id", id);
          ("text", JsVal.prop t "text");
          ("createdAt", Some (JsVal.nullish (JsVal.prop t "created_at") (JStr "")));
          ("likes", Some (metric "like_count"));
          ("retweets", Some (metric "retweet_count"));
          ("replies", Some (metric "reply_count"));
          ("url", Some (JStr ("https://x.com/" +:+ username +:+ "/status/"
                              +:+ JsVal.template id)))]).

(** The [x_get_timeline] entry of [getTools()]. *)
Definition x_get_timeline (this : XPlugin) : PluginTool :=
  {| name := "x_get_timeline";
     description := "Get a user's recent tweets";
     requiresApproval := None;
     Args := TimelineArgs;
     handler := fun args =>
       userRes ← xFetch this ("/users/by/username/" +:+ username args) None;
       user ← getProp userRes "data";
       let userId := JsVal.optprop user "id" in
       if negb (JsVal.truthy userId)
       then Throw (Error ("User not found: " +:+ username args))
       else
         res ← xFetch this ("/users/" +:+ JsVal.template userId +:+ "/tweets")
                 (Some (timeline_params args));
         data ← getProp res "data";
         let count := JsVal.nullish (JsVal.length_of data) (JNum 0) in
         match JsVal.nullish data (JArr []) with
         | JArr items =>
             tweets ← map_each (timeline_tweet (username args)) items;
             Ret (result_object [("username", Some (JStr (username args)));
                                 ("count", Some count);
                                 ("tweets", Some (JArr tweets))])
         | _ => Throw TypeError   (* .map is not a function *)
         end |}.

(** Format tweet fields for output. *)
Definition formatTweet (t : Json) (includes : JsValue) : Prog Json :=
  author ← match JsVal.optprop includes "users" with
           | None | Some JNull => Ret undefined
           | Some (JArr users) =>
               array_find (fun u =>
                             uid ← getProp u "id";
                             author_id ← getProp t "author_id";
                             Ret (JsVal.strict_eq uid author_id)) users
           | Some _ => Throw TypeError   (* users.find is not a function *)
           end;
  id ← getProp t "id";
  let author_id := JsVal.prop t "author_id" in
  Ret (result_object
         [("id", id);
          ("text", JsVal.prop t "text");
          ("author",
           Some (if JsVal.truthy author
                 then result_object [("id", JsVal.optprop author "id");
                                     ("username", JsVal.optprop author "username");
                                     ("name", JsVal.optprop author "name")]
                 else result_object [("id", author_id)]));
          ("createdAt", Some (JsVal.nullish (JsVal.prop t "created_at") (JStr "")));
          ("publicMetrics",
           Some (JsVal.nullish (JsVal.prop t "public_metrics") (JObj [])));
          ("url", Some (JStr (if JsVal.truthy author_id
                              then "https://x.com/i/web/status/" +:+ JsVal.template id
                              else "")))]).

Record SearchArgs := mkSearch {
  query : string;
  search_maxResults : option Z;
  sortOrder : option string
}.

(** The parameters of the request of [x_search]. *)
Definition search_params (args : SearchArgs) : list (string * string) :=
  [("query", query args);
   ("max_results",
    JsVal.string_of_Z (Z.min (Z.max (default 10%Z (search_maxResults args)) 10) 100));
   ("sort_order", default "recency" (sortOrder args));
   ("tweet.fields", "created_at,public_metrics,author_id");
   ("expansions", "author_id");
   ("user.fields", "username,name")].

(** The [x_search] entry of [getTools()]. *)
Definition x_search (this : XPlugin) : PluginTool :=
  {| name := "x_search";
     description :=
       "Search recent tweets on X. Supports operators like from:user, #hashtag, -filter:retweets";
     requiresApproval := None;
     Args := SearchArgs;
     handler := fun args =>
       res ← xFetch this "/tweets/search/recent" (Some (search_params args));
       data ← getProp res "data";
       let count := JsVal.nullish (JsVal.length_of data) (JNum 0) in
       match JsVal.nullish data (JArr []) with
       | JArr items =>
           tweets ← map_each (fun t => formatTweet t (JsVal.prop res "includes"))
                      items;
           Ret (result_object [("count", Some count);
                               ("tweets", Some (JArr tweets))])
       | _ => Throw TypeError   (* .map is not a function *)
       end |}.

End ReadTools.

End X.

(* ===================================================================== *)
(** ** The OAuth 1.0a signer in the specification's words *)
(* ===================================================================== *)

(** The signer as the specification states it, to be compared with
    [X.oauth_signature]: build the parameter set, sort it by key,
    percent-encode each key and value (RFC 3986) and join with [&]; the
    base string is [UPPER(method) & PERCENT(url) & PERCENT(sorted_params)],
    the key is [PERCENT(consumer_secret) & PERCENT(token_secret)] and the
    signature is [BASE64(HMAC_SHA1(key, base))]. *)
Module SignerSpec.

Definition PERCENT : string -> string := Uri.percent_rfc3986.
Definition UPPER : string -> string := JS.toUpperCase.

Definition parameter_set (consumer_key nonce timestamp token : string)
  : list (string * string) :=
  [("oauth_version", "1.0");
   ("oauth_token", token);
   ("oauth_timestamp", timestamp);
   ("oauth_signature_method", "HMAC-SHA1");
   ("oauth_nonce", nonce);
   ("oauth_consumer_key", consumer_key)].

Fixpoint insert_by_key (kv : string * string) (l : list (string * string))
  : list (string * string) :=
  match l with
  | [] => [kv]
  | x :: rest =>
      if String.leb (fst kv) (fst x) then kv :: l
      else x :: insert_by_key kv rest
  end.

Definition sort_by_key (l : list (string * string)) : list (string * string) :=
  fold_right insert_by_key [] l.

Definition sorted_params (ps : list (string * string)) : string :=
  JsVal.join "&"
    (List.map (fun kv => PERCENT (fst kv) +:+ "=" +:+ PERCENT (snd kv))
              (sort_by_key ps)).

Definition base_string (method url : string) (ps : list (string * string))
  : string :=
  UPPER method +:+ "&" +:+ PERCENT url +:+ "&" +:+ PERCENT (sorted_params ps).

Definition signing_key (consumer_secret token_secret : string) : string :=
  PERCENT consumer_secret +:+ "&" +:+ PERCENT token_secret.

Definition signature (method url consumer_key consumer_secret token
                      token_secret nonce timestamp : string) : string :=
  Base64.encode
    (Hmac.sha1 (Bytes.utf8 (signing_key consumer_secret token_secret))
       (Bytes.utf8 (base_string method url
                      (parameter_set consumer_key nonce timestamp token)))).

End SignerSpec.

(* ===================================================================== *)
(** ** Concrete hosts, stores and upstream services *)
(* ===================================================================== *)

Module Scenario.

Definition host : Conductor := mkConductor "/home/alex/.conductor".
Definition dir : string := getConfigDir host.

Definition spotify : Spotify.SpotifyPlugin := Spotify.initialize host.
Definition gmail : Gmail.GmailPlugin := Gmail.initialize host.
Definition gcal : Gcal.GoogleCalendarPlugin := Gcal.initialize host.
Definition n8n : N8n.N8nPlugin := N8n.initialize host.
Definition x : X.XPlugin := X.initialize host.

(** A world that starts with the given store and upstream services. *)
Definition world (st : SecretStore) (srv : Server) : World :=
  mkWorld st srv 1700000000000 (fun i => Z.of_nat i) 0 [].

Definition quoted (s : string) : string := JS.QUOTE +:+ s +:+ JS.QUOTE.

(** A JSON document with one string field. *)
Definition doc (key value : string) : Http.RespBody :=
  Http.JsonDoc ("{" +:+ quoted key +:+ ":" +:+ quoted value +:+ "}")
               (JObj [(key, JStr value)]).

Definition header (name : string) (req : Http.Request) : option string :=
  snd <$> List.find (fun kv => String.eqb (fst kv) name) (Http.headers req).

(** The specification's refresh-on-401 scenario: the store holds
    [{access_token: A, refresh_token: R, client_id: C}]; the API answers
    401 to token [A]; the token endpoint returns [{access_token: B}]; the
    API answers [{ok: true}] to any other token. *)
Definition spotify_store : SecretStore :=
  <[(dir, "spotify", "access_token") := "A"]>
    (<[(dir, "spotify", "refresh_token") := "R"]>
       (<[(dir, "spotify", "client_id") := "C"]> ∅)).

Definition spotify_server : Server := fun _ req =>
  if String.eqb (Http.url req) Spotify.TOKEN_URL then
    Http.Responds (Http.mkResponse 200 "OK" (doc "access_token" "B"))
  else if bool_decide (header "Authorization" req = Some "Bearer A") then
    Http.Responds (Http.mkResponse 401 "Unauthorized"
                     (doc "error" "The access token expired"))
  else
    Http.Responds (Http.mkResponse 200 "OK"
                     (Http.JsonDoc "{ok:true}" (JObj [("ok", JBool true)]))).

Definition spotify_expired : World := world spotify_store spotify_server.

(** The same store when the token endpoint turns the refresh down. *)
Definition spotify_revoked_server : Server := fun _ req =>
  if String.eqb (Http.url req) Spotify.TOKEN_URL then
    Http.Responds (Http.mkResponse 400 "Bad Request" (doc "error" "invalid_grant"))
  else
    Http.Responds (Http.mkResponse 401 "Unauthorized"
                     (doc "error" "The access token expired")).

Definition spotify_revoked : World := world spotify_store spotify_revoked_server.

(** A service that answers every request alike. *)
Definition always (st : Z) (statusText : string) (content : Http.RespBody)
  : Server :=
  fun _ _ => Http.Responds (Http.mkResponse st statusText content).

(** Google credentials, a refresh token among them, with an upstream that
    answers 401. *)
Definition google_store : SecretStore :=
  <[(dir, "google", "access_token") := "G"]>
    (<[(dir, "google", "refresh_token") := "GR"]>
       (<[(dir, "google", "client_id") := "GC"]> ∅)).

Definition google_expired : World :=
  world google_store (always 401 "Unauthorized" (doc "error" "invalid_token")).

Definition google_no_content : World :=
  world google_store (always 204 "No Content" Http.EmptyBody).

Definition n8n_store : SecretStore :=
  <[(dir, "n8n", "api_key") := "K"]>
    (<[(dir, "n8n", "base_url") := "https://n8n.example.com/"]> ∅).

Definition n8n_no_content : World :=
  world n8n_store (always 204 "No Content" Http.EmptyBody).

Definition n8n_accepted : World :=
  world n8n_store (always 202 "Accepted" Http.EmptyBody).

Definition spotify_accepted : World :=
  world spotify_store (always 202 "Accepted" Http.EmptyBody).

(** X write credentials, and an upstream that fails the first request
    with a 503 and accepts every later one. *)
Definition x_creds : X.OAuthCreds :=
  X.mkCreds "consumer-key" "consumer-secret" "user-token" "user-secret".

Definition x_store : SecretStore :=
  <[(dir, "x", "api_key") := X.apiKey x_creds]>
    (<[(dir, "x", "api_secret") := X.apiSecret x_creds]>
       (<[(dir, "x", "access_token") := X.accessToken x_creds]>
          (<[(dir, "x", "access_secret") := X.accessSecret x_creds]> ∅))).

Definition unavailable : Http.Response :=
  Http.mkResponse 503 "Service Unavailable" Http.EmptyBody.

Definition flaky_server : Server := fun history _ =>
  match history with
  | [] => Http.Responds unavailable
  | _ :: _ =>
      Http.Responds
        (Http.mkResponse 201 "Created"
           (Http.JsonDoc "{data:{id:1}}"
              (JObj [("data", JObj [("id", JStr "1"); ("text", JStr "hi")])])))
  end.

Definition x_flaky : World := world x_store flaky_server.

Definition retry_thrice : Shared.RetryPolicy := Shared.mkPolicy 3 1000.

(** The client and token credentials of the example in RFC 5849, section
    1.2, and the nonce that goes with them in the OAuth examples. *)
Definition rfc5849_creds : X.OAuthCreds :=
  X.mkCreds "dpf43f3p2l4k3l03" "kd94hf93k423kf44"
            "nnch734d00sl2jdk" "pfkkdhi9sl3r4s00".
Definition example_nonce : string := "kllo9940pd9333jh".
Definition example_timestamp : string := "1318622958".
Definition example_url : string := "https://api.example.com/1/r".

(** Two calls in flight together against the expired token: each sends
    its request and sees the 401 before either refreshes, and the second
    reaches the token endpoint while the first has not yet stored its
    new token. *)
Definition interleaved : list nat :=
  [0; 0; 1; 1; 0; 0; 0; 1; 1; 1; 0; 0; 0; 1; 1; 1]%nat.

Definition me : Prog Json :=
  Spotify.spotifyFetch 2 spotify "/me" Spotify.no_options true.

Definition two_calls : list (Prog Json) * World :=
  run_pool interleaved [me; me] spotify_expired.

(** A host on which nothing was configured. *)
Definition signed_out : World :=
  world ∅ (always 200 "OK" (doc "ok" "true")).

(** X with the consumer credentials only. *)
Definition x_half_configured : World :=
  world (<[(dir, "x", "api_key") := "consumer-key"]>
           (<[(dir, "x", "api_secret") := "consumer-secret"]> ∅))
        (always 200 "OK" (doc "ok" "true")).

(** An n8n instance whose history holds one failed execution. *)
Definition failed_execution : Json :=
  JObj [("id", JStr "7"); ("workflowId", JStr "3"); ("status", JStr "error");
        ("finished", JBool false); ("mode", JStr "trigger")].

Definition n8n_history : World :=
  world n8n_store
    (always 200 "OK"
       (Http.JsonDoc "{data:[{id:7,workflowId:3,status:error,finished:false,mode:trigger}]}"
          (JObj [("data", JArr [failed_execution])]))).

(** An [elapsed] for stored values that are not dates. *)
Definition no_dates : Json -> Json -> string := fun _ _ => "NaN".

(** An error reply whose body is the JSON literal [null]. *)
Definition null_error : Http.Response :=
  Http.mkResponse 500 "Internal Server Error" (Http.JsonDoc "null" JNull).

(** The spotify and n8n credentials with services that fail so. *)
Definition failing_services : World :=
  world (<[(dir, "n8n", "api_key") := "K"]> spotify_store)
        (fun _ _ => Http.Responds null_error).

(** A workflow made of the standard webhook node. *)
Definition webhook_node : Json :=
  JObj [("name", JStr "Webhook");
        ("type", JStr "n8n-nodes-base.webhook");
        ("parameters", JObj [("path", JStr "my-hook")])].

Definition webhook_workflow : Json :=
  JObj [("id", JStr "3"); ("name", JStr "Hook"); ("nodes", JArr [webhook_node])].

Definition n8n_webhook_instance : World :=
  world n8n_store
    (always 200 "OK" (Http.JsonDoc "{id:3,name:Hook,nodes:[...]}" webhook_workflow)).

(** Responses without a [content-type] header. *)
Definition no_content_type : Http.Response -> option string := fun _ => None.

(** An n8n instance whose executions never finish. *)
Definition n8n_never_finishes : World :=
  world n8n_store
    (always 200 "OK"
       (Http.JsonDoc "{data:{executionId:9}}"
          (JObj [("data", JObj [("executionId", JNum 9)])]))).

(** An n8n instance whose list of credentials carries a secret. *)
Definition stored_credential : Json :=
  JObj [("id", JStr "1"); ("name", JStr "db"); ("type", JStr "postgres");
        ("data", JObj [("password", JStr "hunter2")])].

Definition n8n_vault : World :=
  world n8n_store
    (always 200 "OK"
       (Http.JsonDoc "{data:[{id:1,name:db,type:postgres,data:{password:hunter2}}]}"
          (JObj [("data", JArr [stored_credential])]))).

(** X with a bearer token, and a search that finds two tweets, the
    author of the first among the users. *)
Definition x_reader_store : SecretStore :=
  <[(dir, "x", "bearer_token") := "bearer-token"]> ∅.

Definition two_tweets : Json :=
  JObj [("data",
         JArr [JObj [("id", JStr "1"); ("text", JStr "hello");
                     ("author_id", JStr "7")];
               JObj [("id", JStr "2"); ("text", JStr "again")]]);
        ("includes",
         JObj [("users",
                JArr [JObj [("id", JStr "7"); ("username", JStr "alex");
                            ("name", JStr "Alex")]])])].

Definition x_search_results : World :=
  world x_reader_store
    (always 200 "OK" (Http.JsonDoc "{data:[...],includes:{users:[...]}}" two_tweets)).

End Scenario.

(* ===================================================================== *)
(** ** Facts about the string helpers *)
(* ===================================================================== *)

Section StringFacts.

Lemma append_nil_l (s : string) : "" +:+ s = s.
Proof. reflexivity. Qed.

Lemma append_cons (c : ascii) (a b : string) :
  String c a +:+ b = String c (a +:+ b).
Proof. reflexivity. Qed.

Lemma append_nil_r (s : string) : s +:+ "" = s.
Proof.
  induction s as [|c s IH]; [reflexivity|].
  now rewrite append_cons, IH.
Qed.

Lemma append_assoc (a b c : string) : (a +:+ b) +:+ c = a +:+ (b +:+ c).
Proof.
  induction a as [|x a IH]; [reflexivity|].
  now rewrite !append_cons, IH.
Qed.

Lemma append_length (a b : string) :
  String.length (a +:+ b) = String.length a + String.length b.
Proof.
  induction a as [|x a IH]; [reflexivity|].
  rewrite append_cons. simpl. now rewrite IH.
Qed.

(** Cancellation of a common suffix. *)
Lemma append_inv_tail (a b t : string) : a +:+ t = b +:+ t -> a = b.
Proof.
  revert b. induction a as [|x a IH]; intros [|y b] H.
  - reflexivity.
  - apply (f_equal String.length) in H.
    rewrite append_nil_l, append_cons in H. simpl in H.
    rewrite append_length in H. lia.
  - apply (f_equal String.length) in H.
    rewrite append_nil_l, append_cons in H. simpl in H.
    rewrite append_length in H. lia.
  - rewrite !append_cons in H. injection H as -> H. f_equal. now apply IH.
Qed.

Lemma endsWith_nil (suf : string) :
  JS.endsWith "" suf = String.eqb "" suf || false.
Proof. reflexivity. Qed.

Lemma endsWith_cons (c : ascii) (s suf : string) :
  JS.endsWith (String c s) suf
  = String.eqb (String c s) suf || JS.endsWith s suf.
Proof. reflexivity. Qed.

Lemma endsWith_spec (s suf : string) :
  JS.endsWith s suf = true <-> exists p, s = p +:+ suf.
Proof.
  induction s as [|c s IH].
  - rewrite endsWith_nil, orb_false_r, String.eqb_eq. split.
    + intros <-. now exists "".
    + intros [[|x p] H]; [now rewrite append_nil_l in H|].
      rewrite append_cons in H. discriminate.
  - rewrite endsWith_cons, orb_true_iff, String.eqb_eq, IH. split.
    + intros [<- | [p ->]]; [now exists "" | now exists (String c p)].
    + intros [[|x p] H]; [left; now rewrite append_nil_l in H | right].
      rewrite append_cons in H. injection H as _ ->. now exists p.
Qed.

Lemma endsWith_refl (s : string) : JS.endsWith s s = true.
Proof. apply endsWith_spec. now exists "". Qed.

Lemma endsWith_app (p suf : string) : JS.endsWith (p +:+ suf) suf = true.
Proof. apply endsWith_spec. now exists p. Qed.

Lemma strip_trailing_slash_app (p : string) :
  JS.strip_trailing_slash (p +:+ "/") = p.
Proof.
  induction p as [|c p IH]; [reflexivity|].
  rewrite append_cons. simpl. rewrite IH.
  destruct (String.eqb (p +:+ "/") "") eqn:E; [|reflexivity].
  apply String.eqb_eq in E. destruct p; discriminate.
Qed.

Lemma strip_trailing_slash_id (s : string) :
  JS.endsWith s "/" = false -> JS.strip_trailing_slash s = s.
Proof.
  induction s as [|c s IH]; [reflexivity|].
  rewrite endsWith_cons. intros H. apply orb_false_iff in H as [H1 H2].
  simpl. rewrite (IH H2).
  destruct (String.eqb s "") eqn:E; simpl; [|reflexivity].
  apply String.eqb_eq in E. subst s.
  destruct (Ascii.eqb c "/"%char) eqn:Ec; [|reflexivity].
  apply Ascii.eqb_eq in Ec. subst c. discriminate.
Qed.

(** Either one trailing slash is removed or the string is unchanged. *)
Lemma strip_trailing_slash_cases (s : string) :
  (s = JS.strip_trailing_slash s +:+ "/")
  \/ (JS.endsWith s "/" = false /\ JS.strip_trailing_slash s = s).
Proof.
  destruct (JS.endsWith s "/") eqn:E.
  - left. apply endsWith_spec in E as [p ->].
    now rewrite strip_trailing_slash_app.
  - right. split; [reflexivity | now apply strip_trailing_slash_id].
Qed.

(** Whether [p +:+ suf] ends with a string no longer than [suf] is
    decided by [suf] alone. *)
Lemma endsWith_app_suffix (p suf t : string) :
  String.length t <= String.length suf ->
  JS.endsWith (p +:+ suf) t = JS.endsWith suf t.
Proof.
  intros Hlen. induction p as [|c p IH]; [reflexivity|].
  rewrite append_cons, endsWith_cons, IH.
  destruct (String.eqb (String c (p +:+ suf)) t) eqn:E; [|reflexivity].
  apply String.eqb_eq in E. apply (f_equal String.length) in E.
  simpl in E. rewrite append_length in E. lia.
Qed.

End StringFacts.

(* ===================================================================== *)
(** ** Facts about running programs *)
(* ===================================================================== *)

Section RunFacts.
Context {A B : Type}.

Lemma run_bind (m : Prog A) (f : A -> Prog B) (w : World) :
  run (m ≫= f) w =
  match run m w with
  | (Returned a, w') => run (f a) w'
  | (Thrown e, w') => (Thrown e, w')
  end.
Proof. revert w. induction m; intros w; simpl; auto. Qed.

Lemma run_catch (m : Prog A) (h : JsError -> Prog A) (w : World) :
  run (catch m h) w =
  match run m w with
  | (Returned a, w') => (Returned a, w')
  | (Thrown e, w') => run (h e) w'
  end.
Proof. revert w. induction m; intros w; simpl; auto. Qed.
End RunFacts.

Section PureFacts.
Context {A B : Type}.

Lemma pure_ret (a : A) : pure (Ret a).
Proof. now exists (Returned a). Qed.

Lemma pure_throw (e : JsError) : pure (@Throw A e).
Proof. now exists (Thrown e). Qed.

Lemma pure_bind (m : Prog A) (f : A -> Prog B) :
  pure m -> (forall a, pure (f a)) -> pure (m ≫= f).
Proof.
  intros [o Ho] Hf. destruct o as [a|e].
  - destruct (Hf a) as [o' Ho']. exists o'. intros w.
    now rewrite run_bind, Ho, Ho'.
  - exists (Thrown e). intros w. now rewrite run_bind, Ho.
Qed.

Lemma pure_catch (m : Prog A) (h : JsError -> Prog A) :
  pure m -> (forall e, pure (h e)) -> pure (catch m h).
Proof.
  intros [o Ho] Hh. destruct o as [a|e].
  - exists (Returned a). intros w. now rewrite run_catch, Ho.
  - destruct (Hh e) as [o' Ho']. exists o'. intros w.
    now rewrite run_catch, Ho, Ho'.
Qed.
End PureFacts.

Section SettledFacts.

Lemma finished_bind {A B : Type} (m : Prog A) (f : A -> Prog B) :
  finished m = true -> (forall a, finished (f a) = true) ->
  finished (m ≫= f) = true.
Proof.
  unfold mbind, prog_bind. destruct m; try discriminate; intros _ Hf;
    [apply Hf | reflexivity].
Qed.

Lemma finished_catch {A : Type} (m : Prog A) (h : JsError -> Prog A) :
  finished m = true -> (forall e, finished (h e) = true) ->
  finished (catch m h) = true.
Proof.
  destruct m; try discriminate; intros _ Hh; [reflexivity | apply Hh].
Qed.

Lemma finished_json res : finished (json res) = true.
Proof. unfold json. now destruct (Http.content res). Qed.

Lemma finished_getProp v name : finished (getProp v name) = true.
Proof. now destruct v. Qed.

End SettledFacts.

Lemma pure_json (res : Http.Response) : pure (json res).
Proof. unfold json. destruct (Http.content res); auto using pure_ret, pure_throw. Qed.

Lemma pure_getProp (v : Json) (name : string) : pure (getProp v name).
Proof. destruct v; simpl; auto using pure_ret, pure_throw. Qed.

Create HintDb pure.
#[local] Hint Resolve pure_ret pure_throw pure_json pure_getProp : pure.

Lemma run_keychain_get (kc : Keychain.t) (s k : string) (w : World) :
  run (Keychain.get kc s k) w
  = (Returned (store w !! (Keychain.configDir kc, s, k)),
     record (EvKeychainGet (Keychain.configDir kc) s k
               (store w !! (Keychain.configDir kc, s, k))) w).
Proof. reflexivity. Qed.

Lemma run_keychain_set (kc : Keychain.t) (s k v : string) (w : World) :
  run (Keychain.set kc s k v) w
  = (Returned tt,
     record (EvKeychainSet (Keychain.configDir kc) s k v)
       (set_store (<[(Keychain.configDir kc, s, k) := v]> (store w)) w)).
Proof. reflexivity. Qed.

Lemma run_fetch (req : Http.Request) (w : World) :
  run (fetch req) w
  = (match server w (requests (trace w)) req with
     | Http.Responds r => Returned r
     | Http.NetworkFailure => Thrown NetworkError
     end,
     record (EvFetch req (server w (requests (trace w)) req)) w).
Proof.
  unfold fetch. simpl. now destruct (server w (requests (trace w)) req).
Qed.


Section WorldFacts.
Context {A : Type}.

(** A run only appends to the trace, and leaves the server alone. *)
Lemma run_extends (p : Prog A) (w : World) :
  server (snd (run p w)) = server w
  /\ exists evs, trace (snd (run p w)) = trace w ++ evs.
Proof.
  revert w.
  induction p as [a|e|d s k c IH|d s k v c IH|req c IH|ms c IH|n c IH|c IH];
    intros w; simpl.
  - split; [reflexivity|]. exists []. now rewrite app_nil_r.
  - split; [reflexivity|]. exists []. now rewrite app_nil_r.
  - edestruct IH as [S [evs E]]. rewrite S, E. simpl.
    rewrite <- app_assoc. eauto.
  - edestruct IH as [S [evs E]]. rewrite S, E. simpl.
    rewrite <- app_assoc. eauto.
  - edestruct IH as [S [evs E]]. rewrite S, E. simpl.
    rewrite <- app_assoc. eauto.
  - edestruct IH as [S [evs E]]. rewrite S, E. simpl.
    rewrite <- app_assoc. eauto.
  - edestruct IH as [S [evs E]]. rewrite S, E. simpl. eauto.
  - apply IH.
Qed.
End WorldFacts.

Lemma requests_app (a b : list Event) :
  requests (a ++ b) = requests a ++ requests b.
Proof. unfold requests. apply omap_app. Qed.

(** What the key chain keeps is never the empty string. *)
Lemma kept_nonempty (v : JsValue) (s : string) :
  JsVal.kept v = Some s -> s <> "".
Proof.
  unfold JsVal.kept.
  destruct (JsVal.truthy v); cbn [andb]; [|discriminate].
  destruct (String.eqb (JsVal.template v) "") eqn:E; cbn [negb]; [discriminate|].
  intros [= <-]. now apply String.eqb_neq.
Qed.

(** A string that is not empty is kept as it is. *)
Lemma kept_string (s : string) :
  s <> "" -> JsVal.kept (Some (JStr s)) = Some s.
Proof.
  intros H. apply String.eqb_neq in H. unfold JsVal.kept.
  cbn [JsVal.truthy JsVal.template JsVal.toString]. now rewrite H.
Qed.

Section SpotifyFacts.
Variable this : Spotify.SpotifyPlugin.
Let dir := Keychain.configDir (Spotify.keychain this).

Lemma pure_respond res : pure (Spotify.respond res).
Proof.
  unfold Spotify.respond.
  destruct (_ || _); [auto with pure|].
  destruct (negb _); [|auto with pure].
  apply pure_bind; [apply pure_catch; auto with pure|].
  intros err. apply pure_bind; auto with pure.
Qed.

Lemma spotifyFetch_unfold d path options retry :
  Spotify.spotifyFetch (S d) this path options retry =
  (token ← Spotify.getToken this;
   res ← fetch (Spotify.api_request token path options);
   if (Http.status res =? 401)%Z && retry then
     newToken ← Spotify.refreshToken this;
     if JS.truthy newToken
     then Spotify.spotifyFetch d this path options false
     else Throw (Error Spotify.REFRESH_FAILED)
   else Spotify.respond res).
Proof. reflexivity. Qed.

Lemma run_getToken w :
  run (Spotify.getToken this) w
  = (match store w !! (dir, "spotify", "access_token") with
     | Some t => if String.eqb t "" then Thrown (Error Spotify.NOT_AUTHENTICATED)
                 else Returned t
     | None => Thrown (Error Spotify.NOT_AUTHENTICATED)
     end,
     record (EvKeychainGet dir "spotify" "access_token"
               (store w !! (dir, "spotify", "access_token"))) w).
Proof.
  unfold Spotify.getToken. rewrite run_bind, run_keychain_get. fold dir.
  destruct (store w !! _) as [t|]; [|reflexivity].
  now destruct (String.eqb t "").
Qed.

Local Abbreviation stored := (Spotify.stored this).

Lemma run_refreshToken w :
  run (Spotify.refreshToken this) w =
  let rt := store w !! (dir, "spotify", "refresh_token") in
  let cid := store w !! (dir, "spotify", "client_id") in
  let w2 := record (EvKeychainGet dir "spotify" "client_id" cid)
              (record (EvKeychainGet dir "spotify" "refresh_token" rt) w) in
  if JS.truthy rt && JS.truthy cid then
    let req := Spotify.token_request (JS.nullish rt "") (JS.nullish cid "") in
    let reply := server w (requests (trace w2)) req in
    let w3 := record (EvFetch req reply) w2 in
    match reply with
    | Http.NetworkFailure => (Thrown NetworkError, w3)
    | Http.Responds res =>
        if negb (Http.ok res) then (Returned None, w3) else
        match Http.content res with
        | Http.JsonDoc _ JNull => (Thrown TypeError, w3)
        | Http.JsonDoc _ data =>
            match JsVal.kept (JsVal.prop data "access_token") with
            | Some access =>
                (Returned (Some access),
                 stored access
                   (JsVal.kept (JsVal.prop data "refresh_token")) w3)
            | None => (Returned None, w3)
            end
        | _ => (Thrown SyntaxError, w3)
        end
    end
  else (Returned None, w2).
Proof.
  unfold Spotify.refreshToken.
  rewrite run_bind, run_keychain_get. fold dir.
  rewrite run_bind, run_keychain_get. fold dir. cbn [store record].
  destruct (store w !! (dir, "spotify", "refresh_token")) as [rt|];
    [|now destruct (store w !! (dir, "spotify", "client_id"))].
  destruct (store w !! (dir, "spotify", "client_id")) as [cid|];
    [|cbn; now rewrite andb_false_r].
  cbn [JS.truthy JS.nullish].
  destruct (String.eqb rt ""); [reflexivity|].
  destruct (String.eqb cid ""); [reflexivity|]. cbn [orb negb andb].
  rewrite run_bind, run_fetch. cbn [server trace record].
  destruct (server w _ _) as [res|]; [|reflexivity].
  destruct (negb (Http.ok res)); [reflexivity|].
  rewrite run_bind. unfold json.
  destruct (Http.content res) as [|src data|]; try reflexivity.
  destruct data; try reflexivity;
    cbn; destruct (JsVal.kept _); try reflexivity;
    cbn; destruct (JsVal.kept _); reflexivity.
Qed.


Section OneCall.
Variables (path : string) (options : Spotify.FetchOptions).

(** The call without a retry budget, for a stored token: one read of
    the token, one request carrying it, and the reply settles the
    call. *)
Lemma run_spotifyFetch_once d retry w B :
  store w !! (dir, "spotify", "access_token") = Some B -> B <> "" ->
  let req := Spotify.api_request B path options in
  let reply := server w (requests (trace w)) req in
  let w2 := record (EvFetch req reply)
              (record (EvKeychainGet dir "spotify" "access_token" (Some B)) w) in
  (forall res, reply = Http.Responds res ->
               (Http.status res =? 401)%Z && retry = false) ->
  run (Spotify.spotifyFetch (S d) this path options retry) w
  = match reply with
    | Http.NetworkFailure => (Thrown NetworkError, w2)
    | Http.Responds res => run (Spotify.respond res) w2
    end.
Proof.
  intros HB HBne req reply w2 Hno.
  rewrite spotifyFetch_unfold, run_bind, run_getToken, HB.
  apply String.eqb_neq in HBne. rewrite HBne.
  rewrite run_bind, run_fetch. cbn [server record trace].
  rewrite requests_app. cbn [requests omap]. rewrite app_nil_r.
  fold req. fold reply. fold w2.
  destruct reply as [res|] eqn:E; [|reflexivity].
  now rewrite (Hno res eq_refl).
Qed.

Variables (w : World) (A : string) (r1 : Http.Response).
Hypothesis token_stored :
  store w !! (dir, "spotify", "access_token") = Some A.
Hypothesis token_nonempty : A <> "".
Hypothesis first_reply :
  server w (requests (trace w)) (Spotify.api_request A path options)
  = Http.Responds r1.
Hypothesis unauthorized : Http.status r1 = 401%Z.

Local Abbreviation after_401 := (Spotify.after_401 this path options w A r1).

Lemma run_spotifyFetch_401 d :
  run (Spotify.spotifyFetch (S d) this path options true) w =
  match run (Spotify.refreshToken this) after_401 with
  | (Returned newToken, w2) =>
      if JS.truthy newToken
      then run (Spotify.spotifyFetch d this path options false) w2
      else (Thrown (Error Spotify.REFRESH_FAILED), w2)
  | (Thrown e, w2) => (Thrown e, w2)
  end.
Proof.
  rewrite spotifyFetch_unfold, run_bind, run_getToken, token_stored.
  pose proof token_nonempty as Hne. apply String.eqb_neq in Hne. rewrite Hne.
  rewrite run_bind, run_fetch. cbn [server record trace].
  rewrite requests_app. cbn [requests omap]. rewrite app_nil_r, first_reply.
  rewrite unauthorized. cbn [Z.eqb Pos.eqb andb].
  rewrite run_bind. fold dir.
  change (record _ (record _ w)) with after_401.
  destruct (run (Spotify.refreshToken this) after_401) as [[newToken|e] w2];
    [|reflexivity].
  destruct (JS.truthy newToken); reflexivity.
Qed.


(** A refresh that yields a token has stored it last, or last but for
    the rotated refresh token. *)
Lemma refreshToken_success w1 B w2 :
  run (Spotify.refreshToken this) w1 = (Returned (Some B), w2) ->
  B <> ""
  /\ store w2 !! (dir, "spotify", "access_token") = Some B
  /\ server w2 = server w1
  /\ exists R C rt rotated,
       trace w2 = trace w1
         ++ [EvKeychainGet dir "spotify" "refresh_token" (Some R);
             EvKeychainGet dir "spotify" "client_id" (Some C);
             EvFetch (Spotify.token_request R C) (Http.Responds rt);
             EvKeychainSet dir "spotify" "access_token" B]
         ++ rotated
       /\ (rotated = []
           \/ exists R', rotated = [EvKeychainSet dir "spotify" "refresh_token" R']).
Proof.
  rewrite run_refreshToken. cbv zeta.
  destruct (store w1 !! (dir, "spotify", "refresh_token")) as [R|]; [|discriminate].
  destruct (store w1 !! (dir, "spotify", "client_id")) as [C|];
    [|cbn; rewrite andb_false_r; discriminate].
  destruct (JS.truthy (Some R) && JS.truthy (Some C)); [|discriminate].
  cbn [JS.nullish].
  destruct (server w1 _ _) as [rt|]; [|discriminate].
  destruct (negb (Http.ok rt)); [discriminate|].
  destruct (Http.content rt) as [|src data|]; try discriminate.
  assert (Hdata :
    match JsVal.kept (JsVal.prop data "access_token") with
    | Some access =>
        (Returned (Some access),
         stored access (JsVal.kept (JsVal.prop data "refresh_token"))
           (record (EvFetch (Spotify.token_request R C) (Http.Responds rt))
              (record (EvKeychainGet dir "spotify" "client_id" (Some C))
                 (record (EvKeychainGet dir "spotify" "refresh_token" (Some R))
                    w1))))
    | None =>
        (Returned None,
         record (EvFetch (Spotify.token_request R C) (Http.Responds rt))
           (record (EvKeychainGet dir "spotify" "client_id" (Some C))
              (record (EvKeychainGet dir "spotify" "refresh_token" (Some R))
                 w1)))
    end = (Returned (Some B), w2) ->
    B <> ""
    /\ store w2 !! (dir, "spotify", "access_token") = Some B
    /\ server w2 = server w1
    /\ exists R0 C0 rt0 rotated,
         trace w2 = trace w1
           ++ [EvKeychainGet dir "spotify" "refresh_token" (Some R0);
               EvKeychainGet dir "spotify" "client_id" (Some C0);
               EvFetch (Spotify.token_request R0 C0) (Http.Responds rt0);
               EvKeychainSet dir "spotify" "access_token" B]
           ++ rotated
         /\ (rotated = []
             \/ exists R', rotated = [EvKeychainSet dir "spotify" "refresh_token" R'])).
  { destruct (JsVal.kept (JsVal.prop data "access_token"))
      as [access|] eqn:Hacc; [|discriminate].
    intros [= -> <-]. split; [now apply (kept_nonempty _ _ Hacc)|].
    unfold Spotify.stored.
    destruct (JsVal.kept (JsVal.prop data "refresh_token"))
      as [rot|]; cbn [store trace server record set_store].
    - rewrite lookup_insert_ne by congruence. rewrite lookup_insert_eq.
      do 2 (split; [reflexivity|]).
      exists R, C, rt, [EvKeychainSet dir "spotify" "refresh_token" rot].
      split; [now rewrite <- !app_assoc | eauto].
    - rewrite lookup_insert_eq. do 2 (split; [reflexivity|]).
      exists R, C, rt, []. split; [now rewrite <- !app_assoc | eauto]. }
  destruct data; try discriminate; exact Hdata.
Qed.


(** Whatever its outcome, a refresh reads the refresh token once,
    sends at most one request, to the token endpoint, and none to the
    API. *)
Lemma refreshToken_events w1 :
  exists evs,
    trace (snd (run (Spotify.refreshToken this) w1)) = trace w1 ++ evs
    /\ Observe.refresh_attempts evs = 1
    /\ Observe.calls_to Spotify.SPOTIFY_BASE evs = []
    /\ length (Observe.calls_to Spotify.TOKEN_URL evs) <= 1.
Proof.
  rewrite run_refreshToken. cbv zeta.
  destruct (JS.truthy _ && JS.truthy _).
  2: { eexists. cbn. rewrite <- app_assoc. split; [reflexivity|].
       repeat split; first [reflexivity | cbn; lia]. }
  destruct (server w1 _ _) as [rt|].
  2: { eexists. cbn. rewrite <- !app_assoc. split; [reflexivity|].
       repeat split; first [reflexivity | cbn; lia]. }
  assert (Hthree :
    exists evs,
      trace (record (EvFetch (Spotify.token_request
               (JS.nullish (store w1 !! (dir, "spotify", "refresh_token")) "")
               (JS.nullish (store w1 !! (dir, "spotify", "client_id")) ""))
               (Http.Responds rt))
             (record (EvKeychainGet dir "spotify" "client_id"
                        (store w1 !! (dir, "spotify", "client_id")))
                (record (EvKeychainGet dir "spotify" "refresh_token"
                           (store w1 !! (dir, "spotify", "refresh_token"))) w1)))
      = trace w1 ++ evs
      /\ Observe.refresh_attempts evs = 1
      /\ Observe.calls_to Spotify.SPOTIFY_BASE evs = []
      /\ length (Observe.calls_to Spotify.TOKEN_URL evs) <= 1).
  { eexists. cbn. rewrite <- !app_assoc. split; [reflexivity|].
    repeat split; first [reflexivity | cbn; lia]. }
  destruct (negb (Http.ok rt)); [exact Hthree|].
  destruct (Http.content rt) as [|src data|]; try exact Hthree.
  destruct data as [| | | | |fields]; cbn [JsVal.prop JsVal.kept];
    try exact Hthree.
  destruct (JsVal.kept (JsVal.lookup "access_token" fields));
    [|exact Hthree].
  unfold Spotify.stored.
  destruct (JsVal.kept (JsVal.lookup "refresh_token" fields));
    eexists; cbn; rewrite <- !app_assoc; (split; [reflexivity|]);
    repeat split; first [reflexivity | cbn; lia].
Qed.


Lemma calls_to_app base (a b : list Event) :
  Observe.calls_to base (a ++ b)
  = Observe.calls_to base a ++ Observe.calls_to base b.
Proof. unfold Observe.calls_to. now rewrite requests_app, List.filter_app. Qed.

Lemma refresh_attempts_app (a b : list Event) :
  Observe.refresh_attempts (a ++ b)
  = Observe.refresh_attempts a + Observe.refresh_attempts b.
Proof.
  unfold Observe.refresh_attempts. now rewrite List.filter_app, length_app.
Qed.

(** The retried call: it reads the stored token and sends one request
    with it; its reply settles the call. *)
Lemma spotifyFetch_retry_events d w2 B :
  store w2 !! (dir, "spotify", "access_token") = Some B -> B <> "" ->
  trace (snd (run (Spotify.spotifyFetch (S d) this path options false) w2))
  = trace w2
    ++ [EvKeychainGet dir "spotify" "access_token" (Some B);
        EvFetch (Spotify.api_request B path options)
          (server w2 (requests (trace w2)) (Spotify.api_request B path options))].
Proof.
  intros HB HBne.
  rewrite (run_spotifyFetch_once d false w2 B HB HBne)
    by (intros; apply andb_false_r).
  destruct (server w2 _ _) as [res|] eqn:E; cbn.
  - destruct (pure_respond res) as [o Ho]. rewrite Ho. cbn.
    now rewrite <- app_assoc.
  - now rewrite <- app_assoc.
Qed.

Lemma trace_after_401 :
  trace after_401
  = trace w ++ [EvKeychainGet dir "spotify" "access_token" (Some A);
                EvFetch (Spotify.api_request A path options) (Http.Responds r1)].
Proof. unfold Spotify.after_401. cbn. now rewrite <- app_assoc. Qed.

Lemma api_call_counts B reply :
  let evs := [EvKeychainGet dir "spotify" "access_token" (Some B);
              EvFetch (Spotify.api_request B path options) reply] in
  Observe.refresh_attempts evs = 0
  /\ Observe.calls_to Spotify.TOKEN_URL evs = []
  /\ Observe.calls_to Spotify.SPOTIFY_BASE evs
     = [Spotify.api_request B path options].
Proof. repeat split; reflexivity. Qed.


End OneCall.

End SpotifyFacts.

Section OneCallOutcome.
Variable this : Spotify.SpotifyPlugin.
Let dir := Keychain.configDir (Spotify.keychain this).
Variables (path : string) (options : Spotify.FetchOptions).
Variables (w : World) (A : string) (r1 : Http.Response).
Hypothesis token_stored :
  store w !! (dir, "spotify", "access_token") = Some A.
Hypothesis token_nonempty : A <> "".
Hypothesis first_reply :
  server w (requests (trace w)) (Spotify.api_request A path options)
  = Http.Responds r1.
Hypothesis unauthorized : Http.status r1 = 401%Z.

Local Abbreviation after_401 := (Spotify.after_401 this path options w A r1).

(** Refresh on 401: the trace of the call and what settles it. *)
Lemma spotifyFetch_401_outcome d :
  let call := Spotify.spotifyFetch (S (S d)) this path options true in
  exists evs,
    trace (snd (run call w)) = trace w ++ evs
    /\ Observe.refresh_attempts evs = 1
    /\ length (Observe.calls_to Spotify.TOKEN_URL evs) <= 1
    /\ match fst (run (Spotify.refreshToken this) after_401) with
       | Returned (Some B) =>
           exists before reply2,
             evs = before
                   ++ [EvKeychainGet dir "spotify" "access_token" (Some B);
                       EvFetch (Spotify.api_request B path options) reply2]
             /\ Observe.calls_to Spotify.SPOTIFY_BASE evs
                = [Spotify.api_request A path options;
                   Spotify.api_request B path options]
             /\ fst (run call w)
                = match reply2 with
                  | Http.Responds r2 => fst (run (Spotify.respond r2) w)
                  | Http.NetworkFailure => Thrown NetworkError
                  end
       | Returned None =>
           fst (run call w) = Thrown (Error Spotify.REFRESH_FAILED)
           /\ Observe.calls_to Spotify.SPOTIFY_BASE evs
              = [Spotify.api_request A path options]
       | Thrown e =>
           fst (run call w) = Thrown e
           /\ Observe.calls_to Spotify.SPOTIFY_BASE evs
              = [Spotify.api_request A path options]
       end.
Proof.
  intros call. unfold call.
  rewrite (run_spotifyFetch_401 this path options w A r1
             token_stored token_nonempty first_reply unauthorized).
  destruct (refreshToken_events this after_401) as (evs & Htr & Hatt & Hapi & Htok).
  destruct (run (Spotify.refreshToken this) after_401) as [[newToken|e] w2] eqn:E;
    cbn [fst snd] in *.
  - destruct newToken as [B|]; cbn [JS.truthy].
    + destruct (refreshToken_success this _ _ _ E) as (HBne & HB & _).
      pose proof HBne as Hb. apply String.eqb_neq in Hb. rewrite Hb. cbn [negb].
      pose proof (spotifyFetch_retry_events this path options d w2 B HB HBne) as Hretry.
      pose proof (run_spotifyFetch_once this path options d false w2 B HB HBne) as Honce.
      cbv zeta in Honce. rewrite Honce in * by (intros; apply andb_false_r).
      clear Honce.
      set (reply2 := server w2 (requests (trace w2)) (Spotify.api_request B path options)) in *.
      rewrite Hretry, Htr, (trace_after_401 this path options w A r1).
      rewrite <- !app_assoc. eexists. split; [reflexivity|].
      rewrite !refresh_attempts_app, !calls_to_app, Hapi, !length_app.
      destruct (api_call_counts this path options A (Http.Responds r1)) as (-> & -> & ->).
      destruct (api_call_counts this path options B reply2) as (-> & -> & ->).
      cbn [length]. repeat split; try lia.
      exists ([EvKeychainGet dir "spotify" "access_token" (Some A);
               EvFetch (Spotify.api_request A path options) (Http.Responds r1)]
              ++ evs), reply2.
      split; [now rewrite <- !app_assoc|]. split; [reflexivity|].
      destruct reply2 as [r2|]; [|reflexivity].
      destruct (pure_respond r2) as [o Ho]. now rewrite !Ho.
    + cbn [snd fst]. rewrite Htr, (trace_after_401 this path options w A r1), <- !app_assoc.
      eexists. split; [reflexivity|].
      rewrite !refresh_attempts_app, !calls_to_app, Hapi, !length_app.
      destruct (api_call_counts this path options A (Http.Responds r1)) as (-> & -> & ->).
      cbn [length]. repeat split; lia.
  - cbn [snd fst]. rewrite Htr, (trace_after_401 this path options w A r1), <- !app_assoc.
    eexists. split; [reflexivity|].
    rewrite !refresh_attempts_app, !calls_to_app, Hapi, !length_app.
    destruct (api_call_counts this path options A (Http.Responds r1)) as (-> & -> & ->).
    cbn [length]. repeat split; lia.
Qed.

End OneCallOutcome.

(** The specification's refresh scenario sends keepable tokens. *)
Lemma spotify_server_keepable :
  Spotify.keepable_tokens Scenario.spotify_server.
Proof.
  intros history req res source data Hres Hdata.
  unfold Scenario.spotify_server in Hres.
  destruct (String.eqb _ _); [|destruct (bool_decide _)];
    injection Hres as <-; injection Hdata as _ <-; split; reflexivity.
Qed.

Lemma spotify_revoked_server_keepable :
  Spotify.keepable_tokens Scenario.spotify_revoked_server.
Proof.
  intros history req res source data Hres Hdata.
  unfold Scenario.spotify_revoked_server in Hres.
  destruct (String.eqb _ _);
    injection Hres as <-; injection Hdata as _ <-; split; reflexivity.
Qed.

(* ===================================================================== *)
(** ** The Google and n8n envelopes *)
(* ===================================================================== *)

Section GmailFacts.
Variable this : Gmail.GmailPlugin.
Let dir := Keychain.configDir (Gmail.keychain this).

Lemma run_gmail_getToken w :
  run (Gmail.getToken this) w
  = (match store w !! (dir, "google", "access_token") with
     | Some t => if String.eqb t "" then Thrown (Error Gmail.NOT_AUTHENTICATED)
                 else Returned t
     | None => Thrown (Error Gmail.NOT_AUTHENTICATED)
     end,
     record (EvKeychainGet dir "google" "access_token"
               (store w !! (dir, "google", "access_token"))) w).
Proof.
  unfold Gmail.getToken. rewrite run_bind, run_keychain_get. fold dir.
  destruct (store w !! _) as [t|]; [|reflexivity].
  now destruct (String.eqb t "").
Qed.

(** [gmailFetch] with a stored token, whatever the reply: one read, one
    request, and the reply settles the call. *)
Lemma run_gmailFetch path options w G :
  store w !! (dir, "google", "access_token") = Some G -> G <> "" ->
  let req := Gmail.api_request G path options in
  let reply := server w (requests (trace w)) req in
  run (Gmail.gmailFetch this path options) w
  = (match reply with
     | Http.NetworkFailure => Thrown NetworkError
     | Http.Responds res =>
         if negb (Http.ok res) then
           if (Http.status res =? 401)%Z then Thrown (Error Gmail.TOKEN_EXPIRED)
           else Thrown (Error ("Gmail API " +:+ JsVal.string_of_Z (Http.status res)
                               +:+ ": " +:+ text res))
         else match Http.content res with
              | Http.JsonDoc _ j => Returned j
              | _ => Thrown SyntaxError
              end
     end,
     record (EvFetch req reply)
       (record (EvKeychainGet dir "google" "access_token" (Some G)) w)).
Proof.
  intros HG HGne req reply.
  unfold Gmail.gmailFetch. rewrite run_bind, run_gmail_getToken, HG.
  apply String.eqb_neq in HGne. rewrite HGne.
  rewrite run_bind, run_fetch. cbn [server record trace].
  rewrite requests_app. cbn [requests omap]. rewrite app_nil_r.
  fold req. fold reply.
  destruct reply as [res|]; [|reflexivity].
  destruct (negb (Http.ok res)).
  - now destruct (Http.status res =? 401)%Z.
  - unfold json. now destruct (Http.content res).
Qed.

End GmailFacts.

Section N8nFacts.
Variable this : N8n.N8nPlugin.
Let dir := Keychain.configDir (N8n.keychain this).

Lemma run_n8n_getConfig w key :
  store w !! (dir, "n8n", "api_key") = Some key -> key <> "" ->
  run (N8n.getConfig this) w
  = (Returned (N8n.mkConfig key
                 (N8n.normaliseBaseUrl (store w !! (dir, "n8n", "base_url")))),
     record (EvKeychainGet dir "n8n" "base_url" (store w !! (dir, "n8n", "base_url")))
       (record (EvKeychainGet dir "n8n" "api_key" (Some key)) w)).
Proof.
  intros Hk Hne. unfold N8n.getConfig.
  rewrite run_bind, run_keychain_get. fold dir. rewrite Hk.
  apply String.eqb_neq in Hne. rewrite Hne.
  rewrite run_bind, run_keychain_get. reflexivity.
Qed.

(** The statements of [n8nFetch] after the request. *)
Lemma run_n8nFetch path options w key :
  store w !! (dir, "n8n", "api_key") = Some key -> key <> "" ->
  let cfg := N8n.mkConfig key
               (N8n.normaliseBaseUrl (store w !! (dir, "n8n", "base_url"))) in
  let req := N8n.api_request cfg path options in
  let reply := server w (requests (trace w)) req in
  let w' := record (EvFetch req reply)
              (record (EvKeychainGet dir "n8n" "base_url"
                         (store w !! (dir, "n8n", "base_url")))
                 (record (EvKeychainGet dir "n8n" "api_key" (Some key)) w)) in
  match reply with
  | Http.NetworkFailure =>
      run (N8n.n8nFetch this path options) w = (Thrown NetworkError, w')
  | Http.Responds res =>
      (Http.status res = 204%Z ->
       run (N8n.n8nFetch this path options) w = (Returned (JObj []), w'))
      /\ (Http.status res <> 204%Z -> Http.ok res = true ->
          run (N8n.n8nFetch this path options) w
          = (match Http.content res with
             | Http.JsonDoc _ j => Returned j
             | _ => Thrown SyntaxError
             end, w'))
  end.
Proof.
  intros Hk Hne cfg req reply w'.
  unfold N8n.n8nFetch.
  rewrite run_bind, (run_n8n_getConfig w key Hk Hne).
  rewrite run_bind, run_fetch. cbn [server record trace].
  rewrite !requests_app. cbn [requests omap]. rewrite !app_nil_r.
  fold cfg. fold req. fold reply. fold w'.
  destruct reply as [res|]; [|reflexivity].
  split.
  - intros ->. reflexivity.
  - intros Hn Hok. apply Z.eqb_neq in Hn. rewrite Hn, Hok. cbn [negb].
    unfold json. now destruct (Http.content res).
Qed.

End N8nFacts.

(* ===================================================================== *)
(** ** Refresh on 401 *)
(* ===================================================================== *)






(* ===================================================================== *)
(** ** Responses without a body *)
(* ===================================================================== *)

(** C8, as amended: [spotifyFetch] yields the empty object on 204 and on
    202, whatever the body; [n8nFetch] yields it on 204 only, and on any
    other 2xx parses the body, so that an empty one fails as a JSON syntax
    error; [gmailFetch] has no case for an empty body and parses the body
    of every 2xx response, so that an empty one fails likewise. *)
Theorem empty_body_by_envelope
    (s : Spotify.SpotifyPlugin) (spath : string)
    (soptions : Spotify.FetchOptions) (d : nat) (retry : bool) (ws : World)
    (A : string) (rs : Http.Response)
    (n : N8n.N8nPlugin) (npath : string) (noptions : N8n.FetchOptions)
    (wn : World) (key : string) (rn : Http.Response)
    (g : Gmail.GmailPlugin) (gpath : string) (goptions : Gmail.FetchOptions)
    (wg : World) (G : string) (rg : Http.Response) :
  let sdir := Keychain.configDir (Spotify.keychain s) in
  let ndir := Keychain.configDir (N8n.keychain n) in
  let gdir := Keychain.configDir (Gmail.keychain g) in
  let cfg := N8n.mkConfig key
               (N8n.normaliseBaseUrl (store wn !! (ndir, "n8n", "base_url"))) in
  store ws !! (sdir, "spotify", "access_token") = Some A -> A <> "" ->
  server ws (requests (trace ws)) (Spotify.api_request A spath soptions)
  = Http.Responds rs ->
  store wn !! (ndir, "n8n", "api_key") = Some key -> key <> "" ->
  server wn (requests (trace wn)) (N8n.api_request cfg npath noptions)
  = Http.Responds rn ->
  store wg !! (gdir, "google", "access_token") = Some G -> G <> "" ->
  server wg (requests (trace wg)) (Gmail.api_request G gpath goptions)
  = Http.Responds rg ->
  (Http.status rs = 204%Z \/ Http.status rs = 202%Z ->
   fst (run (Spotify.spotifyFetch (S d) s spath soptions retry) ws)
   = Returned (JObj []))
  /\ (Http.status rn = 204%Z ->
      fst (run (N8n.n8nFetch n npath noptions) wn) = Returned (JObj []))
  /\ (Http.ok rn = true -> Http.status rn <> 204%Z ->
      Http.content rn = Http.EmptyBody ->
      fst (run (N8n.n8nFetch n npath noptions) wn) = Thrown SyntaxError)
  /\ (Http.ok rg = true -> Http.content rg = Http.EmptyBody ->
      fst (run (Gmail.gmailFetch g gpath goptions) wg) = Thrown SyntaxError).
Proof.
  intros sdir ndir gdir cfg HA HAne Hrs Hk Hkne Hrn HG HGne Hrg.
  repeat split.
  - intros Hst.
    pose proof (run_spotifyFetch_once s spath soptions d retry ws A HA HAne) as H.
    cbv zeta in H. rewrite Hrs in H. rewrite H.
    + unfold Spotify.respond.
      destruct Hst as [-> | ->]; reflexivity.
    + intros res [= <-]. destruct Hst as [-> | ->]; reflexivity.
  - intros Hst.
    pose proof (run_n8nFetch n npath noptions wn key Hk Hkne) as H.
    cbv zeta in H. fold ndir in H. fold cfg in H. rewrite Hrn in H.
    destruct H as [H _]. now rewrite (H Hst).
  - intros Hok Hst Hbody.
    pose proof (run_n8nFetch n npath noptions wn key Hk Hkne) as H.
    cbv zeta in H. fold ndir in H. fold cfg in H. rewrite Hrn in H.
    destruct H as [_ H]. rewrite (H Hst Hok), Hbody. reflexivity.
  - intros Hok Hbody.
    rewrite (run_gmailFetch g gpath goptions wg G HG HGne). cbv zeta.
    rewrite Hrg, Hok, Hbody. reflexivity.
Qed.

Lemma empty_body_by_envelope_witness :
  fst (run (Spotify.spotifyFetch 1 Scenario.spotify "/me/player/pause"
              (Spotify.mkOptions (Some "PUT") undefined None) true)
         Scenario.spotify_accepted)
  = Returned (JObj [])
  /\ fst (run (N8n.n8nFetch Scenario.n8n "/executions/7"
                 (N8n.mkOptions (Some "DELETE") undefined None))
            Scenario.n8n_no_content)
     = Returned (JObj [])
  /\ fst (run (Gmail.gmailFetch Scenario.gmail "/messages/7/trash"
                 (Gmail.mkOptions (Some "POST") undefined))
            Scenario.google_no_content)
     = Thrown SyntaxError.
Proof.
  destruct (empty_body_by_envelope
              Scenario.spotify "/me/player/pause"
              (Spotify.mkOptions (Some "PUT") undefined None) 0 true
              Scenario.spotify_accepted "A"
              (Http.mkResponse 202 "Accepted" Http.EmptyBody)
              Scenario.n8n "/executions/7"
              (N8n.mkOptions (Some "DELETE") undefined None)
              Scenario.n8n_no_content "K"
              (Http.mkResponse 204 "No Content" Http.EmptyBody)
              Scenario.gmail "/messages/7/trash"
              (Gmail.mkOptions (Some "POST") undefined)
              Scenario.google_no_content "G"
              (Http.mkResponse 204 "No Content" Http.EmptyBody))
    as (Hs & Hn & _ & Hg).
  - vm_compute. reflexivity.
  - discriminate.
  - vm_compute. reflexivity.
  - vm_compute. reflexivity.
  - discriminate.
  - vm_compute. reflexivity.
  - vm_compute. reflexivity.
  - discriminate.
  - vm_compute. reflexivity.
  - split; [apply Hs; now right|].
    split; [now apply Hn | now apply Hg].
Defined.

(** C8 fails as stated: a 204 with an empty body makes [gmailFetch] fail
    with a JSON syntax error, and a 202 with an empty body does the same
    to [n8nFetch]. *)
Lemma empty_body_is_a_syntax_error :
  fst (run (Gmail.gmailFetch Scenario.gmail "/messages/7/trash"
              (Gmail.mkOptions (Some "POST") undefined))
         Scenario.google_no_content)
  = Thrown SyntaxError
  /\ fst (run (N8n.n8nFetch Scenario.n8n "/workflows/7/run"
                 (N8n.mkOptions (Some "POST") undefined None))
            Scenario.n8n_accepted)
     = Thrown SyntaxError.
Proof. split; vm_compute; reflexivity. Qed.

(* ===================================================================== *)
(** ** The shared Google credential *)
(* ===================================================================== *)

(** C7, as amended: the gmail and the gcal plugin, initialised by the same
    host, read [google/access_token] from the same store; after either
    plugin's keychain sets it to a non-empty value [v], the other plugin's
    [getToken] returns [v]. *)
Theorem google_token_shared (conductor : Conductor) (v : string) (w : World) :
  v <> "" ->
  let mail := Gmail.initialize conductor in
  let cal := Gcal.initialize conductor in
  fst (run (Gcal.getToken cal)
         (snd (run (Keychain.set (Gmail.keychain mail) "google" "access_token" v) w)))
  = Returned v
  /\ fst (run (Gmail.getToken mail)
            (snd (run (Keychain.set (Gcal.keychain cal) "google" "access_token" v) w)))
     = Returned v.
Proof.
  intros Hv mail cal. apply String.eqb_neq in Hv.
  split.
  - rewrite run_keychain_set. unfold Gcal.getToken.
    rewrite run_bind, run_keychain_get. cbn [fst snd store record set_store].
    cbn [Gcal.keychain Gmail.keychain Keychain.configDir cal mail
         Gcal.initialize Gmail.initialize].
    rewrite lookup_insert_eq, Hv. reflexivity.
  - rewrite run_keychain_set, run_gmail_getToken.
    cbn [fst snd store record set_store].
    cbn [Gcal.keychain Gmail.keychain Keychain.configDir cal mail
         Gcal.initialize Gmail.initialize].
    rewrite lookup_insert_eq, Hv. reflexivity.
Qed.

Lemma google_token_shared_witness :
  fst (run (Gcal.getToken Scenario.gcal)
         (snd (run (Keychain.set (Gmail.keychain Scenario.gmail)
                      "google" "access_token" "T")
                 (Scenario.world ∅ (Scenario.always 200 "OK" Http.EmptyBody)))))
  = Returned "T"
  /\ fst (run (Gmail.getToken Scenario.gmail)
            (snd (run (Keychain.set (Gcal.keychain Scenario.gcal)
                         "google" "access_token" "T")
                    (Scenario.world ∅ (Scenario.always 200 "OK" Http.EmptyBody)))))
     = Returned "T".
Proof.
  apply (google_token_shared Scenario.host "T"
           (Scenario.world ∅ (Scenario.always 200 "OK" Http.EmptyBody))).
  discriminate.
Defined.

(** C7 fails as stated for the empty value: after
    [set("google", "access_token", "")] the other plugin's [getToken] does
    not return the stored value but throws its not-authenticated error. *)
Lemma google_token_empty_is_rejected :
  fst (run (Gcal.getToken Scenario.gcal)
         (snd (run (Keychain.set (Gmail.keychain Scenario.gmail)
                      "google" "access_token" "")
                 (Scenario.world ∅ (Scenario.always 200 "OK" Http.EmptyBody)))))
  = Thrown (Error Gcal.NOT_AUTHENTICATED)
  /\ fst (run (Gmail.getToken Scenario.gmail)
            (snd (run (Keychain.set (Gcal.keychain Scenario.gcal)
                         "google" "access_token" "")
                    (Scenario.world ∅ (Scenario.always 200 "OK" Http.EmptyBody)))))
     = Thrown (Error Gmail.NOT_AUTHENTICATED).
Proof. split; vm_compute; reflexivity. Qed.

(* ===================================================================== *)
(** ** The n8n base URL *)
(* ===================================================================== *)

Lemma normaliseBaseUrl_cases (rawUrl : option string) :
  let s := JS.strip_trailing_slash (JS.nullish rawUrl N8n.DEFAULT_URL) in
  (JS.endsWith s N8n.API_SUFFIX = true /\ N8n.normaliseBaseUrl rawUrl = s)
  \/ (JS.endsWith s N8n.API_SUFFIX = false
      /\ N8n.normaliseBaseUrl rawUrl = s +:+ N8n.API_SUFFIX).
Proof.
  intros s. unfold N8n.normaliseBaseUrl. fold s.
  destruct (JS.endsWith s N8n.API_SUFFIX); [left | right]; now split.
Qed.

Lemma normaliseBaseUrl_suffix (rawUrl : option string) :
  JS.endsWith (N8n.normaliseBaseUrl rawUrl) N8n.API_SUFFIX = true.
Proof.
  destruct (normaliseBaseUrl_cases rawUrl) as [[H ->] | [_ ->]];
    [exact H | apply endsWith_app].
Qed.

Lemma normaliseBaseUrl_fixed (u : string) :
  JS.endsWith u N8n.API_SUFFIX = true -> N8n.normaliseBaseUrl (Some u) = u.
Proof.
  intros H. unfold N8n.normaliseBaseUrl. cbn [JS.nullish].
  assert (Hs : JS.strip_trailing_slash u = u).
  { apply strip_trailing_slash_id.
    apply endsWith_spec in H as [p ->].
    now rewrite endsWith_app_suffix by (cbn; lia). }
  now rewrite Hs, H.
Qed.


(* ===================================================================== *)
(** ** X: the tweet length guard and the retried POST *)
(* ===================================================================== *)

(** C9: a [text] longer than 280 makes the [x_post_tweet] handler return
    an object with an [error] field in the world it started in: nothing is
    read, nothing is sent.  Conversely, whenever the handler leaves a
    trace, the text had at most 280 characters. *)
Theorem long_tweet_is_rejected_unsent
    (policy : Shared.RetryPolicy) (this : X.XPlugin)
    (args : X.PostTweetArgs) (w : World) :
  let call := handler (X.x_post_tweet policy this) args in
  (280 < String.length (X.text args) ->
   exists message,
     run call w = (Returned (JObj [("error", JStr message)]), w))
  /\ (trace (snd (run call w)) <> trace w ->
      String.length (X.text args) <= 280).
Proof.
  intros call.
  assert (Hlong : 280 < String.length (X.text args) ->
                  run call w = (Returned (X.tweet_too_long (X.text args)), w)).
  { intros Hlen. unfold call. cbn [handler X.x_post_tweet].
    apply Nat.ltb_lt in Hlen. now rewrite Hlen. }
  split.
  - intros Hlen. eexists. rewrite (Hlong Hlen). reflexivity.
  - intros Hmoved.
    destruct (Nat.le_gt_cases (String.length (X.text args)) 280) as [H | H];
      [exact H|].
    exfalso. apply Hmoved. now rewrite (Hlong H).
Qed.

Lemma long_tweet_is_rejected_unsent_witness :
  let long := X.mkPostTweet (String.concat "" (repeat "spam " 60)) None in
  let w := Scenario.world ∅ (Scenario.always 201 "Created" Http.EmptyBody) in
  exists message,
    run (handler (X.x_post_tweet (Scenario.retry_thrice) Scenario.x) long) w
    = (Returned (JObj [("error", JStr message)]), w).
Proof.
  intros long w.
  apply (long_tweet_is_rejected_unsent (Scenario.retry_thrice) Scenario.x long w).
  vm_compute. lia.
Defined.

Section XFacts.
Variable policy : Shared.RetryPolicy.
Variable this : X.XPlugin.
Let dir := Keychain.configDir (X.keychain this).

(** The world after the four credential reads. *)
Lemma run_getOAuthCreds w (creds : X.OAuthCreds) :
  store w !! (dir, "x", "api_key") = Some (X.apiKey creds) ->
  store w !! (dir, "x", "api_secret") = Some (X.apiSecret creds) ->
  store w !! (dir, "x", "access_token") = Some (X.accessToken creds) ->
  store w !! (dir, "x", "access_secret") = Some (X.accessSecret creds) ->
  X.apiKey creds <> "" -> X.apiSecret creds <> "" ->
  X.accessToken creds <> "" -> X.accessSecret creds <> "" ->
  run (X.getOAuthCreds this) w
  = (Returned creds, X.after_credentials this creds w).
Proof.
  intros H1 H2 H3 H4 N1 N2 N3 N4.
  unfold X.getOAuthCreds, X.after_credentials. fold dir.
  rewrite run_bind, run_keychain_get. fold dir. rewrite H1.
  rewrite run_bind, run_keychain_get. fold dir. cbn [store record]. rewrite H2.
  rewrite run_bind, run_keychain_get. fold dir. cbn [store record]. rewrite H3.
  rewrite run_bind, run_keychain_get. fold dir. cbn [store record]. rewrite H4.
  cbn [JS.truthy JS.nullish].
  apply String.eqb_neq in N1, N2, N3, N4. rewrite N1, N2, N3, N4.
  cbn [negb orb]. now destruct creds.
Qed.

Lemma run_api_error (res : Http.Response) (w : World) :
  exists message,
    run (X.api_error res) w
    = (Thrown (ErrorWithStatus message (Http.status res)), w).
Proof.
  unfold X.api_error. rewrite run_bind.
  assert (Hp : pure (catch (errJSON ← json res;
                            detail ← getProp errJSON "detail";
                            Ret (JsVal.nullish detail
                                   (JsVal.nullish (JsVal.prop errJSON "title")
                                      (JStr (Http.statusText res)))))
                           (fun _ => Ret (JStr (Http.statusText res))))).
  { apply pure_catch; [|intros; apply pure_ret].
    apply pure_bind; [apply pure_json|]. intros j.
    apply pure_bind; [apply pure_getProp|]. intros v. apply pure_ret. }
  destruct Hp as [o Ho]. rewrite Ho.
  destruct o as [errStr|e].
  - eexists. reflexivity.
  - exfalso. specialize (Ho w). rewrite run_catch in Ho.
    destruct (run _ w) as [[a|e'] w'] in Ho; cbn in Ho; discriminate.
Qed.

(** The retry helper starts by running the call it was given. *)
Lemma retry_loop_starts {A : Type} (attempt left : nat) (req : Http.Request)
    (k : Http.Response -> Prog A) (w : World) :
  exists evs,
    trace (snd (run (Shared.retry_loop policy attempt left (fetch req ≫= k)) w))
    = trace w ++ EvFetch req (server w (requests (trace w)) req) :: evs.
Proof.
  assert (Hfn : forall h, exists evs,
    trace (snd (run (catch (fetch req ≫= k) h) w))
    = trace w ++ EvFetch req (server w (requests (trace w)) req) :: evs).
  { intros h. rewrite run_catch, run_bind, run_fetch.
    destruct (server w (requests (trace w)) req) as [res|].
    - destruct (run (k res) _) as [[a|e] w1] eqn:E.
      + destruct (run_extends (k res) (record (EvFetch req (Http.Responds res)) w))
          as [_ [evs Hev]].
        rewrite E in Hev. cbn in Hev. exists evs. cbn.
        now rewrite Hev, <- app_assoc.
      + destruct (run_extends (k res) (record (EvFetch req (Http.Responds res)) w))
          as [_ [evs Hev]].
        rewrite E in Hev. cbn in Hev.
        destruct (run_extends (h e) w1) as [_ [evs' Hev']].
        exists (evs ++ evs'). rewrite Hev', Hev, <- !app_assoc. reflexivity.
    - destruct (run_extends (h NetworkError)
                  (record (EvFetch req Http.NetworkFailure) w)) as [_ [evs Hev]].
      exists evs. rewrite Hev. cbn. now rewrite <- app_assoc. }
  destruct left as [|left'].
  - cbn [Shared.retry_loop].
    destruct (Hfn (fun e => Throw e)) as [evs Hev]. exists evs.
    rewrite <- Hev. rewrite run_catch.
    destruct (run (fetch req ≫= k) w) as [[a|e] w1]; reflexivity.
  - cbn [Shared.retry_loop]. apply Hfn.
Qed.


Lemma bind_trace {A B : Type} (m : Prog A) (k : A -> Prog B) (w : World) :
  exists evs,
    trace (snd (run (m ≫= k) w)) = trace (snd (run m w)) ++ evs.
Proof.
  rewrite run_bind. destruct (run m w) as [[a|e] w1]; cbn [snd].
  - destruct (run_extends (k a) w1) as [_ H]. exact H.
  - exists []. now rewrite app_nil_r.
Qed.

Lemma requests_after_credentials creds w :
  requests (trace (X.after_credentials this creds w)) = requests (trace w).
Proof.
  unfold X.after_credentials. cbn [trace record].
  rewrite !requests_app. cbn [requests omap]. now rewrite !app_nil_r.
Qed.

Local Abbreviation signed_post := (X.signed_post this).

Lemma xPost_resends path body w creds r1 :
  store w !! (dir, "x", "api_key") = Some (X.apiKey creds) ->
  store w !! (dir, "x", "api_secret") = Some (X.apiSecret creds) ->
  store w !! (dir, "x", "access_token") = Some (X.accessToken creds) ->
  store w !! (dir, "x", "access_secret") = Some (X.accessSecret creds) ->
  X.apiKey creds <> "" -> X.apiSecret creds <> "" ->
  X.accessToken creds <> "" -> X.accessSecret creds <> "" ->
  0 < Shared.maxRetries policy ->
  server w (requests (trace w)) (signed_post creds path body w)
  = Http.Responds r1 ->
  (500 <= Http.status r1 <= 599)%Z ->
  exists reply2 evs,
    trace (snd (run (X.xPost policy this path body) w))
    = trace (X.after_credentials this creds w)
      ++ [EvFetch (signed_post creds path body w) (Http.Responds r1);
          EvSleep (Shared.baseDelayMs policy);
          EvFetch (signed_post creds path body w) reply2]
      ++ evs.
Proof.
  intros H1 H2 H3 H4 N1 N2 N3 N4 Hretries Hr1 [Hlo Hhi].
  unfold X.xPost.
  rewrite run_bind, (run_getOAuthCreds w creds H1 H2 H3 H4 N1 N2 N3 N4).
  set (w0 := X.after_credentials this creds w).
  rewrite run_bind. unfold X.buildOAuthHeader. cbn [run].
  destruct (draw 16 w0) as [bs w'] eqn:Hdraw. cbn [run].
  assert (Hw' : trace w' = trace w0 /\ server w' = server w0
                /\ clock w' = clock w0 /\ bs = fst (draw 16 w0)).
  { rewrite Hdraw. unfold draw in Hdraw. injection Hdraw as <- <-. now cbn. }
  destruct Hw' as (Htr & Hsrv & Hclk & Hbs).
  rewrite Hclk, Hbs.
  change (X.post_request _ (X.X_BASE +:+ path) body)
    with (X.signed_post this creds path body w).
  set (req := signed_post creds path body w).
  unfold Shared.withRetry.
  destruct (Shared.maxRetries policy) as [|left']; [lia|].
  cbn [Shared.retry_loop]. rewrite run_catch, run_bind, run_fetch.
  rewrite Hsrv, Htr. subst w0.
  change (server (X.after_credentials this creds w)) with (server w).
  rewrite !requests_after_credentials. fold req in Hr1. rewrite !Hr1.
  assert (Hok : Http.ok r1 = false).
  { unfold Http.ok. apply andb_false_iff. right. apply Z.leb_gt. lia. }
  rewrite Hok. cbn [negb].
  destruct (run_api_error r1 (record (EvFetch req (Http.Responds r1)) w'))
    as [message ->].
  cbn [Shared.transient].
  assert (Htrans : ((500 <=? Http.status r1) && (Http.status r1 <=? 599))%Z = true).
  { apply andb_true_iff. split; apply Z.leb_le; lia. }
  rewrite Htrans. cbn [run].
  match goal with
  | |- context [run (Shared.retry_loop policy 1 left' ?fn) ?w2] =>
      destruct (retry_loop_starts 1 left' req
                  (fun res => if negb (Http.ok res) then X.api_error res
                              else json res) w2) as [evs Hev]
  end.
  rewrite Hev. cbn [trace record advance]. rewrite Htr.
  eexists. exists evs. rewrite Z.mul_1_r.
  rewrite <- !app_assoc. reflexivity.
Qed.

End XFacts.

(** C6 does not hold for [x_post_tweet]: the tool is marked
    [requiresApproval], its handler posts through [xPost], and [xPost]
    runs its POST inside the retry helper: when the first reply is a 5xx
    the same signed POST is sent again after the backoff delay.  The
    sibling [x_delete_tweet] sends its request outside the helper. *)
Theorem x_post_tweet_post_is_retried
    (policy : Shared.RetryPolicy) (this : X.XPlugin) (args : X.PostTweetArgs)
    (w : World) (creds : X.OAuthCreds) (r1 : Http.Response) :
  let dir := Keychain.configDir (X.keychain this) in
  let req := X.signed_post this creds "/tweets" (X.tweet_body args) w in
  store w !! (dir, "x", "api_key") = Some (X.apiKey creds) ->
  store w !! (dir, "x", "api_secret") = Some (X.apiSecret creds) ->
  store w !! (dir, "x", "access_token") = Some (X.accessToken creds) ->
  store w !! (dir, "x", "access_secret") = Some (X.accessSecret creds) ->
  X.apiKey creds <> "" -> X.apiSecret creds <> "" ->
  X.accessToken creds <> "" -> X.accessSecret creds <> "" ->
  String.length (X.text args) <= 280 ->
  0 < Shared.maxRetries policy ->
  server w (requests (trace w)) req = Http.Responds r1 ->
  (500 <= Http.status r1 <= 599)%Z ->
  approval_required (X.x_post_tweet policy this) = true
  /\ Http.method req = "POST"
  /\ exists reply2 evs,
       trace (snd (run (handler (X.x_post_tweet policy this) args) w))
       = trace (X.after_credentials this creds w)
         ++ [EvFetch req (Http.Responds r1);
             EvSleep (Shared.baseDelayMs policy);
             EvFetch req reply2]
         ++ evs.
Proof.
  intros dir req H1 H2 H3 H4 N1 N2 N3 N4 Hlen Hretries Hr1 Hst.
  split; [reflexivity|]. split; [reflexivity|].
  cbn [handler X.x_post_tweet].
  assert (Hshort : (280 <? String.length (X.text args)) = false)
    by (apply Nat.ltb_ge; exact Hlen).
  rewrite Hshort.
  destruct (xPost_resends policy this "/tweets" (X.tweet_body args) w creds r1
              H1 H2 H3 H4 N1 N2 N3 N4 Hretries Hr1 Hst) as (reply2 & evs & Hev).
  match goal with
  | |- context [run (?m ≫= ?k) w] =>
      destruct (bind_trace m k w) as [evs' Hev']
  end.
  exists reply2, (evs ++ evs'). rewrite Hev', Hev. fold req.
  now rewrite <- !app_assoc.
Qed.

Lemma x_post_tweet_post_is_retried_witness :
  let args := X.mkPostTweet "hi" None in
  let req := X.signed_post Scenario.x Scenario.x_creds "/tweets"
               (X.tweet_body args) Scenario.x_flaky in
  approval_required (X.x_post_tweet Scenario.retry_thrice Scenario.x) = true
  /\ Http.method req = "POST"
  /\ exists reply2 evs,
       trace (snd (run (handler (X.x_post_tweet Scenario.retry_thrice Scenario.x)
                          args) Scenario.x_flaky))
       = trace (X.after_credentials Scenario.x Scenario.x_creds Scenario.x_flaky)
         ++ [EvFetch req (Http.Responds Scenario.unavailable);
             EvSleep (Shared.baseDelayMs Scenario.retry_thrice);
             EvFetch req reply2]
         ++ evs.
Proof.
  intros args req.
  apply (x_post_tweet_post_is_retried Scenario.retry_thrice Scenario.x args
           Scenario.x_flaky Scenario.x_creds Scenario.unavailable).
  - vm_compute. reflexivity.
  - vm_compute. reflexivity.
  - vm_compute. reflexivity.
  - vm_compute. reflexivity.
  - discriminate.
  - discriminate.
  - discriminate.
  - discriminate.
  - vm_compute. lia.
  - vm_compute. lia.
  - reflexivity.
  - vm_compute. split; discriminate.
Defined.

(** The same at a concrete input: posting ["hi"] against an upstream
    whose first reply is a 503 sends the POST to [/tweets] twice and
    reports the tweet as posted; deleting a tweet against the same upstream
    sends one request and fails. *)
Lemma x_post_tweet_posts_twice :
  let post := run (handler (X.x_post_tweet Scenario.retry_thrice Scenario.x)
                     (X.mkPostTweet "hi" None)) Scenario.x_flaky in
  let delete := run (handler (X.x_delete_tweet Scenario.x) "1") Scenario.x_flaky in
  List.map (fun r => (Http.method r, Http.url r)) (requests (trace (snd post)))
  = [("POST", "https://api.twitter.com/2/tweets");
     ("POST", "https://api.twitter.com/2/tweets")]
  /\ JsVal.prop (match fst post with Returned j => j | Thrown _ => JNull end)
       "posted" = Some (JBool true)
  /\ List.map (fun r => (Http.method r, Http.url r)) (requests (trace (snd delete)))
     = [("DELETE", "https://api.twitter.com/2/tweets/1")]
  /\ fst delete = Thrown (Error "Delete failed: 503 Service Unavailable").
Proof. vm_compute. repeat split; reflexivity. Qed.

(* ===================================================================== *)
(** ** Approval flags of the mutating tools *)
(* ===================================================================== *)

Lemma calFetch_trace (this : Gcal.GoogleCalendarPlugin) path options w G :
  let dir := Keychain.configDir (Gcal.keychain this) in
  store w !! (dir, "google", "access_token") = Some G -> G <> "" ->
  trace (snd (run (Gcal.calFetch this path options) w))
  = trace w
    ++ [EvKeychainGet dir "google" "access_token" (Some G);
        EvFetch (Gcal.api_request G path options)
          (server w (requests (trace w)) (Gcal.api_request G path options))].
Proof.
  intros dir HG HGne. unfold Gcal.calFetch, Gcal.getToken.
  rewrite !run_bind, run_keychain_get. fold dir. rewrite HG.
  apply String.eqb_neq in HGne. rewrite HGne. cbn [run].
  rewrite run_bind, run_fetch. cbn [server record trace].
  rewrite requests_app. cbn [requests omap]. rewrite app_nil_r.
  destruct (server w (requests (trace w)) _) as [res|]; cbn [snd trace record].
  - assert (Hp : pure (if negb (Http.ok res)
                       then if (Http.status res =? 401)%Z
                            then Throw (Error Gcal.TOKEN_EXPIRED)
                            else Throw (Error ("Google Calendar API "
                                   +:+ JsVal.string_of_Z (Http.status res)
                                   +:+ ": " +:+ text res))
                       else if (Http.status res =? 204)%Z then Ret (JObj [])
                            else json res)).
    { destruct (negb (Http.ok res)); destruct (Http.status res =? 401)%Z;
        destruct (Http.status res =? 204)%Z;
        auto using pure_ret, pure_throw, pure_json. }
    destruct Hp as [o Ho]. rewrite Ho. cbn. now rewrite <- app_assoc.
  - now rewrite <- app_assoc.
Qed.

Lemma n8nFetch_trace (this : N8n.N8nPlugin) path options w key :
  let dir := Keychain.configDir (N8n.keychain this) in
  let rawUrl := store w !! (dir, "n8n", "base_url") in
  let req := N8n.api_request (N8n.mkConfig key (N8n.normaliseBaseUrl rawUrl))
               path options in
  store w !! (dir, "n8n", "api_key") = Some key -> key <> "" ->
  trace (snd (run (N8n.n8nFetch this path options) w))
  = trace w
    ++ [EvKeychainGet dir "n8n" "api_key" (Some key);
        EvKeychainGet dir "n8n" "base_url" rawUrl;
        EvFetch req (server w (requests (trace w)) req)].
Proof.
  intros dir rawUrl req Hk Hne. unfold N8n.n8nFetch.
  rewrite run_bind, (run_n8n_getConfig this w key Hk Hne).
  rewrite run_bind, run_fetch. cbn [server record trace].
  rewrite !requests_app. cbn [requests omap]. rewrite !app_nil_r.
  fold dir. fold rawUrl. fold req.
  destruct (server w (requests (trace w)) req) as [res|]; cbn [snd trace record].
  - assert (Hp : pure (if (Http.status res =? 204)%Z then Ret (JObj [])
                       else if negb (Http.ok res) then
                         err ← catch (json res)
                                 (fun _ => Ret (JObj [("message",
                                                       JStr (Http.statusText res))]));
                         message ← getProp err "message";
                         Throw (Error ("n8n API "
                                  +:+ JsVal.string_of_Z (Http.status res) +:+ ": "
                                  +:+ JsVal.toString
                                        (JsVal.nullish message
                                           (JStr (Http.statusText res)))))
                       else json res)).
    { destruct (Http.status res =? 204)%Z; [apply pure_ret|].
      destruct (negb (Http.ok res)); [|apply pure_json].
      apply pure_bind.
      - apply pure_catch; [apply pure_json | intros; apply pure_ret].
      - intros err. apply pure_bind; [apply pure_getProp|].
        intros m. apply pure_throw. }
    destruct Hp as [o Ho]. rewrite Ho. cbn. now rewrite <- !app_assoc.
  - now rewrite <- !app_assoc.
Qed.

(** What a run of [n8nFetch] asks for: nothing without an API key, and
    otherwise the one URL made of the base URL and the path. *)
Lemma n8nFetch_requests (this : N8n.N8nPlugin) path options w :
  let dir := Keychain.configDir (N8n.keychain this) in
  let baseUrl := N8n.normaliseBaseUrl (store w !! (dir, "n8n", "base_url")) in
  exists evs,
    trace (snd (run (N8n.n8nFetch this path options) w)) = trace w ++ evs
    /\ List.Forall (fun req => Http.url req = baseUrl +:+ path) (requests evs).
Proof.
  intros dir baseUrl.
  destruct (store w !! (dir, "n8n", "api_key")) as [key|] eqn:Hkey.
  - destruct (String.eqb key "") eqn:Hne.
    + apply String.eqb_eq in Hne. subst key.
      unfold N8n.n8nFetch, N8n.getConfig.
      rewrite !run_bind, run_keychain_get. fold dir. rewrite Hkey.
      cbn [String.eqb run snd trace record].
      eexists. split; [reflexivity | constructor].
    + apply String.eqb_neq in Hne.
      rewrite (n8nFetch_trace this path options w key Hkey Hne).
      eexists. split; [reflexivity|]. cbn [requests omap].
      constructor; [reflexivity | constructor].
  - unfold N8n.n8nFetch, N8n.getConfig.
    rewrite !run_bind, run_keychain_get. fold dir. rewrite Hkey.
    cbn [run snd trace record].
    eexists. split; [reflexivity | constructor].
Qed.



(** C1 does not hold for [gmail_send], [gcal_delete_event] and
    [n8n_delete_execution]: none of the three definitions sets
    [requiresApproval], so the flag defaults to [false], although each
    handler, with its credential stored, sends a mutating request: a POST
    to [/messages/send], a DELETE of the event, a DELETE of the
    execution. *)
Theorem mutating_tools_without_approval
    (g : Gmail.GmailPlugin) (mail : Gmail.SendArgs) (wg : World) (G : string)
    (c : Gcal.GoogleCalendarPlugin) (event : Gcal.DeleteArgs) (wc : World)
    (Gc : string)
    (n : N8n.N8nPlugin) (executionId : string) (wn : World) (key : string) :
  store wg !! (Keychain.configDir (Gmail.keychain g), "google", "access_token")
  = Some G -> G <> "" ->
  store wc !! (Keychain.configDir (Gcal.keychain c), "google", "access_token")
  = Some Gc -> Gc <> "" ->
  store wn !! (Keychain.configDir (N8n.keychain n), "n8n", "api_key")
  = Some key -> key <> "" ->
  (requiresApproval (Gmail.gmail_send g) = None
   /\ approval_required (Gmail.gmail_send g) = false
   /\ exists req,
        In req (requests (trace (snd (run (handler (Gmail.gmail_send g) mail) wg))))
        /\ Http.method req = "POST"
        /\ Http.url req = Gmail.GMAIL_BASE +:+ "/messages/send"
        /\ Observe.mutating (Http.method req) = true)
  /\ (requiresApproval (Gcal.gcal_delete_event c) = None
      /\ approval_required (Gcal.gcal_delete_event c) = false
      /\ exists req,
           In req (requests (trace (snd (run (handler (Gcal.gcal_delete_event c)
                                                event) wc))))
           /\ Http.method req = "DELETE"
           /\ Observe.mutating (Http.method req) = true)
  /\ (requiresApproval (N8n.n8n_delete_execution n) = None
      /\ approval_required (N8n.n8n_delete_execution n) = false
      /\ exists req,
           In req (requests (trace (snd (run (handler (N8n.n8n_delete_execution n)
                                                executionId) wn))))
           /\ Http.method req = "DELETE"
           /\ JS.endsWith (Http.url req) ("/api/v1/executions/" +:+ executionId)
              = true
           /\ Observe.mutating (Http.method req) = true).
Proof.
  intros HG HGne HGc HGcne Hk Hkne.
  split; [|split].
  - do 2 (split; [reflexivity|]).
    cbn [handler Gmail.gmail_send].
    match goal with
    | |- context [run (?m ≫= ?k) wg] =>
        destruct (bind_trace m k wg) as [evs ->]
    end.
    rewrite (run_gmailFetch g _ _ wg G HG HGne). cbn [snd trace record].
    eexists. split.
    { rewrite !requests_app. cbn [requests omap].
      apply in_or_app. left. apply in_or_app. right. now left. }
    repeat split.
  - do 2 (split; [reflexivity|]).
    cbn [handler Gcal.gcal_delete_event].
    match goal with
    | |- context [run (?m ≫= ?k) wc] =>
        destruct (bind_trace m k wc) as [evs ->]
    end.
    rewrite (calFetch_trace c _ _ wc Gc HGc HGcne).
    eexists. split.
    { rewrite !requests_app. cbn [requests omap].
      apply in_or_app. left. apply in_or_app. right. now left. }
    repeat split.
  - do 2 (split; [reflexivity|]).
    cbn [handler N8n.n8n_delete_execution].
    match goal with
    | |- context [run (?m ≫= ?k) wn] =>
        destruct (bind_trace m k wn) as [evs ->]
    end.
    rewrite (n8nFetch_trace n _ _ wn key Hk Hkne).
    eexists. split.
    { rewrite !requests_app. cbn [requests omap].
      apply in_or_app. left. apply in_or_app. right. now left. }
    split; [reflexivity|]. split; [|reflexivity].
    cbn [Http.url N8n.api_request N8n.baseUrl].
    destruct (proj1 (endsWith_spec _ _) (normaliseBaseUrl_suffix
                (store wn !! (Keychain.configDir (N8n.keychain n), "n8n", "base_url"))))
      as [instance ->].
    apply endsWith_spec. exists instance.
    change N8n.API_SUFFIX with "/api/v1".
    now rewrite !append_assoc.
Qed.

Lemma mutating_tools_without_approval_witness :
  (exists req,
     In req (requests (trace (snd (run (handler (Gmail.gmail_send Scenario.gmail)
                                          (Gmail.mkSend "bob@example.com" "Hi"
                                             "See you at 5." None))
                                     Scenario.google_no_content))))
     /\ Http.method req = "POST"
     /\ Http.url req = Gmail.GMAIL_BASE +:+ "/messages/send")
  /\ approval_required (Gmail.gmail_send Scenario.gmail) = false.
Proof.
  destruct (mutating_tools_without_approval
              Scenario.gmail
              (Gmail.mkSend "bob@example.com" "Hi" "See you at 5." None)
              Scenario.google_no_content "G"
              Scenario.gcal (Gcal.mkDelete "evt1" None)
              Scenario.google_no_content "G"
              Scenario.n8n "7" Scenario.n8n_no_content "K")
    as ((_ & Hflag & req & Hin & Hm & Hu & _) & _).
  - vm_compute. reflexivity.
  - discriminate.
  - vm_compute. reflexivity.
  - discriminate.
  - vm_compute. reflexivity.
  - discriminate.
  - split; [|exact Hflag]. exists req. repeat split; assumption.
Defined.

(* ===================================================================== *)
(** ** The OAuth 1.0a signature *)
(* ===================================================================== *)

(** The primitives agree with the published vectors: SHA-1 of ["abc"]
    (FIPS 180), and HMAC-SHA1 test case 2 of RFC 2202. *)
Example sha1_abc :
  Bytes.hex (Sha1.digest (Bytes.utf8 "abc"))
  = "a9993e364706816aba3e25717850c26c9cd0d89d".
Proof. vm_compute. reflexivity. Qed.

Example hmac_sha1_rfc2202_case2 :
  Bytes.hex (Hmac.sha1 (Bytes.utf8 "Jefe")
               (Bytes.utf8 "what do ya want for nothing?"))
  = "effcdf6ae5eb2fa2d27416d5f184df9c259a7c79".
Proof. vm_compute. reflexivity. Qed.

Section PercentFacts.

Lemma unit_agrees (c : ascii) :
  Uri.is_one_of "!*'()" c = false ->
  Uri.is_alnum c || Uri.is_one_of "-_.!~*'()" c
  = Uri.is_alnum c || Uri.is_one_of "-._~" c.
Proof.
  destruct c as [[] [] [] [] [] [] [] []]; vm_compute; congruence.
Qed.

(** On a string without [! * ' ( )], [encodeURIComponent] is RFC 3986
    percent-encoding. *)
Lemma encodeURIComponent_rfc3986 (s : string) :
  Uri.no_sub_delims s = true ->
  Uri.encodeURIComponent s = Uri.percent_rfc3986 s.
Proof.
  induction s as [|c s IH]; [reflexivity|].
  unfold Uri.no_sub_delims. cbn [list_ascii_of_string forallb].
  intros H. apply andb_true_iff in H as [Hc Hs].
  apply negb_true_iff in Hc.
  cbn [Uri.encodeURIComponent Uri.percent_rfc3986].
  rewrite (unit_agrees c Hc), (IH Hs). reflexivity.
Qed.

Lemma no_sub_delims_app (a b : string) :
  Uri.no_sub_delims (a +:+ b) = Uri.no_sub_delims a && Uri.no_sub_delims b.
Proof.
  unfold Uri.no_sub_delims.
  induction a as [|c a IH]; [reflexivity|].
  rewrite append_cons. cbn [list_ascii_of_string forallb].
  now rewrite IH, andb_assoc.
Qed.

Lemma rfc3986_unit_clean (c : ascii) :
  Uri.no_sub_delims
    (if Uri.is_alnum c || Uri.is_one_of "-._~" c
     then String c EmptyString
     else Uri.percent (Bytes.utf8_unit c)) = true.
Proof. destruct c as [[] [] [] [] [] [] [] []]; vm_compute; reflexivity. Qed.

(** The output of RFC 3986 percent-encoding has none of [! * ' ( )]. *)
Lemma percent_rfc3986_clean (s : string) :
  Uri.no_sub_delims (Uri.percent_rfc3986 s) = true.
Proof.
  induction s as [|c s IH]; [reflexivity|].
  cbn [Uri.percent_rfc3986].
  now rewrite no_sub_delims_app, rfc3986_unit_clean, IH.
Qed.

End PercentFacts.

Section SignerFacts.
Variables (nonce timestamp method url : string) (creds : X.OAuthCreds).

Lemma code_sorted_params :
  X.sortedParams (X.oauthParams nonce timestamp creds)
  = JsVal.join "&"
      [Uri.encodeURIComponent "oauth_consumer_key" +:+ "="
         +:+ Uri.encodeURIComponent (X.apiKey creds);
       Uri.encodeURIComponent "oauth_nonce" +:+ "="
         +:+ Uri.encodeURIComponent nonce;
       Uri.encodeURIComponent "oauth_signature_method" +:+ "="
         +:+ Uri.encodeURIComponent "HMAC-SHA1";
       Uri.encodeURIComponent "oauth_timestamp" +:+ "="
         +:+ Uri.encodeURIComponent timestamp;
       Uri.encodeURIComponent "oauth_token" +:+ "="
         +:+ Uri.encodeURIComponent (X.accessToken creds);
       Uri.encodeURIComponent "oauth_version" +:+ "="
         +:+ Uri.encodeURIComponent "1.0"].
Proof. reflexivity. Qed.

Lemma spec_sorted_params :
  SignerSpec.sorted_params
    (SignerSpec.parameter_set (X.apiKey creds) nonce timestamp
       (X.accessToken creds))
  = JsVal.join "&"
      [Uri.percent_rfc3986 "oauth_consumer_key" +:+ "="
         +:+ Uri.percent_rfc3986 (X.apiKey creds);
       Uri.percent_rfc3986 "oauth_nonce" +:+ "="
         +:+ Uri.percent_rfc3986 nonce;
       Uri.percent_rfc3986 "oauth_signature_method" +:+ "="
         +:+ Uri.percent_rfc3986 "HMAC-SHA1";
       Uri.percent_rfc3986 "oauth_timestamp" +:+ "="
         +:+ Uri.percent_rfc3986 timestamp;
       Uri.percent_rfc3986 "oauth_token" +:+ "="
         +:+ Uri.percent_rfc3986 (X.accessToken creds);
       Uri.percent_rfc3986 "oauth_version" +:+ "="
         +:+ Uri.percent_rfc3986 "1.0"].
Proof. reflexivity. Qed.

Hypothesis clean_key : Uri.no_sub_delims (X.apiKey creds) = true.
Hypothesis clean_token : Uri.no_sub_delims (X.accessToken creds) = true.
Hypothesis clean_nonce : Uri.no_sub_delims nonce = true.
Hypothesis clean_timestamp : Uri.no_sub_delims timestamp = true.

Lemma sorted_params_agree :
  X.sortedParams (X.oauthParams nonce timestamp creds)
  = SignerSpec.sorted_params
      (SignerSpec.parameter_set (X.apiKey creds) nonce timestamp
         (X.accessToken creds)).
Proof.
  rewrite code_sorted_params, spec_sorted_params.
  now rewrite !encodeURIComponent_rfc3986 by (assumption || reflexivity).
Qed.

Lemma sorted_params_clean :
  Uri.no_sub_delims
    (SignerSpec.sorted_params
       (SignerSpec.parameter_set (X.apiKey creds) nonce timestamp
          (X.accessToken creds))) = true.
Proof.
  rewrite spec_sorted_params. cbn [JsVal.join].
  rewrite !no_sub_delims_app, !percent_rfc3986_clean. reflexivity.
Qed.

Hypothesis clean_url : Uri.no_sub_delims url = true.

Lemma base_strings_agree :
  X.baseString method url (X.oauthParams nonce timestamp creds)
  = SignerSpec.base_string method url
      (SignerSpec.parameter_set (X.apiKey creds) nonce timestamp
         (X.accessToken creds)).
Proof.
  unfold X.baseString, SignerSpec.base_string, SignerSpec.PERCENT,
    SignerSpec.UPPER. cbn [JsVal.join].
  rewrite sorted_params_agree.
  rewrite (encodeURIComponent_rfc3986 url clean_url).
  rewrite (encodeURIComponent_rfc3986 _ sorted_params_clean).
  reflexivity.
Qed.

End SignerFacts.

(** C4, as amended: for inputs without the characters [! * ' ( )] the
    signer computes [BASE64(HMAC_SHA1(key, base))] with
    [base = UPPER(method) & PERCENT(url) & PERCENT(sorted parameters)] and
    [key = PERCENT(consumer_secret) & PERCENT(token_secret)], [PERCENT]
    being RFC 3986 percent-encoding; for [POST],
    [https://api.example.com/1/r], nonce [kllo9940pd9333jh], timestamp
    [1318622958] and the credentials of RFC 5849, section 1.2, the
    signature is [XNcISOkWqxuJzT9Cd4T9ulTUJrk=]. *)
Theorem oauth_signature_as_specified
    (nonce timestamp method url : string) (creds : X.OAuthCreds) :
  Uri.no_sub_delims (X.apiKey creds) = true ->
  Uri.no_sub_delims (X.apiSecret creds) = true ->
  Uri.no_sub_delims (X.accessToken creds) = true ->
  Uri.no_sub_delims (X.accessSecret creds) = true ->
  Uri.no_sub_delims nonce = true ->
  Uri.no_sub_delims timestamp = true ->
  Uri.no_sub_delims url = true ->
  X.oauth_signature nonce timestamp method url creds
  = SignerSpec.signature method url (X.apiKey creds) (X.apiSecret creds)
      (X.accessToken creds) (X.accessSecret creds) nonce timestamp
  /\ X.oauth_signature Scenario.example_nonce Scenario.example_timestamp "POST"
       Scenario.example_url Scenario.rfc5849_creds
     = "XNcISOkWqxuJzT9Cd4T9ulTUJrk=".
Proof.
  intros Hk Hs Ht Hts Hn Hstamp Hu. split.
  - unfold X.oauth_signature, X.hmac_sha1_base64, SignerSpec.signature.
    rewrite (base_strings_agree nonce timestamp method url creds Hk Ht Hn Hstamp Hu).
    unfold X.signingKey, SignerSpec.signing_key, SignerSpec.PERCENT.
    now rewrite (encodeURIComponent_rfc3986 _ Hs),
                (encodeURIComponent_rfc3986 _ Hts).
  - vm_compute. reflexivity.
Qed.

Lemma oauth_signature_as_specified_witness :
  X.oauth_signature Scenario.example_nonce Scenario.example_timestamp "POST"
    Scenario.example_url Scenario.rfc5849_creds
  = SignerSpec.signature "POST" Scenario.example_url
      "dpf43f3p2l4k3l03" "kd94hf93k423kf44" "nnch734d00sl2jdk"
      "pfkkdhi9sl3r4s00" Scenario.example_nonce Scenario.example_timestamp.
Proof.
  apply (oauth_signature_as_specified Scenario.example_nonce
           Scenario.example_timestamp "POST" Scenario.example_url
           Scenario.rfc5849_creds); reflexivity.
Defined.

(** C4 fails as stated: at the stated inputs the signer does not produce
    [tnnArxj06cWHq44gCs1OSKk/jLY=].  That value is the signature of
    another request, a POST to [https://api.twitter.com/1/statuses/update.json]
    signed with other credentials and with the request parameters
    [include_entities] and [status] in the base string, which this signer
    never includes. *)
Lemma oauth_signature_is_not_the_stated_value :
  X.oauth_signature Scenario.example_nonce Scenario.example_timestamp "POST"
    Scenario.example_url Scenario.rfc5849_creds
  = "XNcISOkWqxuJzT9Cd4T9ulTUJrk="
  /\ String.eqb
       (X.oauth_signature Scenario.example_nonce Scenario.example_timestamp
          "POST" Scenario.example_url Scenario.rfc5849_creds)
       "tnnArxj06cWHq44gCs1OSKk/jLY=" = false
  /\ X.hmac_sha1_base64
       "kAcSOqF21Fu85e7zjz7ZN2U4ZRhfV3WpwPAoE3Z7kBw&LswwdoUaIvS8ltyTt5jkRh4J50vUPVVHtR2YPi5kE"
       ("POST&https%3A%2F%2Fapi.twitter.com%2F1%2Fstatuses%2Fupdate.json&"
        +:+ "include_entities%3Dtrue%26"
        +:+ "oauth_consumer_key%3Dxvz1evFS4wEEPTGEFPHBog%26"
        +:+ "oauth_nonce%3DkYjzVBB8Y0ZFabxSWbWovY3uYSQ2pTgmZeNu2VS4cg%26"
        +:+ "oauth_signature_method%3DHMAC-SHA1%26"
        +:+ "oauth_timestamp%3D1318622958%26"
        +:+ "oauth_token%3D370773112-GmHxMAgYyLbNEtIKZeRNFsMKPR9EyMZeS9weJAEb%26"
        +:+ "oauth_version%3D1.0%26"
        +:+ "status%3DHello%2520Ladies%2520%252B%2520Gentlemen%252C%2520a%2520signed%2520OAuth%2520request%2521")
     = "tnnArxj06cWHq44gCs1OSKk/jLY=".
Proof. repeat split; vm_compute; reflexivity. Qed.

(* ===================================================================== *)
(** ** Calls in flight together *)
(* ===================================================================== *)

Lemma list_sum_insert (budgets : list nat) (i n n' : nat) :
  budgets !! i = Some n ->
  list_sum (<[i := n']> budgets) + n = list_sum budgets + n'.
Proof.
  revert i. induction budgets as [|b bs IH]; intros i Hn; [discriminate|].
  destruct i as [|i].
  - injection Hn as ->.
    change (n' + list_sum bs + n = n + list_sum bs + n'). lia.
  - change (b + list_sum (<[i := n']> bs) + n = b + list_sum bs + n').
    specialize (IH i Hn). lia.
Qed.

Section Budgets.
Context {A : Type}.
Variable target : Http.Request -> bool.

Lemma sends_at_most_mono (n m : nat) (p : Prog A) :
  n <= m -> sends_at_most target n p -> sends_at_most target m p.
Proof.
  intros Hle H. revert m Hle.
  induction H; intros m Hle; try (constructor; auto; fail).
  destruct m as [|m]; [lia|]. apply SendsHit; [assumption|].
  intros r. apply H1. lia.
Qed.

Lemma sends_at_most_catch (n k : nat) (m : Prog A) (h : JsError -> Prog A) :
  sends_at_most target n m ->
  (forall e, sends_at_most target k (h e)) ->
  sends_at_most target (n + k) (catch m h).
Proof.
  intros H Hh. induction H; cbn [catch]; try (constructor; auto; fail).
  apply sends_at_most_mono with k; [lia | apply Hh].
Qed.

(** One step spends the budget it uses. *)
Lemma step_budget (n : nat) (p : Prog A) (w : World) :
  sends_at_most target n p ->
  exists n',
    sends_at_most target n' (fst (step p w))
    /\ Observe.hits target (trace (snd (step p w))) + n'
       <= Observe.hits target (trace w) + n.
Proof.
  assert (Hsame : forall e, (forall req reply, e <> EvFetch req reply) ->
            Observe.hits target (trace w ++ [e]) = Observe.hits target (trace w)).
  { intros e He. unfold Observe.hits. rewrite requests_app.
    destruct e; cbn; rewrite ?app_nil_r; try reflexivity.
    exfalso. now apply (He req reply). }
  intros H. destruct H; cbn [step fst snd].
  - exists n. split; [constructor | lia].
  - exists n. split; [constructor | lia].
  - exists n. split; [apply H|]. cbn [trace record].
    rewrite Hsame by discriminate. lia.
  - exists n. split; [assumption|]. cbn [trace record set_store].
    rewrite Hsame by discriminate. lia.
  - exists n. split; [apply H0|]. cbn [trace record].
    unfold Observe.hits. rewrite requests_app, List.filter_app, length_app.
    cbn. rewrite H. cbn. lia.
  - exists n. split; [apply H0|]. cbn [trace record].
    unfold Observe.hits. rewrite requests_app, List.filter_app, length_app.
    cbn. rewrite H. cbn. lia.
  - exists n. split; [assumption|]. cbn [trace record advance].
    rewrite Hsame by discriminate. lia.
  - unfold draw. cbn [fst snd trace]. exists n. split; [apply H | lia].
  - exists n. split; [apply H | lia].
Qed.

(** However the calls of a pool are interleaved, they send no more
    matching requests than their budgets add up to. *)
Lemma run_pool_budget (schedule : list nat) :
  forall (pool : list (Prog A)) (budgets : list nat) (w : World),
    Forall2 (sends_at_most target) budgets pool ->
    Observe.hits target (trace (snd (run_pool schedule pool w)))
    <= Observe.hits target (trace w) + list_sum budgets.
Proof.
  induction schedule as [|i rest IH]; intros pool budgets w Hb;
    cbn [run_pool snd]; [lia|].
  destruct (pool !! i) as [p|] eqn:Hp; [|now apply IH].
  destruct (Forall2_lookup_r _ _ _ _ _ Hb Hp) as (n & Hn & Hsam).
  destruct (step_budget n p w Hsam) as (n' & Hsam' & Hle).
  destruct (step p w) as [p' w'] eqn:Hstep. cbn [fst snd] in *.
  specialize (IH (<[i := p']> pool) (<[i := n']> budgets) w').
  etransitivity; [apply IH|].
  - apply Forall2_insert; assumption.
  - pose proof (list_sum_insert budgets i n n' Hn). lia.
Qed.

End Budgets.

Section BudgetOfBind.
Context {A B : Type}.
Variable target : Http.Request -> bool.

Lemma sends_at_most_bind (n k : nat) (m : Prog A) (f : A -> Prog B) :
  sends_at_most target n m ->
  (forall a, sends_at_most target k (f a)) ->
  sends_at_most target (n + k) (m ≫= f).
Proof.
  unfold mbind, prog_bind.
  intros H Hf. induction H; cbn [bind]; try (constructor; auto; fail).
  apply sends_at_most_mono with k; [lia | apply Hf].
Qed.

End BudgetOfBind.

Section SpotifyBudget.
Variable this : Spotify.SpotifyPlugin.
Local Abbreviation token := Spotify.is_token_request.

Lemma getToken_budget : sends_at_most token 0 (Spotify.getToken this).
Proof.
  unfold Spotify.getToken, Keychain.get, mbind, prog_bind. cbn [bind].
  constructor. intros [t|]; [destruct (String.eqb t "")|]; constructor.
Qed.

Lemma json_budget (res : Http.Response) : sends_at_most token 0 (json res).
Proof. unfold json. destruct (Http.content res); constructor. Qed.

Lemma getProp_budget (v : Json) (name : string) :
  sends_at_most token 0 (getProp v name).
Proof. destruct v; constructor. Qed.

Lemma fetch_budget (req : Http.Request) :
  sends_at_most token (if token req then 1 else 0) (fetch req).
Proof.
  unfold fetch. destruct (token req) eqn:Hreq.
  - apply SendsHit; [assumption|]. intros [r|]; constructor.
  - apply SendsMiss; [assumption|]. intros [r|]; constructor.
Qed.

Lemma api_request_is_not_token (t path : string) (options : Spotify.FetchOptions) :
  token (Spotify.api_request t path options) = false.
Proof. reflexivity. Qed.

Lemma token_request_is_token (rt cid : string) :
  token (Spotify.token_request rt cid) = true.
Proof. reflexivity. Qed.

Lemma respond_budget (res : Http.Response) :
  sends_at_most token 0 (Spotify.respond res).
Proof.
  unfold Spotify.respond.
  destruct ((Http.status res =? 204)%Z || (Http.status res =? 202)%Z);
    [constructor|].
  destruct (negb (Http.ok res)); [|apply json_budget].
  apply (sends_at_most_bind token 0 0).
  - apply (sends_at_most_catch token 0 0); [apply json_budget|].
    intros _. constructor.
  - intros err. apply (sends_at_most_bind token 0 0); [apply getProp_budget|].
    intros error. constructor.
Qed.

(** [refreshToken] sends at most one request to the token endpoint. *)
Lemma refreshToken_budget : sends_at_most token 1 (Spotify.refreshToken this).
Proof.
  unfold Spotify.refreshToken, Keychain.get, Keychain.set, mbind, prog_bind.
  cbn [bind]. constructor. intros rt. constructor. intros cid.
  destruct rt as [rt|]; [|constructor].
  destruct cid as [cid|]; [|constructor].
  destruct (String.eqb rt "" || String.eqb cid ""); [constructor|].
  apply SendsHit; [apply token_request_is_token|].
  intros [res|]; cbn [bind]; [|constructor].
  destruct (negb (Http.ok res)); [constructor|].
  apply (sends_at_most_bind token 0 0); [apply json_budget|]. intros data.
  apply (sends_at_most_bind token 0 0); [apply getProp_budget|]. intros access_token.
  destruct (JsVal.kept access_token) as [access|]; [|constructor].
  unfold mbind, prog_bind. cbn [bind]. constructor.
  destruct (JsVal.kept (JsVal.prop data "refresh_token"));
    cbn [bind]; repeat constructor.
Qed.

(** The retry issued after a refresh never refreshes again. *)
Lemma spotifyFetch_no_retry_budget (depth : nat) (path : string)
    (options : Spotify.FetchOptions) :
  sends_at_most token 0 (Spotify.spotifyFetch depth this path options false).
Proof.
  destruct depth as [|depth]; [constructor|]. cbn [Spotify.spotifyFetch].
  apply (sends_at_most_bind token 0 0); [apply getToken_budget|]. intros t.
  apply (sends_at_most_bind token 0 0).
  - pose proof (fetch_budget (Spotify.api_request t path options)) as H.
    rewrite api_request_is_not_token in H. exact H.
  - intros res. rewrite andb_false_r. apply respond_budget.
Qed.

(** One call sends at most one request to the token endpoint. *)
Lemma spotifyFetch_budget (depth : nat) (path : string)
    (options : Spotify.FetchOptions) (retry : bool) :
  sends_at_most token 1 (Spotify.spotifyFetch depth this path options retry).
Proof.
  destruct depth as [|depth]; [constructor|]. cbn [Spotify.spotifyFetch].
  apply (sends_at_most_bind token 0 1); [apply getToken_budget|]. intros t.
  apply (sends_at_most_bind token 0 1).
  - pose proof (fetch_budget (Spotify.api_request t path options)) as H.
    rewrite api_request_is_not_token in H. exact H.
  - intros res. destruct ((Http.status res =? 401)%Z && retry).
    + apply (sends_at_most_bind token 1 0); [apply refreshToken_budget|].
      intros newToken. destruct (JS.truthy newToken); [|constructor].
      apply spotifyFetch_no_retry_budget.
    + apply sends_at_most_mono with 0; [lia | apply respond_budget].
Qed.

End SpotifyBudget.

Section PoolFacts.
Context {A : Type}.

Lemma run_pool_settled (o : Outcome A) (w : World) (k : nat) :
  run_pool (repeat 0 k) [settled o] w = ([settled o], w).
Proof.
  induction k as [|k IH]; [reflexivity|].
  destruct o; cbn [repeat run_pool settled lookup list_lookup step] in *;
    exact IH.
Qed.

(** A pool of one call, given enough turns, is the call run on its own. *)
Lemma run_pool_alone (p : Prog A) :
  forall w, exists k, forall extra,
    run_pool (repeat 0 (k + extra)) [p] w
    = ([settled (fst (run p w))], snd (run p w)).
Proof.
  induction p as [a|e|d s key c IH|d s key v c IH|req c IH|ms c IH|n c IH|c IH];
    intros w.
  - exists 0. intros extra. apply (run_pool_settled (Returned a)).
  - exists 0. intros extra. apply (run_pool_settled (Thrown e)).
  - destruct (IH (store w !! (d, s, key)) (record (EvKeychainGet d s key (store w !! (d, s, key))) w))
      as [k Hk].
    exists (S k). intros extra. exact (Hk extra).
  - destruct (IH (record (EvKeychainSet d s key v)
                    (set_store (<[(d, s, key) := v]> (store w)) w))) as [k Hk].
    exists (S k). intros extra. exact (Hk extra).
  - destruct (IH (server w (requests (trace w)) req)
                 (record (EvFetch req (server w (requests (trace w)) req)) w))
      as [k Hk].
    exists (S k). intros extra. exact (Hk extra).
  - destruct (IH (record (EvSleep ms) (advance ms w))) as [k Hk].
    exists (S k). intros extra. exact (Hk extra).
  - destruct (IH (fst (draw n w)) (snd (draw n w))) as [k Hk].
    exists (S k). intros extra. exact (Hk extra).
  - destruct (IH (clock w) w) as [k Hk].
    exists (S k). intros extra. exact (Hk extra).
Qed.

End PoolFacts.

(* ===================================================================== *)
(** ** What calls are bound to send *)
(* ===================================================================== *)

Section Debts.
Context {A : Type}.
Variable reads : string -> string -> string -> option string -> Prop.
Variable replies : Http.Request -> Http.Reply -> Prop.
Variable target : Http.Request -> bool.

Local Abbreviation owes := (sends_at_least reads replies target).
Local Abbreviation fair := (answers_within reads replies).

Lemma sends_at_least_finished (n : nat) (p : Prog A) :
  owes n p -> finished p = true -> n = 0.
Proof. intros H. destruct H; cbn [finished]; congruence. Qed.

(** One step pays what it sends. *)
Lemma step_debt (n : nat) (p : Prog A) (w : World) :
  owes n p -> fair w ->
  fair (snd (step p w))
  /\ exists n',
       owes n' (fst (step p w))
       /\ Observe.hits target (trace w) + n
          <= Observe.hits target (trace (snd (step p w))) + n'.
Proof.
  assert (Hsame : forall e, (forall req reply, e <> EvFetch req reply) ->
            Observe.hits target (trace w ++ [e]) = Observe.hits target (trace w)).
  { intros e He. unfold Observe.hits. rewrite requests_app.
    destruct e; cbn; rewrite ?app_nil_r; try reflexivity.
    exfalso. now apply (He req reply). }
  intros H [Hreads Hreplies]. destruct H; cbn [step fst snd].
  - split; [now split|]. exists 0. split; [constructor | lia].
  - split; [now split|]. exists 0. split; [constructor | lia].
  - split; [now split|]. exists n. split; [apply H, Hreads|].
    cbn [trace record]. rewrite Hsame by discriminate. lia.
  - split.
    + split; [|exact Hreplies]. intros d' s' k'. cbn [store record set_store].
      destruct (decide ((d, s, k) = (d', s', k'))) as [[= <- <- <-]|Hne].
      * now rewrite lookup_insert_eq.
      * rewrite lookup_insert_ne by exact Hne. apply Hreads.
    + exists n. split; [assumption|]. cbn [trace record set_store].
      rewrite Hsame by discriminate. lia.
  - split; [now split|].
    exists (n - (if target req then 1 else 0)). split; [apply H, Hreplies|].
    cbn [trace record]. unfold Observe.hits.
    rewrite requests_app, List.filter_app, length_app. cbn.
    destruct (target req); cbn; lia.
  - split; [now split|]. exists n. split; [assumption|].
    cbn [trace record advance]. rewrite Hsame by discriminate. lia.
  - unfold draw. cbn [fst snd trace]. split; [now split|].
    exists n. split; [apply H | lia].
  - split; [now split|]. exists n. split; [apply H | lia].
Qed.

(** However the calls of a pool are interleaved, what they have sent and
    what they still owe make up for what they owed. *)
Lemma run_pool_debt (schedule : list nat) :
  forall (pool : list (Prog A)) (debts : list nat) (w : World),
    Forall2 owes debts pool -> fair w ->
    exists debts',
      Forall2 owes debts' (fst (run_pool schedule pool w))
      /\ Observe.hits target (trace w) + list_sum debts
         <= Observe.hits target (trace (snd (run_pool schedule pool w)))
            + list_sum debts'.
Proof.
  induction schedule as [|i rest IH]; intros pool debts w Hd Hw;
    cbn [run_pool].
  - exists debts. split; [exact Hd | cbn [snd]; lia].
  - destruct (pool !! i) as [p|] eqn:Hp; [|now apply IH].
    destruct (Forall2_lookup_r _ _ _ _ _ Hd Hp) as (n & Hn & Howes).
    destruct (step_debt n p w Howes Hw) as (Hw' & n' & Howes' & Hle).
    destruct (step p w) as [p' w'] eqn:Hstep. cbn [fst snd] in *.
    destruct (IH (<[i := p']> pool) (<[i := n']> debts) w') as (debts' & Hd' & Hle').
    + apply Forall2_insert; assumption.
    + exact Hw'.
    + exists debts'. split; [exact Hd'|].
      pose proof (list_sum_insert debts i n n' Hn). lia.
Qed.

(** When every call of the pool has settled, nothing is owed. *)
Lemma settled_pool_owes_nothing (debts : list nat) (pool : list (Prog A)) :
  Forall2 owes debts pool -> forallb finished pool = true ->
  list_sum debts = 0.
Proof.
  induction 1 as [|n p ns ps Hn _ IH]; [reflexivity|].
  cbn [forallb]. intros [Hp Hps]%andb_prop.
  change (n + list_sum ns = 0).
  rewrite (sends_at_least_finished n p Hn Hp), (IH Hps). reflexivity.
Qed.

Lemma finished_owes_nothing (p : Prog A) : finished p = true -> owes 0 p.
Proof. destruct p; try discriminate; constructor. Qed.

End Debts.

Section DebtOfBind.
Context {A B : Type}.
Variable reads : string -> string -> string -> option string -> Prop.
Variable replies : Http.Request -> Http.Reply -> Prop.
Variable target : Http.Request -> bool.

(** What [m] owes, [m ≫= f] owes, if what follows keeps within bounds. *)
Lemma sends_at_least_bind (n : nat) (m : Prog A) (f : A -> Prog B) :
  sends_at_least reads replies target n m ->
  (forall a, sends_at_least reads replies target 0 (f a)) ->
  sends_at_least reads replies target n (m ≫= f).
Proof.
  unfold mbind, prog_bind.
  intros H Hf. induction H; cbn [bind]; try (constructor; auto; fail).
  apply Hf.
Qed.

End DebtOfBind.

Section SpotifyDebt.
Variable this : Spotify.SpotifyPlugin.
Let dir := Keychain.configDir (Spotify.keychain this).

Local Abbreviation owes :=
  (sends_at_least (Spotify.credentials_stored this)
     Spotify.always_unauthorized Spotify.is_token_request).

Lemma credential_is_stored (k : string) (v : option string) :
  Spotify.credentials_stored this dir "spotify" k v ->
  k = "access_token" \/ k = "refresh_token" \/ k = "client_id" ->
  exists t, v = Some t /\ String.eqb t "" = false.
Proof.
  intros H Hk. specialize (H eq_refl eq_refl Hk).
  destruct v as [t|]; [|discriminate]. exists t. split; [reflexivity|].
  cbn [JS.truthy] in H. now apply negb_true_iff in H.
Qed.

Lemma kept_is_stored (k : string) (v : JsValue) (t : string) :
  JsVal.kept v = Some t ->
  Spotify.credentials_stored this dir "spotify" k (Some t).
Proof.
  intros H _ _ _. apply kept_nonempty in H. apply String.eqb_neq in H.
  cbn [JS.truthy]. now rewrite H.
Qed.

Lemma respond_owes_nothing (res : Http.Response) : owes 0 (Spotify.respond res).
Proof.
  apply finished_owes_nothing. unfold Spotify.respond.
  destruct (_ || _); [reflexivity|].
  destruct (negb _); [|apply finished_json].
  apply finished_bind.
  - apply finished_catch; [apply finished_json | reflexivity].
  - intros err. apply finished_bind; [apply finished_getProp | reflexivity].
Qed.

(** The retried call owes nothing. *)
Lemma spotifyFetch_no_retry_owes_nothing (depth : nat) (path : string)
    (options : Spotify.FetchOptions) :
  owes 0 (Spotify.spotifyFetch depth this path options false).
Proof.
  destruct depth as [|depth]; [constructor|]. cbn [Spotify.spotifyFetch].
  unfold Spotify.getToken, Keychain.get, fetch, mbind, prog_bind. cbn [bind].
  fold dir. constructor. intros v _.
  destruct v as [t|]; [destruct (String.eqb t "")|]; cbn [bind];
    try constructor.
  intros r _. cbn [Nat.sub].
  replace (0 - _) with 0 by (destruct (Spotify.is_token_request _); reflexivity).
  destruct r as [res|]; cbn [bind]; [|constructor].
  rewrite andb_false_r. apply respond_owes_nothing.
Qed.

(** A refresh with the credentials stored sends its token request. *)
Lemma refreshToken_owes_one : owes 1 (Spotify.refreshToken this).
Proof.
  unfold Spotify.refreshToken, Keychain.get, Keychain.set, fetch, mbind, prog_bind.
  cbn [bind]. fold dir.
  constructor. intros rt Hrt. constructor. intros cid Hcid.
  destruct (credential_is_stored _ _ Hrt) as (R & -> & HR); [auto|].
  destruct (credential_is_stored _ _ Hcid) as (C & -> & HC); [auto|].
  rewrite HR, HC. cbn [orb bind].
  constructor. intros r _. cbn [Spotify.is_token_request].
  change (Spotify.is_token_request (Spotify.token_request R C)) with true.
  cbn [Nat.sub].
  destruct r as [res|]; cbn [bind]; [|constructor].
  destruct (negb (Http.ok res)); cbn [bind]; [constructor|].
  apply (sends_at_least_bind _ _ _ 0);
    [apply finished_owes_nothing, finished_json|]. intros data.
  apply (sends_at_least_bind _ _ _ 0);
    [apply finished_owes_nothing, finished_getProp|]. intros access_token.
  destruct (JsVal.kept access_token) as [access|] eqn:Hacc; [|constructor].
  unfold mbind, prog_bind. cbn [bind].
  constructor; [exact (kept_is_stored _ _ _ Hacc)|].
  destruct (JsVal.kept (JsVal.prop data "refresh_token")) as [rot|] eqn:Hrot;
    cbn [bind]; [|constructor].
  constructor; [exact (kept_is_stored _ _ _ Hrot) | constructor].
Qed.

(** A call that finds the credentials and is answered 401 sends its own
    token request. *)
Lemma spotifyFetch_owes_one (depth : nat) (path : string)
    (options : Spotify.FetchOptions) :
  owes 1 (Spotify.spotifyFetch (S depth) this path options true).
Proof.
  cbn [Spotify.spotifyFetch].
  unfold Spotify.getToken, Keychain.get, fetch, mbind, prog_bind. cbn [bind].
  fold dir. constructor. intros v Hv.
  destruct (credential_is_stored _ _ Hv) as (t & -> & Ht); [auto|].
  rewrite Ht. cbn [bind].
  constructor. intros r Hr.
  change (Spotify.is_token_request (Spotify.api_request t path options)) with false.
  cbn [Nat.sub].
  destruct (Hr eq_refl) as (res & -> & H401). cbn [bind].
  rewrite H401. cbn [Z.eqb Pos.eqb andb].
  apply (sends_at_least_bind (Spotify.credentials_stored this)
           Spotify.always_unauthorized Spotify.is_token_request 1
           (Spotify.refreshToken this));
    [apply refreshToken_owes_one|].
  intros newToken. destruct (JS.truthy newToken); [|constructor].
  apply spotifyFetch_no_retry_owes_nothing.
Qed.

End SpotifyDebt.




(* ===================================================================== *)
(** ** Programs that stay within limits *)
(* ===================================================================== *)

Section WithinFacts.
Context {A : Type}.

Lemma within_weaken (L L' : Limits) (p : Prog A) :
  (forall req, may_send L req -> may_send L' req) ->
  (forall d s k, may_write L d s k -> may_write L' d s k) ->
  (forall e, may_throw L e -> may_throw L' e) ->
  within L p -> within L' p.
Proof.
  intros Hs Hw Ht H. induction H; constructor; auto.
Qed.

(** [try { m } catch (e) { h e }]: the errors of [m] stop at the handler. *)
Lemma within_catch (L : Limits) (caught : JsError -> Prop) (m : Prog A)
    (h : JsError -> Prog A) :
  within (mkLimits (may_send L) (may_write L) caught) m ->
  (forall e, caught e -> within L (h e)) ->
  within L (catch m h).
Proof.
  intros H Hh.
  remember (mkLimits (may_send L) (may_write L) caught) as L0 eqn:E.
  induction H; subst L0; cbn [catch may_send may_write may_throw] in *;
    try (constructor; auto; fail).
  now apply Hh.
Qed.

(** A run of a program within limits: every event it adds to the trace
    is within them, so is the error it ends with, and a credential it
    may not write keeps its value. *)
Lemma within_run (L : Limits) (p : Prog A) :
  within L p ->
  forall w,
    (exists evs, trace (snd (run p w)) = trace w ++ evs
                 /\ Forall (event_within L) evs)
    /\ (forall e, fst (run p w) = Thrown e -> may_throw L e)
    /\ (forall d s k, ~ may_write L d s k ->
                      store (snd (run p w)) !! (d, s, k) = store w !! (d, s, k)).
Proof.
  induction 1 as [a|e He|d s k c _ IH|d s k v c Hw _ IH|req c Hs _ IH
                 |ms c _ IH|n c _ IH|c _ IH]; intros w.
  - cbn. split; [exists []; now rewrite app_nil_r|]. split; [discriminate|auto].
  - cbn. split; [exists []; now rewrite app_nil_r|].
    split; [now intros e' [= <-]|auto].
  - cbn [run].
    destruct (IH (store w !! (d, s, k))
                 (record (EvKeychainGet d s k (store w !! (d, s, k))) w))
      as ((evs & Hev & Hall) & Hthrow & Hstore).
    split; [|split; [exact Hthrow | exact Hstore]].
    exists (EvKeychainGet d s k (store w !! (d, s, k)) :: evs).
    split; [rewrite Hev; cbn [trace record]; now rewrite <- app_assoc|].
    constructor; [exact I | exact Hall].
  - cbn [run].
    destruct (IH (record (EvKeychainSet d s k v)
                    (set_store (<[(d, s, k) := v]> (store w)) w)))
      as ((evs & Hev & Hall) & Hthrow & Hstore).
    split; [|split; [exact Hthrow|]].
    + exists (EvKeychainSet d s k v :: evs).
      split; [rewrite Hev; cbn [trace record set_store]; now rewrite <- app_assoc|].
      constructor; [exact Hw | exact Hall].
    + intros d' s' k' Hno. rewrite (Hstore d' s' k' Hno).
      cbn [store record set_store].
      apply lookup_insert_ne. intros [= -> -> ->]. now apply Hno.
  - cbn [run].
    destruct (IH (server w (requests (trace w)) req)
                 (record (EvFetch req (server w (requests (trace w)) req)) w))
      as ((evs & Hev & Hall) & Hthrow & Hstore).
    split; [|split; [exact Hthrow | exact Hstore]].
    exists (EvFetch req (server w (requests (trace w)) req) :: evs).
    split; [rewrite Hev; cbn [trace record]; now rewrite <- app_assoc|].
    constructor; [exact Hs | exact Hall].
  - cbn [run].
    destruct (IH (record (EvSleep ms) (advance ms w)))
      as ((evs & Hev & Hall) & Hthrow & Hstore).
    split; [|split; [exact Hthrow | exact Hstore]].
    exists (EvSleep ms :: evs).
    split; [rewrite Hev; cbn [trace record advance]; now rewrite <- app_assoc|].
    constructor; [exact I | exact Hall].
  - cbn [run]. unfold draw.
    exact (IH _ (mkWorld (store w) (server w) (clock w) (entropy w)
                   (drawn w + n) (trace w))).
  - cbn [run]. exact (IH (clock w) w).
Qed.

End WithinFacts.

Section WithinBind.
Context {A B : Type}.

Lemma within_bind (L : Limits) (m : Prog A) (f : A -> Prog B) :
  within L m -> (forall a, within L (f a)) -> within L (m ≫= f).
Proof.
  unfold mbind, prog_bind.
  intros H Hf. induction H; cbn [bind]; try (constructor; auto; fail).
  apply Hf.
Qed.

End WithinBind.


Section PrimitivesWithin.
Variable L : Limits.

Lemma within_keychain_get kc s k : within L (Keychain.get kc s k).
Proof. constructor. intros v. constructor. Qed.

Lemma within_keychain_set kc s k v :
  may_write L (Keychain.configDir kc) s k -> within L (Keychain.set kc s k v).
Proof. intros H. constructor; [exact H | constructor]. Qed.

Lemma within_fetch req :
  may_send L req -> may_throw L NetworkError -> within L (fetch req).
Proof.
  intros Hs Ht. constructor; [exact Hs|]. intros [r|]; now constructor.
Qed.

Lemma within_json res : may_throw L SyntaxError -> within L (json res).
Proof. intros H. unfold json. destruct (Http.content res); now constructor. Qed.

Lemma within_getProp v name : may_throw L TypeError -> within L (getProp v name).
Proof. intros H. destruct v; now constructor. Qed.

End PrimitivesWithin.


Section SpotifyWithin.
Variable this : Spotify.SpotifyPlugin.
Variables (path : string) (options : Spotify.FetchOptions).
Local Abbreviation E := (Spotify.envelope this path options).

Lemma getToken_within : within E (Spotify.getToken this).
Proof.
  unfold Spotify.getToken. apply within_bind; [apply within_keychain_get|].
  intros [t|]; [destruct (String.eqb t "")|]; constructor; discriminate.
Qed.

Lemma respond_within res : within E (Spotify.respond res).
Proof.
  unfold Spotify.respond.
  destruct (_ || _); [constructor|].
  destruct (negb _); [|apply within_json; discriminate].
  apply within_bind.
  - apply within_catch with (caught := fun _ => True).
    + apply within_json. exact I.
    + intros e _. constructor.
  - intros err. apply within_bind; [apply within_getProp; discriminate|].
    intros error. constructor. discriminate.
Qed.

Lemma refreshToken_within : within E (Spotify.refreshToken this).
Proof.
  unfold Spotify.refreshToken.
  apply within_bind; [apply within_keychain_get|]. intros rt.
  apply within_bind; [apply within_keychain_get|]. intros cid.
  destruct rt as [rt|]; [|constructor].
  destruct cid as [cid|]; [|constructor].
  destruct (_ || _); [constructor|].
  apply within_bind.
  { apply within_fetch; [right; eauto | discriminate]. }
  intros res. destruct (negb _); [constructor|].
  apply within_bind; [apply within_json; discriminate|]. intros data.
  apply within_bind; [apply within_getProp; discriminate|]. intros access_token.
  destruct (JsVal.kept access_token) as [access|]; [|constructor].
  apply within_bind.
  { apply within_keychain_set. cbn. auto. }
  intros _.
  destruct (JsVal.kept _) as [rotated|]; [|constructor].
  apply within_bind; [|intros _; constructor].
  apply within_keychain_set. cbn. auto.
Qed.

Lemma spotifyFetch_within_once d :
  within E (Spotify.spotifyFetch (S d) this path options false).
Proof.
  cbn [Spotify.spotifyFetch].
  apply within_bind; [apply getToken_within|]. intros t.
  apply within_bind.
  { apply within_fetch; [left; eauto | discriminate]. }
  intros res. rewrite andb_false_r. apply respond_within.
Qed.

Lemma spotifyFetch_within d retry :
  within E (Spotify.spotifyFetch (S (S d)) this path options retry).
Proof.
  destruct retry; [|apply spotifyFetch_within_once].
  rewrite spotifyFetch_unfold.
  apply within_bind; [apply getToken_within|]. intros t.
  apply within_bind.
  { apply within_fetch; [left; eauto | discriminate]. }
  intros res. destruct (_ && _); [|apply respond_within].
  apply within_bind; [apply refreshToken_within|]. intros newToken.
  destruct (JS.truthy newToken); [apply spotifyFetch_within_once|].
  constructor. discriminate.
Qed.

(** Without a retry the nested call is never reached. *)
Lemma run_spotifyFetch_no_retry d w :
  run (Spotify.spotifyFetch (S d) this path options false) w
  = run (Spotify.spotifyFetch 1 this path options false) w.
Proof.
  rewrite !spotifyFetch_unfold, !run_bind.
  destruct (run (Spotify.getToken this) w) as [[t|e] w1]; [|reflexivity].
  rewrite !run_bind.
  destruct (run (fetch _) w1) as [[res|e] w2]; [|reflexivity].
  now rewrite andb_false_r.
Qed.

End SpotifyWithin.

(** X1: [spotifyFetch] re-enters itself at most once.  The call it makes
    after a refresh runs with [retry = false] and cannot re-enter, so a
    nesting bound of two is never reached, and any larger bound gives the
    same run. *)
Theorem spotifyFetch_nests_at_most_twice (this : Spotify.SpotifyPlugin)
    (path : string) (options : Spotify.FetchOptions) (retry : bool)
    (d : nat) (w : World) :
  run (Spotify.spotifyFetch (S (S d)) this path options retry) w
  = run (Spotify.spotifyFetch 2 this path options retry) w
  /\ fst (run (Spotify.spotifyFetch 2 this path options retry) w)
     <> Thrown RangeError.
Proof.
  split.
  - destruct retry.
    + rewrite (spotifyFetch_unfold this (S d) path options true),
              (spotifyFetch_unfold this 1 path options true), !run_bind.
      destruct (run (Spotify.getToken this) w) as [[t|e] w1]; [|reflexivity].
      rewrite !run_bind.
      destruct (run (fetch _) w1) as [[res|e] w2]; [|reflexivity].
      destruct ((Http.status res =? 401)%Z && true); [|reflexivity].
      rewrite !run_bind.
      destruct (run (Spotify.refreshToken this) w2) as [[newToken|e] w3];
        [|reflexivity].
      destruct (JS.truthy newToken); [|reflexivity].
      apply run_spotifyFetch_no_retry.
    + now rewrite (run_spotifyFetch_no_retry this path options (S d)),
                  (run_spotifyFetch_no_retry this path options 1).
  - intros Hrange.
    destruct (within_run _ _ (spotifyFetch_within this path options 0 retry) w)
      as (_ & Hthrow & _).
    now apply (Hthrow RangeError Hrange).
Qed.

(** X3: whatever the upstream replies, a [spotifyFetch] call changes no
    entry of the Secret Store other than this plugin's
    [spotify/access_token] and [spotify/refresh_token]. *)
Theorem spotifyFetch_writes_only_its_tokens (this : Spotify.SpotifyPlugin)
    (path : string) (options : Spotify.FetchOptions) (retry : bool)
    (d : nat) (w : World) (dir service key : string) :
  (dir, service, key)
  <> (Keychain.configDir (Spotify.keychain this), "spotify", "access_token") ->
  (dir, service, key)
  <> (Keychain.configDir (Spotify.keychain this), "spotify", "refresh_token") ->
  store (snd (run (Spotify.spotifyFetch (S (S d)) this path options retry) w))
    !! (dir, service, key)
  = store w !! (dir, service, key).
Proof.
  intros Haccess Hrefresh.
  destruct (within_run _ _ (spotifyFetch_within this path options d retry) w)
    as (_ & _ & Hstore).
  apply Hstore. cbn. intros (-> & -> & [-> | ->]); congruence.
Qed.

Lemma spotifyFetch_writes_only_its_tokens_witness :
  store (snd (run (Spotify.spotifyFetch 2 Scenario.spotify "/me"
                     Spotify.no_options true) Scenario.spotify_expired))
    !! (Scenario.dir, "spotify", "client_id")
  = store Scenario.spotify_expired !! (Scenario.dir, "spotify", "client_id").
Proof.
  apply (spotifyFetch_writes_only_its_tokens Scenario.spotify "/me"
           Spotify.no_options true 0 Scenario.spotify_expired
           Scenario.dir "spotify" "client_id"); intros [=].
Defined.

(** X2: whenever [refreshToken] yields [null] (a credential is missing,
    the token endpoint refuses, the reply has no [access_token]) it has
    written nothing: the store is as it was and no write to the key
    chain was made.  The tokens of the token endpoint are taken to be
    ones the key chain can keep ([Spotify.keepable_tokens]). *)
Theorem refreshToken_failure_leaves_the_store (this : Spotify.SpotifyPlugin)
    (w : World) :
  Spotify.keepable_tokens (server w) ->
  fst (run (Spotify.refreshToken this) w) = Returned None ->
  store (snd (run (Spotify.refreshToken this) w)) = store w
  /\ exists evs,
       trace (snd (run (Spotify.refreshToken this) w)) = trace w ++ evs
       /\ List.Forall (fun e => forall d s k v, e <> EvKeychainSet d s k v) evs.
Proof.
  intros _. rewrite run_refreshToken. cbv zeta.
  assert (Hthree : forall a b c : Event,
            trace (record c (record b (record a w))) = trace w ++ [a; b; c]).
  { intros. cbn [trace record]. now rewrite <- !app_assoc. }
  destruct (JS.truthy _ && JS.truthy _).
  2: { intros _. split; [reflexivity|]. eexists. cbn [snd trace record].
       rewrite <- app_assoc. split; [reflexivity|].
       repeat constructor; discriminate. }
  destruct (server w _ _) as [res|]; [|discriminate].
  assert (Hnone : forall o : Outcome (option string),
            let w3 := record (EvFetch (Spotify.token_request
                       (JS.nullish (store w !! (Keychain.configDir (Spotify.keychain this), "spotify", "refresh_token")) "")
                       (JS.nullish (store w !! (Keychain.configDir (Spotify.keychain this), "spotify", "client_id")) ""))
                       (Http.Responds res))
                  (record (EvKeychainGet (Keychain.configDir (Spotify.keychain this)) "spotify" "client_id"
                             (store w !! (Keychain.configDir (Spotify.keychain this), "spotify", "client_id")))
                     (record (EvKeychainGet (Keychain.configDir (Spotify.keychain this)) "spotify" "refresh_token"
                                (store w !! (Keychain.configDir (Spotify.keychain this), "spotify", "refresh_token"))) w)) in
            store (snd (o, w3)) = store w
            /\ exists evs,
                 trace (snd (o, w3)) = trace w ++ evs
                 /\ List.Forall (fun e => forall d s k v, e <> EvKeychainSet d s k v) evs).
  { intros o w3. split; [reflexivity|]. eexists. cbn [snd]. unfold w3.
    rewrite Hthree. split; [reflexivity|]. repeat constructor; discriminate. }
  destruct (negb (Http.ok res)); [intros _; apply Hnone|].
  destruct (Http.content res) as [|src data|]; try discriminate.
  destruct data; try discriminate;
    (destruct (JsVal.kept (JsVal.prop _ "access_token")) as [access|];
     [discriminate | intros _; apply Hnone]).
Qed.

Lemma refreshToken_failure_leaves_the_store_witness :
  fst (run (Spotify.refreshToken Scenario.spotify) Scenario.spotify_revoked)
  = Returned None
  /\ store (snd (run (Spotify.refreshToken Scenario.spotify)
                   Scenario.spotify_revoked))
     = store Scenario.spotify_revoked.
Proof.
  split; [vm_compute; reflexivity|].
  apply (refreshToken_failure_leaves_the_store Scenario.spotify
           Scenario.spotify_revoked).
  - exact spotify_revoked_server_keepable.
  - vm_compute. reflexivity.
Defined.

Section ReadOnlyEnvelopes.

Local Abbreviation R := reads_only.

Lemma gmailFetch_reads_only g path options :
  within R (Gmail.gmailFetch g path options).
Proof.
  unfold Gmail.gmailFetch, Gmail.getToken.
  apply within_bind.
  { apply within_bind; [apply within_keychain_get|].
    intros [t|]; [destruct (String.eqb t "")|]; now constructor. }
  intros token. apply within_bind; [now apply within_fetch|].
  intros res. destruct (negb _); [|now apply within_json].
  destruct (_ =? _)%Z; now constructor.
Qed.

Lemma calFetch_reads_only c path options :
  within R (Gcal.calFetch c path options).
Proof.
  unfold Gcal.calFetch, Gcal.getToken.
  apply within_bind.
  { apply within_bind; [apply within_keychain_get|].
    intros [t|]; [destruct (String.eqb t "")|]; now constructor. }
  intros token. apply within_bind; [now apply within_fetch|].
  intros res. destruct (negb _).
  - destruct (_ =? _)%Z; now constructor.
  - destruct (_ =? _)%Z; [constructor | now apply within_json].
Qed.

Lemma n8nFetch_reads_only n path options :
  within R (N8n.n8nFetch n path options).
Proof.
  unfold N8n.n8nFetch, N8n.getConfig.
  apply within_bind.
  { apply within_bind; [apply within_keychain_get|].
    intros [key|]; [|now constructor].
    destruct (String.eqb key ""); [now constructor|].
    apply within_bind; [apply within_keychain_get|]. intros rawUrl. constructor. }
  intros cfg. apply within_bind; [now apply within_fetch|].
  intros res. destruct (_ =? _)%Z; [constructor|].
  destruct (negb _); [|now apply within_json].
  apply within_bind.
  - apply within_catch with (caught := fun _ => True);
      [now apply within_json | intros; constructor].
  - intros err. apply within_bind; [now apply within_getProp|].
    intros message. now constructor.
Qed.

Lemma getOAuthCreds_reads_only x : within R (X.getOAuthCreds x).
Proof.
  unfold X.getOAuthCreds.
  do 4 (apply within_bind; [apply within_keychain_get|]; intros ?).
  destruct (_ || _); now constructor.
Qed.

Lemma buildOAuthHeader_reads_only method url creds :
  within R (X.buildOAuthHeader method url creds).
Proof. unfold X.buildOAuthHeader. repeat (constructor; intros). Qed.

Lemma api_error_reads_only res : within R (X.api_error res).
Proof.
  unfold X.api_error. apply within_bind; [|intros; now constructor].
  apply within_catch with (caught := fun _ => True); [|intros; constructor].
  apply within_bind; [now apply within_json|]. intros errJSON.
  apply within_bind; [now apply within_getProp|]. intros detail. constructor.
Qed.

Lemma retry_loop_reads_only {A : Type} policy (fn : Prog A) left :
  within R fn ->
  forall attempt, within R (Shared.retry_loop policy attempt left fn).
Proof.
  intros Hfn. induction left as [|left IH]; intros attempt;
    cbn [Shared.retry_loop]; [exact Hfn|].
  apply within_catch with (caught := fun _ => True); [exact Hfn|].
  intros e _. destruct (Shared.transient e); [|now constructor].
  constructor. apply IH.
Qed.

Lemma xPost_reads_only policy x path body :
  within R (X.xPost policy x path body).
Proof.
  unfold X.xPost.
  apply within_bind; [apply getOAuthCreds_reads_only|]. intros creds.
  apply within_bind; [apply buildOAuthHeader_reads_only|]. intros authHeader.
  apply retry_loop_reads_only.
  apply within_bind; [now apply within_fetch|]. intros res.
  destruct (negb _); [apply api_error_reads_only | now apply within_json].
Qed.

Lemma reads_only_run {A : Type} (p : Prog A) (w : World) :
  within R p -> store (snd (run p w)) = store w.
Proof.
  intros H. destruct (within_run _ _ H w) as (_ & _ & Hstore).
  apply map_eq. intros [[d s] k]. apply Hstore. cbn. tauto.
Qed.

End ReadOnlyEnvelopes.

(** X4: [gmailFetch], [calFetch], [n8nFetch] and [xPost] never write to
    the Secret Store: after any run of any of them, whatever the upstream
    replies and however often the retry helper runs the request again,
    the store is as it was. *)
Theorem envelopes_never_write_the_store (w : World) :
  (forall g path options,
      store (snd (run (Gmail.gmailFetch g path options) w)) = store w)
  /\ (forall c path options,
         store (snd (run (Gcal.calFetch c path options) w)) = store w)
  /\ (forall n path options,
         store (snd (run (N8n.n8nFetch n path options) w)) = store w)
  /\ (forall policy x path body,
         store (snd (run (X.xPost policy x path body) w)) = store w).
Proof.
  repeat split; intros; apply reads_only_run.
  - apply gmailFetch_reads_only.
  - apply calFetch_reads_only.
  - apply n8nFetch_reads_only.
  - apply xPost_reads_only.
Qed.

(* ===================================================================== *)
(** ** Calls without their credential *)
(* ===================================================================== *)

Lemma truthy_false (v : option string) :
  JS.truthy v = false -> v = None \/ v = Some "".
Proof.
  destruct v as [s|]; [|now left]. cbn. intros H. right.
  apply negb_false_iff, String.eqb_eq in H. now subst.
Qed.

(** X5: without its credential an envelope sends nothing.  When the
    stored access token (the API key for n8n) is absent or empty,
    [spotifyFetch], [gmailFetch], [calFetch] and [n8nFetch] fail with the
    not-authenticated error after the one read of the credential: no
    request is sent. *)
Theorem missing_credential_sends_nothing (w : World) :
  (forall s path options retry d,
      let dir := Keychain.configDir (Spotify.keychain s) in
      let token := store w !! (dir, "spotify", "access_token") in
      JS.truthy token = false ->
      run (Spotify.spotifyFetch (S d) s path options retry) w
      = (Thrown (Error Spotify.NOT_AUTHENTICATED),
         record (EvKeychainGet dir "spotify" "access_token" token) w))
  /\ (forall g path options,
         let dir := Keychain.configDir (Gmail.keychain g) in
         let token := store w !! (dir, "google", "access_token") in
         JS.truthy token = false ->
         run (Gmail.gmailFetch g path options) w
         = (Thrown (Error Gmail.NOT_AUTHENTICATED),
            record (EvKeychainGet dir "google" "access_token" token) w))
  /\ (forall c path options,
         let dir := Keychain.configDir (Gcal.keychain c) in
         let token := store w !! (dir, "google", "access_token") in
         JS.truthy token = false ->
         run (Gcal.calFetch c path options) w
         = (Thrown (Error Gcal.NOT_AUTHENTICATED),
            record (EvKeychainGet dir "google" "access_token" token) w))
  /\ (forall n path options,
         let dir := Keychain.configDir (N8n.keychain n) in
         let apiKey := store w !! (dir, "n8n", "api_key") in
         JS.truthy apiKey = false ->
         run (N8n.n8nFetch n path options) w
         = (Thrown (Error N8n.NOT_CONFIGURED),
            record (EvKeychainGet dir "n8n" "api_key" apiKey) w)).
Proof.
  repeat split; intros.
  - subst token dir. rewrite spotifyFetch_unfold, run_bind, run_getToken.
    destruct (truthy_false _ H) as [-> | ->]; reflexivity.
  - subst token dir. unfold Gmail.gmailFetch. rewrite run_bind, run_gmail_getToken.
    destruct (truthy_false _ H) as [-> | ->]; reflexivity.
  - subst token dir. unfold Gcal.calFetch, Gcal.getToken.
    rewrite !run_bind, run_keychain_get.
    destruct (truthy_false _ H) as [-> | ->]; reflexivity.
  - subst apiKey dir. unfold N8n.n8nFetch, N8n.getConfig.
    rewrite !run_bind, run_keychain_get.
    destruct (truthy_false _ H) as [-> | ->]; reflexivity.
Qed.

Lemma missing_credential_sends_nothing_witness :
  run (Gmail.gmailFetch Scenario.gmail "/messages" (Gmail.mkOptions None undefined))
      Scenario.signed_out
  = (Thrown (Error Gmail.NOT_AUTHENTICATED),
     record (EvKeychainGet Scenario.dir "google" "access_token" None)
       Scenario.signed_out).
Proof.
  destruct (missing_credential_sends_nothing Scenario.signed_out)
    as (_ & Hgmail & _ & _).
  apply Hgmail. reflexivity.
Defined.

(** X6: when any of the four X write credentials is absent or empty,
    [xPost] and the [x_delete_tweet] handler fail with the
    not-configured error after the four reads: no nonce is drawn and no
    request is sent. *)
Theorem incomplete_x_credentials_send_nothing (policy : Shared.RetryPolicy)
    (this : X.XPlugin) (w : World) :
  let dir := Keychain.configDir (X.keychain this) in
  let apiKey := store w !! (dir, "x", "api_key") in
  let apiSecret := store w !! (dir, "x", "api_secret") in
  let accessToken := store w !! (dir, "x", "access_token") in
  let accessSecret := store w !! (dir, "x", "access_secret") in
  let w' := record (EvKeychainGet dir "x" "access_secret" accessSecret)
              (record (EvKeychainGet dir "x" "access_token" accessToken)
                 (record (EvKeychainGet dir "x" "api_secret" apiSecret)
                    (record (EvKeychainGet dir "x" "api_key" apiKey) w))) in
  JS.truthy apiKey && JS.truthy apiSecret
  && JS.truthy accessToken && JS.truthy accessSecret = false ->
  (forall path body,
      run (X.xPost policy this path body) w
      = (Thrown (Error X.WRITE_NOT_CONFIGURED), w'))
  /\ (forall tweetId,
         run (handler (X.x_delete_tweet this) tweetId) w
         = (Thrown (Error X.WRITE_NOT_CONFIGURED), w')).
Proof.
  intros dir apiKey apiSecret accessToken accessSecret w' Hmissing.
  assert (Hcreds : run (X.getOAuthCreds this) w
                   = (Thrown (Error X.WRITE_NOT_CONFIGURED), w')).
  { unfold X.getOAuthCreds.
    rewrite run_bind, run_keychain_get. fold dir. fold apiKey.
    rewrite run_bind, run_keychain_get. fold dir. cbn [store record]. fold apiSecret.
    rewrite run_bind, run_keychain_get. fold dir. cbn [store record]. fold accessToken.
    rewrite run_bind, run_keychain_get. fold dir. cbn [store record]. fold accessSecret.
    fold w'.
    replace (negb (JS.truthy apiKey) || negb (JS.truthy apiSecret)
             || negb (JS.truthy accessToken) || negb (JS.truthy accessSecret))
      with true; [reflexivity|].
    clearbody apiKey apiSecret accessToken accessSecret. clear w'.
    destruct (JS.truthy apiKey), (JS.truthy apiSecret),
             (JS.truthy accessToken), (JS.truthy accessSecret);
      cbn [negb orb andb] in *; congruence. }
  split; intros.
  - unfold X.xPost. now rewrite run_bind, Hcreds.
  - cbn [handler X.x_delete_tweet]. now rewrite run_bind, Hcreds.
Qed.

Lemma incomplete_x_credentials_send_nothing_witness :
  run (X.xPost Scenario.retry_thrice Scenario.x "/tweets" (JObj [("text", JStr "hi")]))
      Scenario.x_half_configured
  = (Thrown (Error X.WRITE_NOT_CONFIGURED),
     record (EvKeychainGet Scenario.dir "x" "access_secret" None)
       (record (EvKeychainGet Scenario.dir "x" "access_token" None)
          (record (EvKeychainGet Scenario.dir "x" "api_secret" (Some "consumer-secret"))
             (record (EvKeychainGet Scenario.dir "x" "api_key" (Some "consumer-key"))
                Scenario.x_half_configured)))).
Proof.
  destruct (incomplete_x_credentials_send_nothing Scenario.retry_thrice
              Scenario.x Scenario.x_half_configured) as [Hpost _];
    [reflexivity | apply Hpost].
Defined.

(* ===================================================================== *)
(** ** X: the nonce, and the request that is sent once *)
(* ===================================================================== *)

Section NonceFacts.

Local Abbreviation is_hex := (Uri.is_one_of "0123456789abcdef").

Lemma hex_byte_digits (b : Z) :
  (0 <= b < 256)%Z ->
  exists c1 c2, Bytes.hex_byte false b = String c1 (String c2 EmptyString)
                /\ is_hex c1 = true /\ is_hex c2 = true.
Proof.
  intros Hb.
  assert (Hall : forallb (fun n =>
            match Bytes.hex_byte false (Z.of_nat n) with
            | String c1 (String c2 EmptyString) => is_hex c1 && is_hex c2
            | _ => false
            end) (seq 0 256) = true) by (vm_compute; reflexivity).
  rewrite forallb_forall in Hall.
  specialize (Hall (Z.to_nat b)).
  rewrite Z2Nat.id in Hall by lia.
  assert (Hin : In (Z.to_nat b) (seq 0 256)) by (apply in_seq; lia).
  specialize (Hall Hin).
  destruct (Bytes.hex_byte false b) as [|c1 [|c2 [|? ?]]]; try discriminate.
  apply andb_true_iff in Hall. exists c1, c2. tauto.
Qed.

Lemma hex_is_alnum (c : ascii) : is_hex c = true -> Uri.is_alnum c = true.
Proof.
  unfold Uri.is_one_of. cbn [list_ascii_of_string existsb].
  rewrite !orb_true_iff.
  intros H. repeat destruct H as [H|H];
    try (apply Ascii.eqb_eq in H; subst c; reflexivity).
  discriminate.
Qed.

Lemma hex_digits (bs : list Z) :
  Forall (fun b => (0 <= b < 256)%Z) bs ->
  String.length (Bytes.hex bs) = 2 * length bs
  /\ forallb is_hex (list_ascii_of_string (Bytes.hex bs)) = true.
Proof.
  induction 1 as [|b bs Hb _ [IHlen IHall]]; [split; reflexivity|].
  destruct (hex_byte_digits b Hb) as (c1 & c2 & E & H1 & H2).
  cbn [Bytes.hex]. rewrite E. rewrite !append_cons, append_nil_l.
  cbn [String.length list_ascii_of_string forallb length].
  rewrite IHlen, IHall, H1, H2. split; [lia | reflexivity].
Qed.

Lemma encodeURIComponent_alnum (s : string) :
  forallb Uri.is_alnum (list_ascii_of_string s) = true ->
  Uri.encodeURIComponent s = s.
Proof.
  induction s as [|c s IH]; [reflexivity|].
  cbn [list_ascii_of_string forallb Uri.encodeURIComponent].
  intros H. apply andb_true_iff in H as [Hc Hs].
  rewrite Hc, (IH Hs). cbn [orb]. now rewrite append_cons, append_nil_l.
Qed.

Lemma draw_bytes (n : nat) (w : World) :
  Forall (fun b => (0 <= b < 256)%Z) (fst (draw n w))
  /\ length (fst (draw n w)) = n.
Proof.
  unfold draw. cbn [fst]. split.
  - apply List.Forall_forall. intros b Hin. apply in_map_iff in Hin as (i & <- & _).
    apply Z.mod_pos_bound. lia.
  - now rewrite length_map, length_seq.
Qed.

End NonceFacts.

(** X8: the nonce of [buildOAuthHeader] is 32 lower-case hexadecimal
    digits, whatever bytes [crypto.randomBytes] hands out, so
    percent-encoding leaves it as it is; the timestamp is the clock in
    whole seconds. *)
Theorem oauth_nonce_is_32_hex_digits (method url : string)
    (creds : X.OAuthCreds) (w : World) :
  let nonce := Bytes.hex (fst (draw 16 w)) in
  let timestamp := JsVal.string_of_Z (clock w / 1000) in
  fst (run (X.buildOAuthHeader method url creds) w)
  = Returned (X.buildOAuthHeaderWith nonce timestamp method url creds)
  /\ String.length nonce = 32
  /\ forallb (Uri.is_one_of "0123456789abcdef") (list_ascii_of_string nonce) = true
  /\ Uri.encodeURIComponent nonce = nonce.
Proof.
  intros nonce timestamp.
  destruct (draw_bytes 16 w) as [Hbytes Hlen].
  destruct (hex_digits _ Hbytes) as [Hnlen Hhex]. fold nonce in Hnlen, Hhex.
  split; [|split; [|split]].
  - unfold X.buildOAuthHeader. cbn [run].
    destruct (draw 16 w) as [bs w'] eqn:E. cbn [run fst].
    subst nonce timestamp. cbn [fst].
    unfold draw in E. injection E as _ <-. reflexivity.
  - rewrite Hnlen, Hlen. reflexivity.
  - exact Hhex.
  - apply encodeURIComponent_alnum.
    apply forallb_forall. intros c Hc. apply hex_is_alnum.
    rewrite forallb_forall in Hhex. now apply Hhex.
Qed.

(** X7: the [x_delete_tweet] handler sends its DELETE exactly once,
    whatever the reply: a network failure or an error status fails the
    call at once (with [Delete failed: <status> <statusText>] for a
    status outside 2xx), without a second request. *)
Theorem x_delete_tweet_sends_once (this : X.XPlugin) (tweetId : string)
    (w : World) (creds : X.OAuthCreds) :
  let dir := Keychain.configDir (X.keychain this) in
  store w !! (dir, "x", "api_key") = Some (X.apiKey creds) ->
  store w !! (dir, "x", "api_secret") = Some (X.apiSecret creds) ->
  store w !! (dir, "x", "access_token") = Some (X.accessToken creds) ->
  store w !! (dir, "x", "access_secret") = Some (X.accessSecret creds) ->
  X.apiKey creds <> "" -> X.apiSecret creds <> "" ->
  X.accessToken creds <> "" -> X.accessSecret creds <> "" ->
  let call := run (handler (X.x_delete_tweet this) tweetId) w in
  exists authHeader,
    let req := {| Http.method := "DELETE";
                  Http.url := X.X_BASE +:+ "/tweets/" +:+ tweetId;
                  Http.params := [];
                  Http.headers := [("Authorization", authHeader)];
                  Http.body := Http.NoBody |} in
    requests (trace (snd call)) = requests (trace w) ++ [req]
    /\ match server w (requests (trace w)) req with
       | Http.NetworkFailure => fst call = Thrown NetworkError
       | Http.Responds res =>
           Http.ok res = false ->
           fst call = Thrown (Error ("Delete failed: "
                                     +:+ JsVal.string_of_Z (Http.status res)
                                     +:+ " " +:+ Http.statusText res))
       end.
Proof.
  intros dir H1 H2 H3 H4 N1 N2 N3 N4 call. subst call.
  cbn [handler X.x_delete_tweet].
  rewrite run_bind, (run_getOAuthCreds this w creds H1 H2 H3 H4 N1 N2 N3 N4).
  set (w0 := X.after_credentials this creds w).
  rewrite run_bind. unfold X.buildOAuthHeader. cbn [run].
  destruct (draw 16 w0) as [bs w'] eqn:Hdraw. cbn [run].
  assert (Hw' : trace w' = trace w0 /\ server w' = server w0).
  { unfold draw in Hdraw. injection Hdraw as _ <-. now cbn. }
  destruct Hw' as (Htr & Hsrv).
  exists (X.buildOAuthHeaderWith (Bytes.hex bs)
            (JsVal.string_of_Z (clock w' / 1000)) "DELETE"
            (X.X_BASE +:+ "/tweets/" +:+ tweetId) creds).
  cbv zeta.
  match goal with
  | |- context [fetch ?r] => set (req := r)
  end.
  rewrite run_bind, run_fetch. rewrite Hsrv, Htr. subst w0.
  change (server (X.after_credentials this creds w)) with (server w).
  rewrite !requests_after_credentials.
  assert (Hreqs : forall reply,
            requests (trace (record (EvFetch req reply) w'))
            = requests (trace w) ++ [req]).
  { intros reply. cbn [trace record].
    now rewrite requests_app, Htr, requests_after_credentials. }
  destruct (server w (requests (trace w)) req) as [res|] eqn:Hreply.
  - split.
    + destruct (negb (Http.ok res)); [apply Hreqs|].
      rewrite run_bind.
      destruct (pure_json res) as [o Ho]. rewrite Ho.
      destruct o as [data|e]; [|apply Hreqs].
      rewrite run_bind.
      destruct (pure_getProp data "data") as [o' Ho']. rewrite Ho'.
      destruct o'; apply Hreqs.
    + intros Hok. rewrite Hok. reflexivity.
  - split; [apply Hreqs | reflexivity].
Qed.

(* ===================================================================== *)
(** ** Gmail: the encoded message *)
(* ===================================================================== *)


Section CharFacts.

Lemma chars_app (a b : string) :
  list_ascii_of_string (a +:+ b)
  = (list_ascii_of_string a ++ list_ascii_of_string b)%list.
Proof.
  induction a as [|c a IH]; [reflexivity|].
  rewrite append_cons. cbn [list_ascii_of_string]. now rewrite IH.
Qed.

Lemma get_in (s : string) :
  forall n c, String.get n s = Some c -> In c (list_ascii_of_string s).
Proof.
  induction s as [|x s IH]; intros n c H; [destruct n; discriminate|].
  destruct n as [|n]; cbn in H.
  - injection H as ->. now left.
  - right. exact (IH n c H).
Qed.

Lemma replace_all_length (c d : ascii) (s : string) :
  String.length (JS.replace_all c d s) = String.length s.
Proof. induction s as [|x s IH]; [reflexivity|]. cbn. now rewrite IH. Qed.

(** Every character satisfies a decidable property that its 256 values
    satisfy. *)
Lemma all_ascii (P : ascii -> bool) :
  forallb (fun n => P (ascii_of_nat n)) (seq 0 256) = true ->
  forall c, P c = true.
Proof.
  intros H c. rewrite forallb_forall in H.
  rewrite <- (ascii_nat_embedding c). apply H, in_seq.
  pose proof (nat_ascii_bounded c). lia.
Qed.

End CharFacts.

Section Base64Facts.

Local Abbreviation standard := Gmail.is_base64.
Local Abbreviation urlsafe := Gmail.is_base64url.

Lemma digit_standard (d : Z) : standard (Base64.digit d) = true.
Proof.
  unfold Base64.digit.
  destruct (String.get (Z.to_nat d) Base64.ALPHABET) as [c|] eqn:E;
    [|reflexivity].
  apply get_in in E.
  assert (Hall : forallb standard (list_ascii_of_string Base64.ALPHABET) = true)
    by reflexivity.
  rewrite forallb_forall in Hall. now apply Hall.
Qed.

(** [Buffer.toString('base64')] writes groups of four characters of the
    base64 alphabet. *)
Lemma encode_standard (bs : list Z) :
  forallb standard (list_ascii_of_string (Base64.encode bs)) = true
  /\ exists groups, String.length (Base64.encode bs) = 4 * groups.
Proof.
  assert (H : forall n (bs : list Z), length bs <= n ->
            forallb standard (list_ascii_of_string (Base64.encode bs)) = true
            /\ exists groups, String.length (Base64.encode bs) = 4 * groups).
  { clear bs. induction n as [|n IH]; intros bs Hlen.
    - destruct bs; [|cbn in Hlen; lia]. split; [reflexivity | now exists 0].
    - destruct bs as [|a [|b [|c rest]]].
      + split; [reflexivity | now exists 0].
      + cbn [Base64.encode list_ascii_of_string forallb String.length].
        rewrite !digit_standard. split; [reflexivity | now exists 1].
      + cbn [Base64.encode list_ascii_of_string forallb String.length].
        rewrite !digit_standard. split; [reflexivity | now exists 1].
      + destruct (IH rest) as [Hall [g Hg]]; [cbn in Hlen; lia|].
        cbn [Base64.encode list_ascii_of_string forallb String.length].
        rewrite !digit_standard, Hall, Hg.
        split; [reflexivity | exists (S g); lia]. }
  exact (H (length bs) bs (le_n _)).
Qed.

Lemma urlsafe_unit (c : ascii) :
  standard c = true ->
  let c' := if Ascii.eqb c "+" then "-"%char else c in
  let c'' := if Ascii.eqb c' "/" then "_"%char else c' in
  urlsafe c'' = true
  /\ (if Ascii.eqb (if Ascii.eqb c'' "-" then "+"%char else c'') "_"
      then "/"%char
      else if Ascii.eqb c'' "-" then "+"%char else c'') = c.
Proof.
  revert c.
  assert (H : forall c,
    (negb (standard c)
     || (let c' := if Ascii.eqb c "+" then "-"%char else c in
         let c'' := if Ascii.eqb c' "/" then "_"%char else c' in
         urlsafe c''
         && Ascii.eqb
              (if Ascii.eqb (if Ascii.eqb c'' "-" then "+"%char else c'') "_"
               then "/"%char
               else if Ascii.eqb c'' "-" then "+"%char else c'') c)) = true).
  { apply all_ascii. vm_compute. reflexivity. }
  intros c Hc. specialize (H c). rewrite Hc in H. cbn [negb orb] in H.
  apply andb_true_iff in H as [H1 H2]. apply Ascii.eqb_eq in H2.
  split; assumption.
Qed.

Lemma urlsafe_translation (s : string) :
  forallb standard (list_ascii_of_string s) = true ->
  forallb urlsafe
    (list_ascii_of_string (JS.replace_all "/" "_" (JS.replace_all "+" "-" s)))
  = true
  /\ Gmail.b64 (JS.replace_all "/" "_" (JS.replace_all "+" "-" s)) = s.
Proof.
  unfold Gmail.b64.
  induction s as [|c s IH]; [split; reflexivity|].
  cbn [list_ascii_of_string forallb JS.replace_all].
  intros H. apply andb_true_iff in H as [Hc Hs].
  destruct (IH Hs) as [IH1 IH2].
  destruct (urlsafe_unit c Hc) as [H1 H2]. cbv zeta in H1, H2.
  rewrite H1, IH1, IH2, H2. split; reflexivity.
Qed.

End Base64Facts.

Lemma encodeEmail_message (opts : Gmail.EmailOpts) :
  Gmail.encodeEmail opts
  = JS.replace_all "/" "_"
      (JS.replace_all "+" "-"
         (Base64.encode (Bytes.utf8 (Gmail.message opts)))).
Proof. reflexivity. Qed.

(** X9: the [raw] text of [encodeEmail] is URL-safe: it consists of
    letters, digits, [-], [_] and the padding [=] only, which is kept,
    so its length is a multiple of four. *)
Theorem encodeEmail_is_url_safe (opts : Gmail.EmailOpts) :
  forallb Gmail.is_base64url
          (list_ascii_of_string (Gmail.encodeEmail opts)) = true
  /\ exists groups, String.length (Gmail.encodeEmail opts) = 4 * groups.
Proof.
  rewrite encodeEmail_message.
  destruct (encode_standard (Bytes.utf8 (Gmail.message opts))) as [Hall Hlen].
  split.
  - apply (urlsafe_translation _ Hall).
  - now rewrite !replace_all_length.
Qed.

(** X10: the alphabet translation at the start of [b64decode] undoes the
    one at the end of [encodeEmail]: applied to an encoded email it gives
    back the base64 text of the message. *)
Theorem b64_undoes_the_url_safe_alphabet (opts : Gmail.EmailOpts) :
  Gmail.b64 (Gmail.encodeEmail opts)
  = Base64.encode (Bytes.utf8 (Gmail.message opts)).
Proof.
  rewrite encodeEmail_message.
  apply urlsafe_translation, encode_standard.
Qed.

(* ===================================================================== *)
(** ** Google Calendar: the path of an event *)
(* ===================================================================== *)

Section SegmentFacts.

Local Abbreviation clean :=
  (fun s => forallb (fun c => negb (Uri.is_delimiter c)) (list_ascii_of_string s)).

Lemma encodeURIComponent_unit_clean (c : ascii) :
  clean (if Uri.is_alnum c || Uri.is_one_of "-_.!~*'()" c
         then String c EmptyString
         else Uri.percent (Bytes.utf8_unit c)) = true.
Proof.
  revert c. apply all_ascii. vm_compute. reflexivity.
Qed.

(** [encodeURIComponent] leaves no delimiter in its result. *)
Lemma encodeURIComponent_clean (s : string) :
  clean (Uri.encodeURIComponent s) = true.
Proof.
  induction s as [|c s IH]; [reflexivity|].
  cbn [Uri.encodeURIComponent]. rewrite chars_app, forallb_app.
  rewrite (encodeURIComponent_unit_clean c). exact IH.
Qed.

End SegmentFacts.

(** [encodeURIComponent] leaves a string of unreserved characters as it
    is. *)
Lemma encodeURIComponent_unreserved (s : string) :
  forallb (fun c => Uri.is_alnum c || Uri.is_one_of "-_.!~*'()" c)
          (list_ascii_of_string s) = true ->
  Uri.encodeURIComponent s = s.
Proof.
  induction s as [|c s IH]; [reflexivity|].
  cbn [list_ascii_of_string forallb Uri.encodeURIComponent].
  intros H. apply andb_true_iff in H as [Hc Hs].
  rewrite Hc, (IH Hs). now rewrite append_cons, append_nil_l.
Qed.


(** X12: when the Calendar API answers the DELETE with 204, whatever the
    body, [gcal_delete_event] returns [{deleted: true, eventId}]. *)
Theorem gcal_delete_event_accepts_no_content
    (this : Gcal.GoogleCalendarPlugin) (args : Gcal.DeleteArgs) (w : World)
    (G : string) (res : Http.Response) :
  let path := "/calendars/"
              +:+ Uri.encodeURIComponent (JS.nullish (Gcal.calendarId args) "primary")
              +:+ "/events/" +:+ Uri.encodeURIComponent (Gcal.eventId args) in
  store w !! (Keychain.configDir (Gcal.keychain this), "google", "access_token")
  = Some G ->
  G <> "" ->
  server w (requests (trace w))
    (Gcal.api_request G path (Gcal.mkOptions (Some "DELETE") undefined))
  = Http.Responds res ->
  Http.status res = 204%Z ->
  fst (run (handler (Gcal.gcal_delete_event this) args) w)
  = Returned (JObj [("deleted", JBool true);
                    ("eventId", JStr (Gcal.eventId args))]).
Proof.
  intros path HG HGne Hreply H204.
  cbn [handler Gcal.gcal_delete_event]. fold path.
  unfold Gcal.calFetch, Gcal.getToken.
  rewrite !run_bind, run_keychain_get, HG.
  apply String.eqb_neq in HGne. rewrite HGne. cbn [run].
  rewrite run_bind, run_fetch. cbn [server record trace].
  rewrite requests_app. cbn [requests omap]. rewrite app_nil_r.
  rewrite Hreply. unfold Http.ok. rewrite H204. reflexivity.
Qed.

(* ===================================================================== *)
(** ** Spotify: durations, volume and the queue *)
(* ===================================================================== *)

Lemma two_digits (s : Z) :
  (0 <= s < 60)%Z ->
  JS.padStart 2 "0" (JsVal.string_of_Z s)
  = String (JS.digit (s / 10)) (String (JS.digit (s mod 10)) EmptyString).
Proof.
  intros Hs.
  assert (Hall : forallb (fun n =>
            String.eqb (JS.padStart 2 "0" (JsVal.string_of_Z (Z.of_nat n)))
              (String (JS.digit (Z.of_nat n / 10))
                 (String (JS.digit (Z.of_nat n mod 10)) EmptyString)))
            (seq 0 60) = true) by (vm_compute; reflexivity).
  rewrite forallb_forall in Hall. specialize (Hall (Z.to_nat s)).
  rewrite Z2Nat.id in Hall by lia.
  apply String.eqb_eq, Hall, in_seq. lia.
Qed.

(** X13: for a whole number of milliseconds from 0 to below 2^53, the
    range in which the quotients of [msToTime] are exact, it prints the
    whole minutes, a colon and the remaining seconds in exactly two
    digits. *)
Theorem msToTime_has_two_digit_seconds (ms : Z) :
  (0 <= ms < 2 ^ 53)%Z ->
  let total := (ms / 1000)%Z in
  let seconds := (total mod 60)%Z in
  Spotify.msToTime ms
  = JsVal.string_of_Z (total / 60) +:+ ":"
    +:+ String (JS.digit (seconds / 10))
          (String (JS.digit (seconds mod 10)) EmptyString)
  /\ (total = 60 * (total / 60) + seconds)%Z
  /\ (0 <= seconds < 60)%Z.
Proof.
  intros [Hms _] total seconds.
  assert (Htotal : (0 <= total)%Z) by (apply Z.div_pos; lia).
  assert (Hs : (0 <= seconds < 60)%Z) by (apply Z.mod_pos_bound; lia).
  split; [|split; [apply Z.div_mod; lia | exact Hs]].
  unfold Spotify.msToTime. fold total.
  rewrite Z.rem_mod_nonneg by lia. fold seconds.
  now rewrite (two_digits seconds Hs).
Qed.

Lemma msToTime_has_two_digit_seconds_witness :
  Spotify.msToTime 185000 = "3:05".
Proof.
  destruct (msToTime_has_two_digit_seconds 185000) as [H _]; [lia|].
  rewrite H. reflexivity.
Defined.

Lemma requests_within (L : Limits) (evs : list Event) :
  Forall (event_within L) evs -> Forall (may_send L) (requests evs).
Proof.
  induction 1 as [|e evs He _ IH]; [constructor|].
  destruct e; cbn [requests omap]; try exact IH.
  constructor; [exact He | exact IH].
Qed.

(** What a run of [spotifyFetch] adds to the requests sent so far. *)
Lemma spotifyFetch_requests this path options retry d w :
  exists evs,
    trace (snd (run (Spotify.spotifyFetch (S (S d)) this path options retry) w))
    = trace w ++ evs
    /\ Forall (may_send (Spotify.envelope this path options)) (requests evs).
Proof.
  destruct (within_run _ _ (spotifyFetch_within this path options d retry) w)
    as ((evs & Hev & Hall) & _).
  exists evs. split; [exact Hev | now apply requests_within].
Qed.

(** X14: [spotify_volume] clamps the volume to 0..100: every request it
    sends to the API is a PUT of [/me/player/volume] whose
    [volume_percent] is the clamped value, and that value is what the
    tool returns. *)
Theorem spotify_volume_is_clamped (this : Spotify.SpotifyPlugin)
    (volume : Z) (w : World) :
  let vol := Z.max 0 (Z.min 100 volume) in
  let call := run (handler (Spotify.spotify_volume this) volume) w in
  (0 <= vol <= 100)%Z
  /\ (exists evs,
        trace (snd call) = trace w ++ evs
        /\ Forall (fun req =>
               (exists token,
                  req = Spotify.api_request token "/me/player/volume"
                          (Spotify.mkOptions (Some "PUT") undefined
                             (Some [("volume_percent", JsVal.string_of_Z vol)])))
               \/ (exists rt cid, req = Spotify.token_request rt cid))
             (requests evs))
  /\ (forall j, fst call = Returned j -> j = JObj [("volume", JNum vol)]).
Proof.
  intros vol call. split; [lia|]. split.
  - subst call. cbn [handler Spotify.spotify_volume]. fold vol.
    match goal with
    | |- context [Spotify.spotifyFetch 2 this ?p ?o true] =>
        destruct (spotifyFetch_requests this p o true 0 w) as (evs & Hev & Hall);
        set (fetch := Spotify.spotifyFetch 2 this p o true) in *
    end.
    exists evs. split; [|exact Hall].
    rewrite run_bind. destruct (run fetch w) as [[j|e] w1]; exact Hev.
  - subst call. cbn [handler Spotify.spotify_volume]. rewrite run_bind.
    destruct (run _ w) as [[j0|e] w1]; cbn [run fst]; intros j [=].
    now subst j.
Qed.

(** X18: [spotify_queue] without a uri and without a query returns
    [{error: 'Provide uri or query.'}] and does nothing else; given a uri
    it never searches: the only API request is the POST of
    [/me/player/queue] with that uri, and it returns [{queued: true, uri}]. *)
Theorem spotify_queue_needs_a_uri_or_a_query (this : Spotify.SpotifyPlugin)
    (args : Spotify.QueueArgs) (w : World) :
  let call := run (handler (Spotify.spotify_queue this) args) w in
  (JS.truthy (Spotify.uri args) = false ->
   JS.truthy (Spotify.query args) = false ->
   call = (Returned Spotify.PROVIDE_URI_OR_QUERY, w))
  /\ (forall u,
        Spotify.uri args = Some u -> u <> "" ->
        (exists evs,
           trace (snd call) = trace w ++ evs
           /\ Forall (fun req =>
                  (exists token,
                     req = Spotify.api_request token "/me/player/queue"
                             (Spotify.mkOptions (Some "POST") undefined
                                (Some [("uri", u)])))
                  \/ (exists rt cid, req = Spotify.token_request rt cid))
                (requests evs))
        /\ (forall j, fst call = Returned j ->
                      j = JObj [("queued", JBool true); ("uri", JStr u)])).
Proof.
  intros call. subst call. cbn [handler Spotify.spotify_queue]. split.
  - intros Huri Hquery. rewrite Hquery, andb_false_r.
    unfold Spotify.enqueue.
    destruct (truthy_false _ Huri) as [-> | ->]; reflexivity.
  - intros u Hu Hne. rewrite Hu. cbn [JS.truthy].
    apply String.eqb_neq in Hne. rewrite Hne. cbn [negb andb fmap option_fmap option_map].
    unfold Spotify.enqueue. cbn [JsVal.truthy]. rewrite Hne. cbn [negb].
    cbn [JsVal.template JsVal.toString].
    match goal with
    | |- context [Spotify.spotifyFetch 2 this ?p ?o true] =>
        destruct (spotifyFetch_requests this p o true 0 w) as (evs & Hev & Hall);
        set (fetch := Spotify.spotifyFetch 2 this p o true) in *
    end.
    rewrite run_bind. split.
    + exists evs. split; [|exact Hall].
      destruct (run fetch w) as [[j|e] w1]; exact Hev.
    + destruct (run fetch w) as [[j0|e] w1]; cbn [run fst]; intros j [=].
      now subst j.
Qed.

(* ===================================================================== *)
(** ** n8n: the instance URL and the list of executions *)
(* ===================================================================== *)

Section ReplaceFacts.

Local Abbreviation pat := N8n.API_SUFFIX.

Ltac conjuncts H :=
  repeat match type of H with
         | _ && _ = true => let H' := fresh in apply andb_prop in H as [H' H]
         end.

(** No proper suffix of [/api/v1] starts it again, so appending it to a
    text creates one occurrence only, the appended one. *)
Lemma startsWith_app_suffix (p : string) :
  p <> "" ->
  JS.startsWith p pat = false ->
  JS.startsWith (p +:+ pat) pat = false.
Proof.
  intros Hne Hp.
  destruct (JS.startsWith (p +:+ pat) pat) eqn:E; [exfalso|reflexivity].
  destruct p as [|c1 [|c2 [|c3 [|c4 [|c5 [|c6 [|c7 p]]]]]]];
    [congruence| | | | | | |];
    rewrite ?append_cons, ?append_nil_l in E;
    cbn [JS.startsWith pat N8n.API_SUFFIX] in E, Hp.
  1-6: conjuncts E;
    repeat match goal with
           | H : Ascii.eqb _ _ = true |- _ =>
               first [apply Ascii.eqb_eq in H; discriminate H | clear H]
           end.
  congruence.
Qed.

Lemma skip_all (s : string) : JS.skip (String.length s) s = "".
Proof. induction s as [|c s IH]; [reflexivity | exact IH]. Qed.

Lemma startsWith_refl (s : string) : JS.startsWith s s = true.
Proof.
  induction s as [|c s IH]; [reflexivity|].
  cbn [JS.startsWith]. now rewrite Ascii.eqb_refl, IH.
Qed.

Lemma replace_first_appended (p : string) :
  JS.includes p pat = false ->
  JS.replace_first pat "" (p +:+ pat) = p.
Proof.
  induction p as [|c p IH]; intros H.
  - rewrite append_nil_l. unfold JS.replace_first.
    destruct pat eqn:E; [discriminate|]. rewrite <- E.
    now rewrite startsWith_refl, skip_all.
  - cbn [JS.includes] in H. apply orb_false_iff in H as [H1 H2].
    assert (Hs := startsWith_app_suffix (String c p) ltac:(discriminate) H1).
    rewrite append_cons in *. cbn [JS.replace_first].
    rewrite Hs. now rewrite (IH H2).
Qed.

Lemma endsWith_includes (s t : string) :
  JS.endsWith s t = true -> JS.includes s t = true.
Proof.
  induction s as [|c s IH].
  - rewrite endsWith_nil, orb_false_r. intros H.
    apply String.eqb_eq in H. subst t. reflexivity.
  - rewrite endsWith_cons. intros H. cbn [JS.includes].
    apply orb_true_iff in H as [H|H].
    + apply String.eqb_eq in H. subst t. now rewrite startsWith_refl.
    + rewrite (IH H). apply orb_true_r.
Qed.

End ReplaceFacts.

(** X16: [baseUrl.replace('/api/v1', '')] gives back the instance URL:
    for a stored URL (less its trailing slash) that does not contain
    [/api/v1] it undoes the suffix [getConfig] added, and for one that
    ends with [/api/v1] it removes that suffix. *)
Theorem n8nBase_recovers_the_instance_url (rawUrl : option string) :
  let instance := JS.strip_trailing_slash (JS.nullish rawUrl N8n.DEFAULT_URL) in
  (JS.includes instance "/api/v1" = false ->
   N8n.n8nBase (N8n.normaliseBaseUrl rawUrl) = instance)
  /\ (forall p,
        instance = p +:+ "/api/v1" ->
        JS.includes p "/api/v1" = false ->
        N8n.n8nBase (N8n.normaliseBaseUrl rawUrl) = p).
Proof.
  intros instance. unfold N8n.n8nBase, N8n.normaliseBaseUrl. fold instance.
  clearbody instance. unfold N8n.API_SUFFIX. split.
  - intros H.
    destruct (JS.endsWith instance "/api/v1") eqn:E.
    + apply endsWith_includes in E. congruence.
    + cbn [negb]. now apply replace_first_appended.
  - intros p -> H. rewrite (endsWith_app p "/api/v1"). cbn [negb].
    now apply replace_first_appended.
Qed.

Lemma n8nBase_recovers_the_instance_url_witness :
  N8n.n8nBase (N8n.normaliseBaseUrl (Some "https://n8n.example.com/"))
  = "https://n8n.example.com".
Proof.
  destruct (n8nBase_recovers_the_instance_url (Some "https://n8n.example.com/"))
    as [H _].
  apply H. reflexivity.
Defined.

Section ExecutionFacts.
Variable elapsed : Json -> Json -> string.

Local Abbreviation settled_status :=
  (fun f => JsVal.prop f "status" = Some (JStr "success")
            \/ JsVal.prop f "status" = Some (JStr "running")).

(** [formatExecution] writes ['success'] or ['running'] for the status,
    whatever the execution says: the conditional applies to
    [e.status ?? e.finished] as a whole. *)
Lemma formatExecution_status e w f w' :
  run (N8n.formatExecution elapsed e) w = (Returned f, w') ->
  N8n.is_error f = false /\ settled_status f.
Proof.
  unfold N8n.formatExecution. rewrite run_bind.
  destruct (pure_getProp e "startedAt") as [o Ho]. rewrite Ho.
  destruct o as [startedAt|err]; [|discriminate].
  cbn [run]. intros [= <- _].
  unfold N8n.is_error, result_object.
  destruct (JsVal.prop e "id"), (JsVal.prop e "workflowId");
    cbn [omap list_omap fst snd JsVal.prop JsVal.lookup String.eqb Ascii.eqb
         Bool.eqb];
    destruct (JsVal.truthy _); cbn; auto.
Qed.

Lemma traverse_status items :
  forall w fs w',
    run (N8n.traverse (N8n.formatExecution elapsed) items) w = (Returned fs, w') ->
    Forall (fun f => N8n.is_error f = false /\ settled_status f) fs.
Proof.
  induction items as [|x rest IH]; intros w fs w'; cbn [N8n.traverse].
  - cbn [run]. intros [= <- _]. constructor.
  - rewrite run_bind.
    destruct (run (N8n.formatExecution elapsed x) w) as [[y|e] w1] eqn:Ey;
      [|discriminate].
    rewrite run_bind.
    destruct (run (N8n.traverse _ rest) w1) as [[ys|e] w2] eqn:Eys;
      [|discriminate].
    cbn [run]. intros [= <- _].
    constructor; [exact (formatExecution_status _ _ _ _ Ey) | exact (IH _ _ _ Eys)].
Qed.

Lemma no_errors_counted (fs : list Json) :
  Forall (fun f => N8n.is_error f = false /\ settled_status f) fs ->
  List.filter N8n.is_error fs = [].
Proof.
  induction 1 as [|f fs [Hf _] _ IH]; [reflexivity|].
  cbn [List.filter]. now rewrite Hf.
Qed.

End ExecutionFacts.

(** X15: [n8n_executions] never counts an error.  [formatExecution]
    writes ['success'] for every execution whose [status] (or, without
    it, [finished]) is truthy, ['error'] included, and ['running']
    otherwise, so the [errors] field of the result is always 0. *)
Theorem n8n_executions_counts_no_errors (elapsed : Json -> Json -> string)
    (this : N8n.N8nPlugin) (args : N8n.ExecutionsArgs) (w : World) (j : Json) :
  fst (run (handler (N8n.n8n_executions elapsed this) args) w) = Returned j ->
  JsVal.prop j "errors" = Some (JNum 0)
  /\ exists formatted,
       JsVal.prop j "executions" = Some (JArr formatted)
       /\ JsVal.prop j "count" = Some (JNum (Z.of_nat (length formatted)))
       /\ Forall (fun f => JsVal.prop f "status" = Some (JStr "success")
                           \/ JsVal.prop f "status" = Some (JStr "running"))
                 formatted.
Proof.
  cbn [handler N8n.n8n_executions]. rewrite run_bind.
  destruct (run (N8n.n8nFetch this _ _) w) as [[data|e] w1]; [|discriminate].
  rewrite run_bind.
  destruct (pure_getProp data "data") as [o Ho]. rewrite Ho.
  destruct o as [inner|e]; [|discriminate].
  destruct (JsVal.nullish inner data) as [| | | |executions|]; try discriminate.
  rewrite run_bind.
  destruct (run (N8n.traverse _ executions) w1) as [[formatted|e] w2] eqn:Ef;
    [|discriminate].
  cbn [run fst]. intros [= <-].
  pose proof (traverse_status elapsed executions _ _ _ Ef) as Hall.
  rewrite (no_errors_counted formatted Hall).
  split; [reflexivity|]. exists formatted.
  split; [reflexivity|]. split; [reflexivity|].
  eapply Forall_impl; [exact Hall|]. now intros f [_ H].
Qed.

Lemma n8n_executions_counts_no_errors_witness :
  JsVal.prop
    (JObj [("count", JNum 1); ("errors", JNum 0);
           ("executions",
            JArr [JObj [("id", JStr "7"); ("workflowId", JStr "3");
                        ("workflowName", JNull); ("status", JStr "success");
                        ("mode", JStr "trigger"); ("startedAt", JNull);
                        ("stoppedAt", JNull); ("duration", JNull);
                        ("nodeCount", JNum 0); ("error", JNull)]])])
    "errors"
  = Some (JNum 0).
Proof.
  apply (n8n_executions_counts_no_errors Scenario.no_dates Scenario.n8n
           (N8n.mkExecutions None (Some "error") None) Scenario.n8n_history).
  vm_compute. reflexivity.
Defined.

(* ===================================================================== *)
(** ** An error reply whose body is the JSON literal [null] *)
(* ===================================================================== *)

(** X17: an error reply whose body is the JSON literal [null] makes
    [n8nFetch] and [spotifyFetch] fail with a [TypeError] (a property of
    [null] is read) instead of their API error; for [spotifyFetch] that
    is every such reply but a 401 met with [retry] on, which starts the
    refresh instead.  The error branch of [xFetch] and [xPost] falls back
    to the status text. *)
Theorem null_error_body_is_a_type_error (w : World) (res : Http.Response)
    (source : string) :
  Http.ok res = false ->
  Http.content res = Http.JsonDoc source JNull ->
  (forall n path options key,
      let dir := Keychain.configDir (N8n.keychain n) in
      let cfg := N8n.mkConfig key
                   (N8n.normaliseBaseUrl (store w !! (dir, "n8n", "base_url"))) in
      store w !! (dir, "n8n", "api_key") = Some key -> key <> "" ->
      server w (requests (trace w)) (N8n.api_request cfg path options)
      = Http.Responds res ->
      Http.status res <> 204%Z ->
      fst (run (N8n.n8nFetch n path options) w) = Thrown TypeError)
  /\ (forall s path options token d retry,
         let dir := Keychain.configDir (Spotify.keychain s) in
         store w !! (dir, "spotify", "access_token") = Some token -> token <> "" ->
         server w (requests (trace w)) (Spotify.api_request token path options)
         = Http.Responds res ->
         Http.status res <> 204%Z -> Http.status res <> 202%Z ->
         (Http.status res = 401%Z -> retry = false) ->
         fst (run (Spotify.spotifyFetch (S d) s path options retry) w)
         = Thrown TypeError)
  /\ run (X.api_error res) w
     = (Thrown (ErrorWithStatus
                  ("X API " +:+ JsVal.string_of_Z (Http.status res) +:+ ": "
                   +:+ Http.statusText res)
                  (Http.status res)), w).
Proof.
  intros Hok Hnull. split; [|split].
  - intros n path options key dir cfg Hkey Hne Hreply H204.
    unfold N8n.n8nFetch.
    rewrite run_bind, (run_n8n_getConfig n w key Hkey Hne).
    rewrite run_bind, run_fetch. cbn [server record trace].
    rewrite !requests_app. cbn [requests omap]. rewrite !app_nil_r.
    fold dir. fold cfg. rewrite Hreply.
    apply Z.eqb_neq in H204. rewrite H204, Hok. cbn [negb].
    rewrite run_bind, run_catch. unfold json. rewrite Hnull. reflexivity.
  - intros s path options token d retry dir Htok Hne Hreply H204 H202 H401.
    rewrite (run_spotifyFetch_once s path options d retry w token Htok Hne).
    + rewrite Hreply. unfold Spotify.respond.
      apply Z.eqb_neq in H204, H202. rewrite H204, H202, Hok. cbn [orb negb].
      rewrite run_bind, run_catch. unfold json. rewrite Hnull. reflexivity.
    + intros r Hr. rewrite Hreply in Hr. injection Hr as <-.
      destruct (Http.status res =? 401)%Z eqn:E; [|reflexivity].
      apply Z.eqb_eq in E. now rewrite (H401 E).
  - unfold X.api_error.
    rewrite run_bind, run_catch, run_bind. unfold json. rewrite Hnull.
    reflexivity.
Qed.

Lemma x_delete_tweet_sends_once_witness :
  exists authHeader,
    requests (trace (snd (run (handler (X.x_delete_tweet Scenario.x) "1")
                            Scenario.x_flaky)))
    = [{| Http.method := "DELETE";
          Http.url := "https://api.twitter.com/2/tweets/1";
          Http.params := [];
          Http.headers := [("Authorization", authHeader)];
          Http.body := Http.NoBody |}].
Proof.
  destruct (x_delete_tweet_sends_once Scenario.x "1" Scenario.x_flaky
              Scenario.x_creds) as (authHeader & Hreqs & _);
    try reflexivity; try discriminate.
  exists authHeader. exact Hreqs.
Defined.


Lemma gcal_delete_event_accepts_no_content_witness :
  fst (run (handler (Gcal.gcal_delete_event Scenario.gcal)
              (Gcal.mkDelete "e1" None)) Scenario.google_no_content)
  = Returned (JObj [("deleted", JBool true); ("eventId", JStr "e1")]).
Proof.
  apply (gcal_delete_event_accepts_no_content Scenario.gcal
           (Gcal.mkDelete "e1" None) Scenario.google_no_content "G"
           (Http.mkResponse 204 "No Content" Http.EmptyBody));
    [reflexivity | discriminate | reflexivity | reflexivity].
Defined.

Lemma null_error_body_is_a_type_error_witness :
  fst (run (N8n.n8nFetch Scenario.n8n "/workflows" N8n.no_options)
           Scenario.failing_services)
  = Thrown TypeError
  /\ fst (run (Spotify.spotifyFetch 2 Scenario.spotify "/me"
                 Spotify.no_options true) Scenario.failing_services)
     = Thrown TypeError
  /\ fst (run (X.api_error Scenario.null_error) Scenario.failing_services)
     = Thrown (ErrorWithStatus "X API 500: Internal Server Error" 500).
Proof.
  destruct (null_error_body_is_a_type_error Scenario.failing_services
              Scenario.null_error "null" eq_refl eq_refl) as (Hn & Hs & Hx).
  split; [|split].
  - apply (Hn Scenario.n8n "/workflows" N8n.no_options "K");
      [reflexivity | discriminate | reflexivity | discriminate].
  - apply (Hs Scenario.spotify "/me" Spotify.no_options "A" 1 true);
      [reflexivity | discriminate | reflexivity | discriminate | discriminate
      | discriminate].
  - rewrite Hx. reflexivity.
Defined.

Lemma spotify_queue_needs_a_uri_or_a_query_witness :
  run (handler (Spotify.spotify_queue Scenario.spotify)
         (Spotify.mkQueue None (Some "")))
      Scenario.spotify_expired
  = (Returned Spotify.PROVIDE_URI_OR_QUERY, Scenario.spotify_expired).
Proof.
  destruct (spotify_queue_needs_a_uri_or_a_query Scenario.spotify
              (Spotify.mkQueue None (Some "")) Scenario.spotify_expired)
    as [H _].
  apply H; reflexivity.
Defined.

(* ===================================================================== *)
(** ** X: the read tools *)
(* ===================================================================== *)

Lemma run_returned {A : Type} (p : Prog A) (w : World) (a : A) :
  fst (run p w) = Returned a -> run p w = (Returned a, snd (run p w)).
Proof. destruct (run p w) as [o w']. cbn. now intros ->. Qed.

Section XReadFacts.
Variable policy : Shared.RetryPolicy.
Variable this : X.XPlugin.

(** Limits that allow every error. *)
Variable L : Limits.
Hypothesis any_error : forall e, may_throw L e.

Lemma within_catch_all {A : Type} (m : Prog A) (h : JsError -> Prog A) :
  within L m -> (forall e, within L (h e)) -> within L (catch m h).
Proof.
  intros Hm Hh. apply within_catch with (caught := fun _ => True); [|auto].
  apply (within_weaken L); [now intros | now intros | now intros | exact Hm].
Qed.

Lemma api_error_within res : within L (X.api_error res).
Proof.
  unfold X.api_error. apply within_bind; [|intros; now constructor].
  apply within_catch_all; [|intros; constructor].
  apply within_bind; [now apply within_json|]. intros errJSON.
  apply within_bind; [now apply within_getProp|]. intros detail. constructor.
Qed.

Lemma retry_loop_within {A : Type} (fn : Prog A) left :
  within L fn ->
  forall attempt, within L (Shared.retry_loop policy attempt left fn).
Proof.
  intros Hfn. induction left as [|left IH]; intros attempt;
    cbn [Shared.retry_loop]; [exact Hfn|].
  apply within_catch_all; [exact Hfn|].
  intros e. destruct (Shared.transient e); [|now constructor].
  constructor. apply IH.
Qed.

Lemma getBearerToken_within : within L (X.getBearerToken this).
Proof.
  unfold X.getBearerToken. apply within_bind; [apply within_keychain_get|].
  intros [t|]; [destruct (String.eqb t "")|]; now constructor.
Qed.

(** Every request of [xFetch] is the GET of its path with its
    parameters; the bearer token is the one read from the store. *)
Lemma xFetch_within path params :
  (forall token, may_send L (X.get_request token path (default [] params))) ->
  within L (X.xFetch policy this path params).
Proof.
  intros Hsend. unfold X.xFetch.
  apply within_bind; [apply getBearerToken_within|]. intros token.
  apply retry_loop_within.
  apply within_bind; [now apply within_fetch|]. intros res.
  destruct (negb _); [apply api_error_within | now apply within_json].
Qed.

Lemma map_each_within {A B : Type} (f : A -> Prog B) (items : list A) :
  (forall x, within L (f x)) -> within L (map_each f items).
Proof.
  intros Hf. induction items as [|x rest IH]; cbn [map_each]; [constructor|].
  apply within_bind; [apply Hf|]. intros y.
  apply within_bind; [exact IH|]. intros ys. constructor.
Qed.

End XReadFacts.

Lemma run_getBearerToken (this : X.XPlugin) (w : World) :
  let token := store w !! (Keychain.configDir (X.keychain this), "x", "bearer_token") in
  run (X.getBearerToken this) w
  = (if JS.truthy token then Returned (JS.nullish token "")
     else Thrown (Error X.BEARER_NOT_CONFIGURED),
     record (EvKeychainGet (Keychain.configDir (X.keychain this)) "x"
               "bearer_token" token) w).
Proof.
  intros token. unfold X.getBearerToken.
  rewrite run_bind, run_keychain_get. fold token.
  destruct token as [t|]; [|reflexivity].
  cbn [JS.truthy JS.nullish]. now destruct (String.eqb t "").
Qed.

(** X19: without a stored bearer token [xFetch] sends nothing: it fails
    with the not-configured error after the one read of the credential;
    with a token, every request it sends, the repeated ones included, is
    the GET of its path with its parameters and that token. *)
Theorem xFetch_sends_its_request_only (policy : Shared.RetryPolicy)
    (this : X.XPlugin) (path : string)
    (params : option (list (string * string))) (w : World) :
  let dir := Keychain.configDir (X.keychain this) in
  let stored := store w !! (dir, "x", "bearer_token") in
  let call := run (X.xFetch policy this path params) w in
  (JS.truthy stored = false ->
   call = (Thrown (Error X.BEARER_NOT_CONFIGURED),
           record (EvKeychainGet dir "x" "bearer_token" stored) w))
  /\ (forall token,
        stored = Some token ->
        exists evs,
          trace (snd call) = trace w ++ evs
          /\ Forall (fun req => req = X.get_request token path (default [] params))
                    (requests evs)).
Proof.
  intros dir stored call. subst call. unfold X.xFetch.
  rewrite run_bind, run_getBearerToken. fold dir. fold stored. split.
  - intros ->. reflexivity.
  - intros token Hstored.
    destruct (JS.truthy stored) eqn:Htruthy.
    + set (L := mkLimits (fun req => req = X.get_request token path (default [] params))
                         (fun _ _ _ => True) (fun _ => True)).
      assert (Hin : within L
                (Shared.withRetry policy
                   (res ← fetch (X.get_request token path (default [] params));
                    if negb (Http.ok res) then X.api_error res else json res))).
      { apply retry_loop_within; [now intros|].
        apply within_bind; [now apply within_fetch|]. intros res.
        destruct (negb _); [now apply api_error_within | now apply within_json]. }
      rewrite Hstored. cbn [JS.nullish].
      destruct (within_run L _ Hin
                  (record (EvKeychainGet dir "x" "bearer_token" stored) w))
        as ((evs & Hev & Hall) & _).
      rewrite Hstored in Hev.
      exists (EvKeychainGet dir "x" "bearer_token" (Some token) :: evs).
      split.
      * rewrite Hev. cbn [trace record]. now rewrite <- app_assoc.
      * cbn [requests omap]. exact (requests_within L evs Hall).
    + exists [EvKeychainGet dir "x" "bearer_token" stored].
      split; [reflexivity | constructor].
Qed.

Lemma xFetch_sends_its_request_only_witness :
  run (X.xFetch Scenario.retry_thrice Scenario.x "/users/1" None)
      Scenario.signed_out
  = (Thrown (Error X.BEARER_NOT_CONFIGURED),
     record (EvKeychainGet Scenario.dir "x" "bearer_token" None)
       Scenario.signed_out).
Proof.
  destruct (xFetch_sends_its_request_only Scenario.retry_thrice Scenario.x
              "/users/1" None Scenario.signed_out) as [H _].
  apply H. reflexivity.
Defined.

(** X20: [x_get_user] without a username and without a user id fails
    with ['Provide username or userId.'] and does nothing else; given a
    user id it looks that id up, whatever the username: every request is
    the GET of [/users/<userId>]. *)
Theorem x_get_user_needs_a_name_or_an_id (policy : Shared.RetryPolicy)
    (this : X.XPlugin) (args : X.GetUserArgs) (w : World) :
  let call := run (handler (X.x_get_user policy this) args) w in
  (JS.truthy (X.lookup_username args) = false ->
   JS.truthy (X.lookup_userId args) = false ->
   call = (Thrown (Error "Provide username or userId."), w))
  /\ (forall id,
        X.lookup_userId args = Some id -> id <> "" ->
        exists evs,
          trace (snd call) = trace w ++ evs
          /\ Forall (fun req =>
                 exists token,
                   req = X.get_request token ("/users/" +:+ id)
                           [("user.fields", X.USER_FIELDS)])
               (requests evs)).
Proof.
  intros call. subst call. cbn [handler X.x_get_user]. split.
  - intros -> ->. reflexivity.
  - intros id Hid Hne. rewrite Hid. cbn [JS.truthy JS.nullish].
    apply String.eqb_neq in Hne. rewrite Hne. cbn [negb andb].
    rewrite andb_false_r.
    set (L := mkLimits (fun req => exists token,
                          req = X.get_request token ("/users/" +:+ id)
                                  [("user.fields", X.USER_FIELDS)])
                       (fun _ _ _ => True) (fun _ => True)).
    match goal with
    | |- context [run ?p w] => assert (Hin : within L p)
    end.
    { apply within_bind.
      { apply xFetch_within; [now intros|]. intros token. cbn. eauto. }
      intros res. apply within_bind; [now apply within_getProp|]. intros u.
      apply within_bind; [|intros; constructor].
      destruct u as [u|]; [now apply within_getProp | now constructor]. }
    destruct (within_run L _ Hin w) as ((evs & Hev & Hall) & _).
    exists evs. split; [exact Hev | exact (requests_within L evs Hall)].
Qed.

Lemma x_get_user_needs_a_name_or_an_id_witness :
  run (handler (X.x_get_user Scenario.retry_thrice Scenario.x)
         (X.mkGetUser (Some "") None)) Scenario.signed_out
  = (Thrown (Error "Provide username or userId."), Scenario.signed_out).
Proof.
  destruct (x_get_user_needs_a_name_or_an_id Scenario.retry_thrice Scenario.x
              (X.mkGetUser (Some "") None) Scenario.signed_out) as [H _].
  apply H; reflexivity.
Defined.

(** X21: [x_get_timeline] asks for between 5 and 100 tweets whatever
    [maxResults] is; it sends nothing but the lookup of the user name and
    the GET of that user's tweets; and when the lookup has no user id it
    fails with ['User not found'] without a second request. *)
Theorem x_get_timeline_is_bounded (policy : Shared.RetryPolicy)
    (this : X.XPlugin) (args : X.TimelineArgs) (w : World) :
  let call := run (handler (X.x_get_timeline policy this) args) w in
  let lookup := X.xFetch policy this
                  ("/users/by/username/" +:+ X.username args) None in
  (exists m rest,
      X.timeline_params args = ("max_results", JsVal.string_of_Z m) :: rest
      /\ (5 <= m <= 100)%Z)
  /\ (exists evs,
        trace (snd call) = trace w ++ evs
        /\ Forall (fun req =>
               exists token,
                 req = X.get_request token
                         ("/users/by/username/" +:+ X.username args) []
                 \/ exists id,
                      req = X.get_request token ("/users/" +:+ id +:+ "/tweets")
                              (X.timeline_params args))
             (requests evs))
  /\ (forall userRes w1,
        run lookup w = (Returned userRes, w1) ->
        userRes <> JNull ->
        JsVal.truthy (JsVal.optprop (JsVal.prop userRes "data") "id") = false ->
        call = (Thrown (Error ("User not found: " +:+ X.username args)), w1)).
Proof.
  intros call lookup. split; [|split].
  - eexists. eexists. split; [reflexivity | lia].
  - subst call. cbn [handler X.x_get_timeline].
    set (L := mkLimits
                (fun req => exists token,
                   req = X.get_request token
                           ("/users/by/username/" +:+ X.username args) []
                   \/ exists id,
                        req = X.get_request token ("/users/" +:+ id +:+ "/tweets")
                                (X.timeline_params args))
                (fun _ _ _ => True) (fun _ => True)).
    match goal with
    | |- context [run ?p w] => assert (Hin : within L p)
    end.
    { apply within_bind.
      { apply xFetch_within; [now intros|]. intros token. cbn. eauto. }
      intros userRes. apply within_bind; [now apply within_getProp|]. intros user.
      destruct (negb _); [now constructor|].
      apply within_bind.
      { apply xFetch_within; [now intros|]. intros token. cbn. eauto. }
      intros res. apply within_bind; [now apply within_getProp|]. intros data.
      destruct (JsVal.nullish data (JArr [])); try now constructor.
      apply within_bind; [|intros; constructor].
      apply map_each_within. intros t. unfold X.timeline_tweet.
      apply within_bind; [now apply within_getProp|]. intros id. constructor. }
    destruct (within_run L _ Hin w) as ((evs & Hev & Hall) & _).
    exists evs. split; [exact Hev | exact (requests_within L evs Hall)].
  - intros userRes w1 Hlookup Hnonnull Hnoid.
    subst call. cbn [handler X.x_get_timeline]. fold lookup.
    rewrite run_bind, Hlookup, run_bind.
    destruct userRes; try congruence; cbn [getProp run];
      rewrite Hnoid; reflexivity.
Qed.

Lemma x_get_timeline_is_bounded_witness :
  fst (run (handler (X.x_get_timeline Scenario.retry_thrice Scenario.x)
              (X.mkTimeline "alex" (Some 500%Z) None None))
           Scenario.x_search_results)
  = Thrown (Error "User not found: alex").
Proof.
  destruct (x_get_timeline_is_bounded Scenario.retry_thrice Scenario.x
              (X.mkTimeline "alex" (Some 500%Z) None None)
              Scenario.x_search_results) as (_ & _ & H).
  rewrite (H Scenario.two_tweets
             (snd (run (X.xFetch Scenario.retry_thrice Scenario.x
                          "/users/by/username/alex" None)
                       Scenario.x_search_results)));
    [reflexivity | apply run_returned; vm_compute; reflexivity
    | discriminate | reflexivity].
Defined.

(* ===================================================================== *)
(** ** Delays *)
(* ===================================================================== *)

Section PauseFacts.
Context {A : Type}.
Local Open Scope Z_scope.

Lemma pauses_at_most_nonneg (budget : Z) (p : Prog A) :
  pauses_at_most budget p -> 0 <= budget.
Proof.
  induction 1 as [| | ? ? ? ? c _ IH | | ? ? c _ IH | | ? ? c _ IH | ? c _ IH];
    try assumption; try lia.
  - exact (IH None).
  - exact (IH Http.NetworkFailure).
  - exact (IH []).
  - exact (IH 0).
Qed.

Lemma pauses_at_most_mono (b b' : Z) (p : Prog A) :
  b <= b' -> pauses_at_most b p -> pauses_at_most b' p.
Proof.
  intros Hle H. revert b' Hle.
  induction H as [| | | | |budget ms c Hms H IH| |]; intros b' Hle;
    try (constructor; auto; lia).
  replace b' with (ms + (b' - ms)) by lia.
  constructor; [exact Hms|]. apply IH. lia.
Qed.

Lemma pauses_at_most_catch (b1 b2 : Z) (m : Prog A) (h : JsError -> Prog A) :
  pauses_at_most b1 m ->
  (forall e, pauses_at_most b2 (h e)) ->
  pauses_at_most (b1 + b2) (catch m h).
Proof.
  intros H Hh.
  assert (H2 : 0 <= b2) by exact (pauses_at_most_nonneg _ _ (Hh NetworkError)).
  induction H; cbn [catch]; try (constructor; auto; lia).
  - apply pauses_at_most_mono with b2; [lia | apply Hh].
  - rewrite <- Z.add_assoc. constructor; assumption.
Qed.

(** The clock moves forward, by the budget at most. *)
Lemma pauses_at_most_run (budget : Z) (p : Prog A) :
  pauses_at_most budget p ->
  forall w, clock w <= clock (snd (run p w)) <= clock w + budget.
Proof.
  induction 1 as [b a Hb|b e Hb|b d s k c _ IH|b d s k v c _ IH|b req c _ IH
                 |b ms c Hms _ IH|b n c _ IH|b c _ IH]; intros w; cbn [run].
  - cbn. lia.
  - cbn. lia.
  - exact (IH _ (record _ w)).
  - exact (IH (record _ (set_store _ w))).
  - exact (IH _ (record _ w)).
  - specialize (IH (record (EvSleep ms) (advance ms w))).
    cbn [clock record advance] in IH. lia.
  - unfold draw. exact (IH _ (mkWorld _ _ _ _ _ _)).
  - exact (IH _ w).
Qed.

End PauseFacts.

Section PauseBind.
Context {A B : Type}.
Local Open Scope Z_scope.

Lemma pauses_at_most_bind (b1 b2 : Z) (m : Prog A) (f : A -> Prog B) :
  pauses_at_most b1 m ->
  (forall a, pauses_at_most b2 (f a)) ->
  0 <= b2 ->
  pauses_at_most (b1 + b2) (m ≫= f).
Proof.
  unfold mbind, prog_bind. intros H Hf H2.
  induction H; cbn [bind]; try (constructor; auto; lia).
  - apply pauses_at_most_mono with b2; [lia | apply Hf].
  - rewrite <- Z.add_assoc. constructor; assumption.
Qed.

End PauseBind.

(* ===================================================================== *)
(** ** Programs that have settled: the code between two awaits *)
(* ===================================================================== *)

Section FinishedFacts.


Lemma finished_pure {A : Type} (p : Prog A) : finished p = true -> pure p.
Proof.
  destruct p; try discriminate; intros _; [apply pure_ret | apply pure_throw].
Qed.

Lemma finished_sends_nothing {A : Type} target (p : Prog A) :
  finished p = true -> sends_at_most target 0 p.
Proof. destruct p; try discriminate; constructor. Qed.

Lemma finished_type_includes t needle :
  finished (N8n.type_includes t needle) = true.
Proof. now destruct t as [[]|]. Qed.

Lemma finished_find p nodes :
  (forall n, finished (p n) = true) -> finished (array_find p nodes) = true.
Proof.
  intros Hp. induction nodes as [|n rest IH]; cbn [array_find]; [reflexivity|].
  apply finished_bind; [apply Hp|]. now intros [|].
Qed.

Lemma finished_is_trigger n : finished (N8n.is_trigger n) = true.
Proof.
  unfold N8n.is_trigger. apply finished_bind; [apply finished_getProp|].
  intros t. apply finished_bind; [apply finished_type_includes|].
  intros [|]; [reflexivity|].
  apply finished_bind; [apply finished_type_includes|].
  intros [|]; [reflexivity | apply finished_type_includes].
Qed.

Lemma finished_is_webhook n : finished (N8n.is_webhook n) = true.
Proof.
  unfold N8n.is_webhook. apply finished_bind; [apply finished_getProp|].
  intros t. destruct (JsVal.is_string t _);
    [reflexivity | apply finished_type_includes].
Qed.

Lemma finished_detectTriggerType nodes :
  finished (N8n.detectTriggerType nodes) = true.
Proof.
  unfold N8n.detectTriggerType.
  apply finished_bind; [apply finished_find, finished_is_trigger|].
  intros triggerNode. destruct (negb _); [reflexivity|].
  apply finished_bind; [apply finished_type_includes|].
  intros [|]; [reflexivity|].
  apply finished_bind; [apply finished_type_includes|]. intros cron.
  apply finished_bind.
  { destruct cron; [reflexivity | apply finished_type_includes]. }
  intros [|]; [reflexivity|].
  apply finished_bind; [apply finished_type_includes|].
  intros [|]; [reflexivity|].
  now destruct (JsVal.optprop triggerNode "type") as [[]|].
Qed.

Lemma finished_extractWebhookPath nodes :
  finished (N8n.extractWebhookPath nodes) = true.
Proof.
  unfold N8n.extractWebhookPath.
  apply finished_bind; [apply finished_find, finished_is_webhook | reflexivity].
Qed.

Lemma finished_formatExecution elapsed e :
  finished (N8n.formatExecution elapsed e) = true.
Proof.
  unfold N8n.formatExecution.
  apply finished_bind; [apply finished_getProp | reflexivity].
Qed.

End FinishedFacts.

Section NoPause.
Local Open Scope Z_scope.

Lemma no_pause_keychain_get kc s k : pauses_at_most 0 (Keychain.get kc s k).
Proof. constructor. intros v. now constructor. Qed.

Lemma no_pause_fetch req : pauses_at_most 0 (fetch req).
Proof. constructor. intros [r|]; now constructor. Qed.

Lemma no_pause_json res : pauses_at_most 0 (json res).
Proof. unfold json. destruct (Http.content res); now constructor. Qed.

Lemma no_pause_getProp v name : pauses_at_most 0 (getProp v name).
Proof. destruct v; now constructor. Qed.

Lemma no_pause_bind {A B : Type} (m : Prog A) (f : A -> Prog B) :
  pauses_at_most 0 m -> (forall a, pauses_at_most 0 (f a)) ->
  pauses_at_most 0 (m ≫= f).
Proof. intros Hm Hf. now apply (pauses_at_most_bind 0 0). Qed.

Lemma no_pause_catch {A : Type} (m : Prog A) (h : JsError -> Prog A) :
  pauses_at_most 0 m -> (forall e, pauses_at_most 0 (h e)) ->
  pauses_at_most 0 (catch m h).
Proof. intros Hm Hh. now apply (pauses_at_most_catch 0 0). Qed.

Lemma no_pause_getConfig this : pauses_at_most 0 (N8n.getConfig this).
Proof.
  unfold N8n.getConfig. apply no_pause_bind; [apply no_pause_keychain_get|].
  intros [key|]; [|now constructor].
  destruct (String.eqb key ""); [now constructor|].
  apply no_pause_bind; [apply no_pause_keychain_get|]. intros; now constructor.
Qed.

Lemma no_pause_n8nFetch this path options :
  pauses_at_most 0 (N8n.n8nFetch this path options).
Proof.
  unfold N8n.n8nFetch. apply no_pause_bind; [apply no_pause_getConfig|].
  intros cfg. apply no_pause_bind; [apply no_pause_fetch|]. intros res.
  destruct (_ =? _); [now constructor|].
  destruct (negb _); [|apply no_pause_json].
  apply no_pause_bind.
  - apply no_pause_catch; [apply no_pause_json | intros; now constructor].
  - intros err. apply no_pause_bind; [apply no_pause_getProp|].
    intros; now constructor.
Qed.

(** A program that has settled waits for nothing. *)
Lemma finished_no_pause {A : Type} (p : Prog A) :
  finished p = true -> pauses_at_most 0 p.
Proof. destruct p; try discriminate; now constructor. Qed.

Lemma no_pause_webhookFetch contentType url method body headers :
  pauses_at_most 0 (N8n.webhookFetch contentType url method body headers).
Proof.
  unfold N8n.webhookFetch. apply no_pause_bind; [apply no_pause_fetch|].
  intros res. destruct (negb _); [now constructor|].
  destruct (JS.includes _ _); [apply no_pause_json | now constructor].
Qed.

End NoPause.

(* ===================================================================== *)
(** ** n8n: triggering a workflow *)
(* ===================================================================== *)

Lemma sends_at_most_run {A : Type} (target : Http.Request -> bool) (n : nat)
    (p : Prog A) (w : World) :
  sends_at_most target n p ->
  Observe.hits target (trace (snd (run p w)))
  <= Observe.hits target (trace w) + n.
Proof.
  intros H. destruct (run_pool_alone p w) as [k Hk].
  pose proof (run_pool_budget target (repeat 0 (k + 0)) [p] [n] w) as Hb.
  rewrite (Hk 0) in Hb. cbn [snd list_sum fold_right] in Hb.
  rewrite Nat.add_0_r in Hb. apply Hb. now constructor.
Qed.

Section TriggerFacts.
Variable elapsed : Json -> Json -> string.
Variable contentType : Http.Response -> option string.
Variable this : N8n.N8nPlugin.

Local Abbreviation any := (fun _ : Http.Request => true).

Lemma any_fetch req : sends_at_most any 1 (fetch req).
Proof. apply SendsHit; [reflexivity|]. intros [r|]; constructor. Qed.

Lemma no_request_keychain_get kc s k : sends_at_most any 0 (Keychain.get kc s k).
Proof. constructor. intros; constructor. Qed.

Lemma no_request_json res : sends_at_most any 0 (json res).
Proof. unfold json. destruct (Http.content res); constructor. Qed.

Lemma no_request_getProp v name : sends_at_most any 0 (getProp v name).
Proof. destruct v; constructor. Qed.

Lemma no_request_getConfig : sends_at_most any 0 (N8n.getConfig this).
Proof.
  unfold N8n.getConfig.
  apply (sends_at_most_bind any 0 0); [apply no_request_keychain_get|].
  intros [key|]; [|constructor]. destruct (String.eqb key ""); [constructor|].
  apply (sends_at_most_bind any 0 0); [apply no_request_keychain_get|].
  intros; constructor.
Qed.

Lemma one_request_n8nFetch path options :
  sends_at_most any 1 (N8n.n8nFetch this path options).
Proof.
  unfold N8n.n8nFetch.
  apply (sends_at_most_bind any 0 1); [apply no_request_getConfig|]. intros cfg.
  apply (sends_at_most_bind any 1 0); [apply any_fetch|]. intros res.
  destruct (_ =? _)%Z; [constructor|].
  destruct (negb _); [|apply no_request_json].
  apply (sends_at_most_bind any 0 0).
  - apply (sends_at_most_catch any 0 0); [apply no_request_json | intros; constructor].
  - intros err. apply (sends_at_most_bind any 0 0); [apply no_request_getProp|].
    intros; constructor.
Qed.

Lemma one_request_webhookFetch url method body headers :
  sends_at_most any 1 (N8n.webhookFetch contentType url method body headers).
Proof.
  unfold N8n.webhookFetch.
  apply (sends_at_most_bind any 1 0); [apply any_fetch|]. intros res.
  destruct (negb _); [constructor|].
  destruct (JS.includes _ _); [apply no_request_json | constructor].
Qed.

Section Poll.
Variables (id : string) (execId : Json) (otherwise : Prog Json).
Hypothesis otherwise_finished : finished otherwise = true.

(** Each round of the loop waits two seconds and asks once. *)
Lemma poll_bounds (left : nat) :
  pauses_at_most (2000 * Z.of_nat left) (N8n.poll elapsed this id execId left otherwise)
  /\ sends_at_most any left (N8n.poll elapsed this id execId left otherwise).
Proof.
  induction left as [|left [IHp IHs]]; cbn [N8n.poll].
  - split; [now apply finished_no_pause | now apply finished_sends_nothing].
  - split.
    + replace (2000 * Z.of_nat (S left))%Z with (2000 + 2000 * Z.of_nat left)%Z by lia.
      constructor; [lia|].
      apply (pauses_at_most_bind 0 (2000 * Z.of_nat left)); [| |lia].
      * apply no_pause_catch; [apply no_pause_n8nFetch | intros; now constructor].
      * intros exec. destruct (_ || _); [|exact IHp].
        apply pauses_at_most_mono with 0%Z; [lia|].
        apply finished_no_pause, finished_bind;
          [apply finished_formatExecution | reflexivity].
    + constructor.
      apply (sends_at_most_bind any 1 left).
      * apply (sends_at_most_catch any 1 0);
          [apply one_request_n8nFetch | intros; constructor].
      * intros exec. destruct (_ || _); [|exact IHs].
        apply sends_at_most_mono with 0; [lia|].
        apply finished_sends_nothing, finished_bind;
          [apply finished_formatExecution | reflexivity].
Qed.

End Poll.

Lemma n8n_trigger_bounds (args : N8n.TriggerArgs) :
  let call := handler (N8n.n8n_trigger elapsed contentType this) args in
  pauses_at_most 30000 call
  /\ sends_at_most any 17 call
  /\ (default false (N8n.waitForResult args) = false -> pauses_at_most 0 call).
Proof.
  cbn [handler N8n.n8n_trigger].
  assert (Hshape : forall (budget : Z),
    (forall id execId otherwise,
        finished otherwise = true ->
        default false (N8n.waitForResult args) = true ->
        pauses_at_most budget (N8n.poll elapsed this id execId 15 otherwise)) ->
    (0 <= budget)%Z ->
    pauses_at_most budget
      (handler (N8n.n8n_trigger elapsed contentType this) args)).
  { intros budget Hpoll Hb. cbn [handler N8n.n8n_trigger].
    apply (pauses_at_most_bind 0 budget); [apply no_pause_n8nFetch| |exact Hb].
    intros workflow.
    apply (pauses_at_most_bind 0 budget); [apply no_pause_getProp| |exact Hb].
    intros nodes.
    destruct (JsVal.nullish nodes (JArr [])) as [| | | |items|];
      try now constructor.
    apply (pauses_at_most_bind 0 budget);
      [apply finished_no_pause, finished_detectTriggerType| |exact Hb].
    intros triggerType.
    apply (pauses_at_most_bind 0 budget);
      [apply finished_no_pause, finished_extractWebhookPath| |exact Hb].
    intros webhookPath.
    destruct (_ && _).
    - apply pauses_at_most_mono with 0%Z; [exact Hb|].
      apply no_pause_bind; [apply no_pause_getConfig|]. intros cfg.
      apply no_pause_bind; [apply no_pause_webhookFetch|]. intros; now constructor.
    - apply (pauses_at_most_bind 0 budget); [apply no_pause_n8nFetch| |exact Hb].
      intros result.
      apply (pauses_at_most_bind 0 budget); [apply no_pause_getProp| |exact Hb].
      intros data.
      destruct (default false (N8n.waitForResult args)) eqn:Hwait; cbn [andb].
      + destruct (JsVal.truthy _); [now apply Hpoll | now constructor].
      + now constructor. }
  split; [|split].
  - apply (Hshape 30000%Z); [|lia]. intros id execId otherwise Hfin _.
    exact (proj1 (poll_bounds id execId otherwise Hfin 15)).
  - apply (sends_at_most_bind any 1 16); [apply one_request_n8nFetch|].
    intros workflow.
    apply (sends_at_most_bind any 0 16); [apply no_request_getProp|].
    intros nodes.
    destruct (JsVal.nullish nodes (JArr [])) as [| | | |items|]; try constructor.
    apply (sends_at_most_bind any 0 16);
      [apply finished_sends_nothing, finished_detectTriggerType|].
    intros triggerType.
    apply (sends_at_most_bind any 0 16);
      [apply finished_sends_nothing, finished_extractWebhookPath|].
    intros webhookPath.
    destruct (_ && _).
    + apply sends_at_most_mono with 1; [lia|].
      apply (sends_at_most_bind any 0 1); [apply no_request_getConfig|]. intros cfg.
      apply (sends_at_most_bind any 1 0); [apply one_request_webhookFetch|].
      intros; constructor.
    + apply (sends_at_most_bind any 1 15); [apply one_request_n8nFetch|].
      intros result.
      apply (sends_at_most_bind any 0 15); [apply no_request_getProp|].
      intros data.
      destruct (_ && _); [|constructor].
      now apply poll_bounds.
  - intros Hwait. apply (Hshape 0%Z); [|lia].
    intros ? ? ? _ Hwait'. congruence.
Qed.

End TriggerFacts.

Lemma filter_any {A} (l : list A) : List.filter (fun _ => true) l = l.
Proof. induction l as [|a l IH]; cbn; [reflexivity | now rewrite IH]. Qed.

(** X22: [n8n_trigger] waits at most thirty seconds and sends at most
    seventeen requests: the workflow lookup, the webhook or the execute
    request, and, with [waitForResult], fifteen polls two seconds apart at
    most; without [waitForResult] it does not wait at all. *)
Theorem n8n_trigger_waits_at_most_30_seconds
    (elapsed : Json -> Json -> string)
    (contentType : Http.Response -> option string)
    (this : N8n.N8nPlugin) (args : N8n.TriggerArgs) (w : World) :
  let call := run (handler (N8n.n8n_trigger elapsed contentType this) args) w in
  (clock w <= clock (snd call) <= clock w + 30000)%Z
  /\ length (requests (trace (snd call))) <= length (requests (trace w)) + 17
  /\ (default false (N8n.waitForResult args) = false ->
      clock (snd call) = clock w).
Proof.
  intros call.
  destruct (n8n_trigger_bounds elapsed contentType this args)
    as (Hpause & Hsend & Hnowait).
  split; [|split].
  - exact (pauses_at_most_run _ _ Hpause w).
  - pose proof (sends_at_most_run _ _ _ w Hsend) as H.
    unfold Observe.hits in H.
    rewrite !filter_any in H. exact H.
  - intros Hwait.
    pose proof (pauses_at_most_run _ _ (Hnowait Hwait) w). subst call. lia.
Qed.

Lemma n8n_trigger_waits_at_most_30_seconds_witness :
  let trigger := handler (N8n.n8n_trigger Scenario.no_dates
                            Scenario.no_content_type Scenario.n8n) in
  let started := run (trigger (N8n.mkTrigger "3" None None))
                     Scenario.n8n_never_finishes in
  let awaited := run (trigger (N8n.mkTrigger "3" None (Some true)))
                     Scenario.n8n_never_finishes in
  clock (snd started) = clock Scenario.n8n_never_finishes
  /\ clock (snd awaited) = (clock Scenario.n8n_never_finishes + 30000)%Z
  /\ length (requests (trace (snd awaited))) = 17.
Proof.
  intros trigger started awaited.
  destruct (n8n_trigger_waits_at_most_30_seconds Scenario.no_dates
              Scenario.no_content_type Scenario.n8n
              (N8n.mkTrigger "3" None None) Scenario.n8n_never_finishes)
    as (_ & _ & H).
  split; [apply H; reflexivity|].
  split; vm_compute; reflexivity.
Defined.

(* ===================================================================== *)
(** ** n8n: workflows without a trigger node *)
(* ===================================================================== *)

Section ExecuteFacts.
Variable elapsed : Json -> Json -> string.
Variable contentType : Http.Response -> option string.
Variable this : N8n.N8nPlugin.

Lemma plain_node_is_no_trigger (n : Json) :
  N8n.plain_node n = true -> N8n.is_trigger n = Ret false.
Proof.
  unfold N8n.plain_node, N8n.is_trigger. intros H.
  destruct n; try discriminate H. cbn [getProp].
  destruct (JsVal.prop _ _) as [[| | |s| |]|]; try discriminate H.
  apply andb_prop in H as [H Hc]. apply andb_prop in H as [Ht Hw].
  apply negb_true_iff in Hc, Ht, Hw.
  unfold mbind, prog_bind. cbn [N8n.type_includes bind].
  rewrite Ht. cbn [bind N8n.type_includes]. rewrite Hw.
  cbn [bind N8n.type_includes]. now rewrite Hc.
Qed.

Lemma plain_nodes_have_no_trigger (nodes : list Json) :
  forallb N8n.plain_node nodes = true ->
  array_find N8n.is_trigger nodes = Ret undefined.
Proof.
  induction nodes as [|n nodes IH]; intros H; [reflexivity|].
  cbn [forallb] in H. apply andb_prop in H as [Hn H].
  cbn [array_find]. rewrite (plain_node_is_no_trigger n Hn). exact (IH H).
Qed.

Lemma plain_nodes_are_manual (nodes : list Json) :
  forallb N8n.plain_node nodes = true ->
  N8n.detectTriggerType nodes = Ret "manual".
Proof.
  intros H. unfold N8n.detectTriggerType.
  now rewrite (plain_nodes_have_no_trigger nodes H).
Qed.

Lemma poll_method (id : string) (execId : Json) (otherwise : Prog Json)
    (left : nat) :
  returns_only (fun r => JsVal.prop r "method" = Some (JStr "execute")) otherwise ->
  returns_only (fun r => JsVal.prop r "method" = Some (JStr "execute"))
    (N8n.poll elapsed this id execId left otherwise).
Proof.
  intros Hother. induction left as [|left IH]; [exact Hother|].
  intros w r w'. cbn [N8n.poll run]. rewrite run_bind.
  destruct (run (catch _ _) _) as [[exec|e] w1]; [|discriminate].
  destruct (_ || _); [|apply IH].
  rewrite run_bind.
  pose proof (finished_formatExecution elapsed exec) as Hfin.
  destruct (N8n.formatExecution elapsed exec); try discriminate Hfin;
    cbn [run]; [|discriminate].
  intros [= <- _]. reflexivity.
Qed.

End ExecuteFacts.

(** X23: a workflow whose nodes have types without ['Trigger'],
    ['Webhook'] and ['Cron'] is a ['manual'] one for [detectTriggerType],
    and whatever [n8n_trigger] returns for it has been started through
    the execute API.  The test is case sensitive, so the node type
    ['n8n-nodes-base.webhook'] is among them. *)
Theorem plain_workflow_runs_by_the_execute_api
    (elapsed : Json -> Json -> string)
    (contentType : Http.Response -> option string)
    (this : N8n.N8nPlugin) (args : N8n.TriggerArgs)
    (w w1 : World) (workflow : Json) (nodes : list Json) :
  run (N8n.n8nFetch this ("/workflows/" +:+ N8n.trigger_id args) N8n.no_options) w
    = (Returned workflow, w1) ->
  JsVal.prop workflow "nodes" = Some (JArr nodes) ->
  forallb N8n.plain_node nodes = true ->
  N8n.detectTriggerType nodes = Ret "manual"
  /\ forall r w',
       run (handler (N8n.n8n_trigger elapsed contentType this) args) w
         = (Returned r, w') ->
       JsVal.prop r "method" = Some (JStr "execute").
Proof.
  intros Hfetch Hnodes Hplain.
  pose proof (plain_nodes_are_manual nodes Hplain) as Hmanual.
  split; [exact Hmanual|]. intros r w'.
  cbn [handler N8n.n8n_trigger]. rewrite run_bind, Hfetch.
  assert (Hget : getProp workflow "nodes" = Ret (Some (JArr nodes))).
  { destruct workflow; try discriminate Hnodes. cbn [getProp]. now rewrite Hnodes. }
  rewrite Hget. unfold mbind at 1, prog_bind at 1. cbn [bind JsVal.nullish].
  rewrite Hmanual. unfold mbind at 1, prog_bind at 1. cbn [bind].
  pose proof (finished_extractWebhookPath nodes) as Hfin.
  destruct (N8n.extractWebhookPath nodes) as [webhookPath|e| | | | | |];
    try discriminate Hfin; unfold mbind at 1, prog_bind at 1; cbn [bind run];
    [|discriminate].
  change (String.eqb "manual" "webhook") with false. cbn [andb].
  rewrite run_bind.
  destruct (run (N8n.n8nFetch _ _ _) w1) as [[result|e] w2]; [|discriminate].
  rewrite run_bind.
  pose proof (finished_getProp result "data") as Hdata.
  destruct (getProp result "data") as [data|e| | | | | |];
    try discriminate Hdata; cbn [run]; [|discriminate].
  destruct (_ && _).
  - apply (poll_method elapsed this). intros w0 r0 w0'. cbn [run].
    intros [= <- _]. reflexivity.
  - cbn [run]. intros [= <- _]. reflexivity.
Qed.

Lemma plain_workflow_runs_by_the_execute_api_witness :
  let call := run (handler (N8n.n8n_trigger Scenario.no_dates
                              Scenario.no_content_type Scenario.n8n)
                     (N8n.mkTrigger "3" None None))
                  Scenario.n8n_webhook_instance in
  N8n.extractWebhookPath [Scenario.webhook_node] = Ret (JStr "my-hook")
  /\ N8n.detectTriggerType [Scenario.webhook_node] = Ret "manual"
  /\ fst call = Returned (JObj [("triggered", JBool true);
                                ("method", JStr "execute");
                                ("workflowId", JStr "3");
                                ("workflowName", JStr "Hook");
                                ("executionId", JNull)])
  /\ length (requests (trace (snd call))) = 2.
Proof.
  intros call.
  destruct (plain_workflow_runs_by_the_execute_api
              Scenario.no_dates Scenario.no_content_type Scenario.n8n
              (N8n.mkTrigger "3" None None)
              Scenario.n8n_webhook_instance
              (snd (run (N8n.n8nFetch Scenario.n8n "/workflows/3" N8n.no_options)
                        Scenario.n8n_webhook_instance))
              Scenario.webhook_workflow [Scenario.webhook_node])
    as [Hmanual _];
    [apply run_returned; vm_compute; reflexivity | reflexivity | reflexivity |].
  split; [reflexivity|]. split; [exact Hmanual|].
  split; vm_compute; reflexivity.
Defined.

(* ===================================================================== *)
(** ** n8n: webhooks *)
(* ===================================================================== *)

(** X24: [n8n_webhook] with a path that starts with ['http'] reads no
    secret: all it does is the one request to that very URL, with the
    given method, [POST] when there is none; so it fires without an API
    key.  With any other path and no API key it fails as not configured
    after the one read of the key, and sends nothing. *)
Theorem n8n_webhook_full_url_reads_no_secret
    (contentType : Http.Response -> option string)
    (this : N8n.N8nPlugin) (args : N8n.WebhookArgs) (w : World) :
  let call := run (handler (N8n.n8n_webhook contentType this) args) w in
  let req := N8n.webhook_request (N8n.webhook_path args)
               (default "POST" (N8n.webhook_method args))
               (N8n.webhook_payload args) (N8n.webhook_headers args) in
  let dir := Keychain.configDir (N8n.keychain this) in
  let key := store w !! (dir, "n8n", "api_key") in
  (JS.startsWith (N8n.webhook_path args) "http" = true ->
   trace (snd call)
   = trace w ++ [EvFetch req (server w (requests (trace w)) req)])
  /\ (JS.startsWith (N8n.webhook_path args) "http" = false ->
      JS.truthy key = false ->
      call = (Thrown (Error N8n.NOT_CONFIGURED),
              record (EvKeychainGet dir "n8n" "api_key" key) w)).
Proof.
  intros call req dir key. subst call. cbn [handler N8n.n8n_webhook]. split.
  - intros ->. rewrite run_bind. cbn [run]. rewrite run_bind.
    unfold N8n.webhookFetch. rewrite run_bind, run_fetch. fold req.
    destruct (server w (requests (trace w)) req) as [res|]; [|reflexivity].
    destruct (negb (Http.ok res)); [reflexivity|]. cbn [run].
    destruct (JS.includes _ _).
    + unfold json. destruct (Http.content res); reflexivity.
    + reflexivity.
  - intros -> Hkey. rewrite run_bind. rewrite run_bind.
    unfold N8n.getConfig. rewrite run_bind, run_keychain_get.
    fold dir. fold key.
    destruct key as [k|]; [|reflexivity].
    cbn [JS.truthy] in Hkey. apply negb_false_iff in Hkey.
    rewrite Hkey. reflexivity.
Qed.

Lemma n8n_webhook_full_url_reads_no_secret_witness :
  let call := run (handler (N8n.n8n_webhook Scenario.no_content_type Scenario.n8n)
                     (N8n.mkWebhook "https://hooks.example.com/h" None None None))
                  Scenario.signed_out in
  List.map Http.url (requests (trace (snd call))) = ["https://hooks.example.com/h"]
  /\ length (trace (snd call)) = 1.
Proof.
  intros call.
  pose proof (proj1 (n8n_webhook_full_url_reads_no_secret
                       Scenario.no_content_type Scenario.n8n
                       (N8n.mkWebhook "https://hooks.example.com/h" None None None)
                       Scenario.signed_out) eq_refl) as H.
  fold call in H. rewrite H. split; reflexivity.
Defined.

(* ===================================================================== *)
(** ** Gmail: replies *)
(* ===================================================================== *)

Lemma skip_spaces_idempotent (s : string) :
  JS.skip_spaces (JS.skip_spaces s) = JS.skip_spaces s.
Proof.
  induction s as [|c s IH]; [reflexivity|]. cbn [JS.skip_spaces].
  destruct (JS.is_space c) eqn:Hc; [exact IH|].
  cbn [JS.skip_spaces]. now rewrite Hc.
Qed.

Lemma strip_re_of_reply (t : string) :
  Gmail.strip_re (Gmail.reply_subject t) = JS.skip_spaces (Gmail.strip_re t).
Proof. reflexivity. Qed.

Lemma strip_re_cases (s : string) :
  Gmail.strip_re s = s
  \/ exists rest, Gmail.strip_re s = JS.skip_spaces rest.
Proof.
  destruct s as [|r [|e [|colon rest]]]; try now left.
  unfold Gmail.strip_re. destruct (_ && _); [right; now exists rest | now left].
Qed.

(** X25: the subject [gmail_reply] gives a reply starts with ['Re: '],
    and replying to a reply leaves the subject as it is: for a subject
    that does not begin with white space, the subject of the reply to
    the reply is the subject of the reply. *)
Theorem reply_subject_is_stable (s : string) :
  JS.skip_spaces s = s ->
  JS.startsWith (Gmail.reply_subject s) "Re: " = true
  /\ Gmail.reply_subject (Gmail.reply_subject s) = Gmail.reply_subject s.
Proof.
  intros Hs. split; [reflexivity|].
  unfold Gmail.reply_subject at 1. rewrite strip_re_of_reply.
  unfold Gmail.reply_subject. f_equal.
  destruct (strip_re_cases s) as [-> | [rest ->]];
    [exact Hs | apply skip_spaces_idempotent].
Qed.

Lemma reply_subject_is_stable_witness :
  Gmail.reply_subject "RE:   Lunch" = "Re: Lunch"
  /\ Gmail.reply_subject (Gmail.reply_subject "RE:   Lunch")
     = Gmail.reply_subject "RE:   Lunch".
Proof.
  split; [reflexivity|].
  apply (reply_subject_is_stable "RE:   Lunch"). reflexivity.
Defined.

(* ===================================================================== *)
(** ** X: what the read tools return *)
(* ===================================================================== *)

Section ReturnsOnly.
Context {A B : Type}.

Lemma returns_only_bind (P : B -> Prop) (m : Prog A) (f : A -> Prog B) :
  (forall a, returns_only P (f a)) -> returns_only P (m ≫= f).
Proof.
  intros Hf w b w'. rewrite run_bind.
  destruct (run m w) as [[a|e] w1]; [apply Hf | discriminate].
Qed.

Lemma returns_only_throw (P : B -> Prop) (e : JsError) :
  returns_only P (Throw e).
Proof. intros w b w'. discriminate. Qed.

Lemma returns_only_ret (P : B -> Prop) (b : B) : P b -> returns_only P (Ret b).
Proof. intros Hb w b' w'. cbn [run]. now intros [= <- _]. Qed.

End ReturnsOnly.

Lemma map_each_length {A B : Type} (f : A -> Prog B) (items : list A)
    (ys : list B) (w w' : World) :
  run (map_each f items) w = (Returned ys, w') -> length ys = length items.
Proof.
  revert ys w w'. induction items as [|x rest IH]; intros ys w w'; cbn [map_each].
  - cbn [run]. now intros [= <- _].
  - rewrite run_bind. destruct (run (f x) w) as [[y|e] w1]; [|discriminate].
    rewrite run_bind.
    destruct (run (map_each f rest) w1) as [[ys'|e] w2] eqn:Hrest; [|discriminate].
    cbn [run]. intros [= <- _]. cbn [length]. f_equal. exact (IH ys' w1 w2 Hrest).
Qed.

Lemma field_lookup_app (name : string) (pre post : list (string * Json)) :
  JsVal.lookup name (pre ++ post)
  = match JsVal.lookup name pre with
    | Some v => Some v
    | None => JsVal.lookup name post
    end.
Proof.
  induction pre as [|[k v] pre IH]; [reflexivity|].
  cbn [app JsVal.lookup]. now destruct (String.eqb k name).
Qed.

(** The number [count] is given for the value of [data]. *)
Lemma count_of_items (data : JsValue) (items : list Json) :
  JsVal.nullish data (JArr []) = JArr items ->
  JsVal.nullish (JsVal.length_of data) (JNum 0)
  = JNum (Z.of_nat (length items)).
Proof.
  destruct data as [[| | | |xs|]|]; cbn; try discriminate;
    now intros [= <-].
Qed.

(** X26: whenever [x_search] or [x_get_timeline] returns, [count] is the
    number of entries of [tweets] in what it returns. *)
Theorem tweet_count_is_the_number_of_tweets (policy : Shared.RetryPolicy)
    (this : X.XPlugin) (r : Json) (w w' : World) :
  (exists args,
      run (handler (X.x_search policy this) args) w = (Returned r, w'))
  \/ (exists args,
      run (handler (X.x_get_timeline policy this) args) w = (Returned r, w')) ->
  exists tweets,
    JsVal.prop r "tweets" = Some (JArr tweets)
    /\ JsVal.prop r "count" = Some (JNum (Z.of_nat (length tweets))).
Proof.
  set (P := fun r => exists tweets,
              JsVal.prop r "tweets" = Some (JArr tweets)
              /\ JsVal.prop r "count" = Some (JNum (Z.of_nat (length tweets)))).
  assert (Hlist : forall (f : Json -> Prog Json) (res : Json)
                         (pre : list (string * JsValue)),
             JsVal.lookup "tweets"
               (omap (fun kv => match snd kv with
                                | Some v => Some (fst kv, v)
                                | None => None
                                end) pre) = None ->
             JsVal.lookup "count"
               (omap (fun kv => match snd kv with
                                | Some v => Some (fst kv, v)
                                | None => None
                                end) pre) = None ->
             returns_only P
               (data ← getProp res "data";
                match JsVal.nullish data (JArr []) with
                | JArr items =>
                    tweets ← map_each f items;
                    Ret (result_object
                           (pre ++
                            [("count",
                              Some (JsVal.nullish (JsVal.length_of data) (JNum 0)));
                             ("tweets", Some (JArr tweets))]))
                | _ => Throw TypeError
                end)).
  { intros f res pre Ht Hc. apply returns_only_bind. intros data.
    destruct (JsVal.nullish data (JArr [])) as [| | | |items|] eqn:Hdata;
      try apply returns_only_throw.
    intros w0 r0 w0'. rewrite run_bind.
    destruct (run (map_each f items) w0) as [[tweets|e] w1] eqn:Hmap;
      [|discriminate].
    cbn [run]. intros [= <- _]. exists tweets.
    rewrite (count_of_items data items Hdata),
            <- (map_each_length f items tweets w0 w1 Hmap).
    unfold result_object, JsVal.prop. rewrite omap_app, !field_lookup_app, Ht, Hc.
    now split. }
  intros [[args Hrun] | [args Hrun]]; revert Hrun.
  - revert w r w'. fold (returns_only P (handler (X.x_search policy this) args)).
    cbn [handler X.x_search]. apply returns_only_bind. intros res.
    exact (Hlist _ res [] eq_refl eq_refl).
  - revert w r w'. fold (returns_only P (handler (X.x_get_timeline policy this) args)).
    cbn [handler X.x_get_timeline]. apply returns_only_bind. intros userRes.
    apply returns_only_bind. intros user.
    destruct (negb _); [apply returns_only_throw|].
    apply returns_only_bind. intros res.
    exact (Hlist _ res [("username", Some (JStr (X.username args)))]
             eq_refl eq_refl).
Qed.

Lemma tweet_count_is_the_number_of_tweets_witness :
  let call := run (handler (X.x_search Scenario.retry_thrice Scenario.x)
                     (X.mkSearch "hello" None None))
                  Scenario.x_search_results in
  exists r tweets,
    fst call = Returned r
    /\ JsVal.prop r "tweets" = Some (JArr tweets)
    /\ JsVal.prop r "count" = Some (JNum 2).
Proof.
  intros call.
  destruct (tweet_count_is_the_number_of_tweets Scenario.retry_thrice Scenario.x
              (match fst call with Returned r => r | Thrown _ => JNull end)
              Scenario.x_search_results (snd call))
    as (tweets & Htweets & Hcount).
  { left. exists (X.mkSearch "hello" None None).
    apply run_returned. vm_compute. reflexivity. }
  eexists _, tweets. split; [vm_compute; reflexivity|].
  split; [exact Htweets|]. vm_compute. reflexivity.
Defined.

(* ===================================================================== *)
(** ** n8n: credentials *)
(* ===================================================================== *)

(** What [n8nFetch] has seen when it returns. *)
Lemma n8nFetch_returned (this : N8n.N8nPlugin) path options w data w' :
  run (N8n.n8nFetch this path options) w = (Returned data, w') ->
  exists key res,
    store w !! (Keychain.configDir (N8n.keychain this), "n8n", "api_key")
    = Some key
    /\ server w (requests (trace w))
         (N8n.api_request
            (N8n.mkConfig key
               (N8n.normaliseBaseUrl
                  (store w !! (Keychain.configDir (N8n.keychain this),
                               "n8n", "base_url"))))
            path options)
       = Http.Responds res
    /\ (data = JObj []
        \/ exists source, Http.content res = Http.JsonDoc source data).
Proof.
  unfold N8n.n8nFetch, N8n.getConfig.
  rewrite !run_bind, run_keychain_get.
  destruct (store w !! (_, "n8n", "api_key")) as [key|] eqn:Hkey;
    [|discriminate].
  destruct (String.eqb key ""); [discriminate|].
  rewrite run_bind, run_keychain_get. cbn [run].
  rewrite run_bind, run_fetch. cbn [server record trace].
  rewrite !requests_app. cbn [requests omap]. rewrite !app_nil_r.
  destruct (server w _ _) as [res|] eqn:Hreply; [|discriminate].
  intros H. exists key, res. split; [reflexivity|]. split; [exact Hreply|].
  destruct (Http.status res =? 204)%Z.
  - left. cbn [run] in H. congruence.
  - destruct (negb (Http.ok res)).
    + rewrite run_bind in H. destruct (run (catch _ _) _) as [[err|e] w1];
        [|discriminate].
      rewrite run_bind in H. destruct (run (getProp err "message") w1) as [[m|e] w2];
        discriminate.
    + right. unfold json in H.
      destruct (Http.content res) as [|source j|]; try discriminate.
      exists source. cbn [run] in H. congruence.
Qed.

Lemma credential_entry_of (c entry : Json) (w w' : World) :
  run (N8n.credential_entry c) w = (Returned entry, w') ->
  exists fields,
    entry = JObj fields
    /\ List.Forall (fun kv => In (fst kv)
                        ["id"; "name"; "type"; "createdAt"; "updatedAt"])
         fields
    /\ JsVal.prop entry "id" = JsVal.prop c "id"
    /\ JsVal.prop entry "name" = JsVal.prop c "name"
    /\ JsVal.prop entry "type" = JsVal.prop c "type".
Proof.
  unfold N8n.credential_entry. rewrite run_bind.
  destruct (run (getProp c "id") w) as [[id|e] w1] eqn:Hid; [|discriminate].
  assert (id = JsVal.prop c "id") as ->.
  { destruct c; cbn [getProp run] in Hid;
      first [discriminate | now injection Hid as <- _]. }
  cbn [run]. intros [= <- _]. eexists. split; [reflexivity|].
  destruct (JsVal.prop c "id"), (JsVal.prop c "name"), (JsVal.prop c "type");
    cbn [omap fst snd];
    (split;
     [repeat (apply List.Forall_cons; [cbn [In fst]; auto 10|]);
      apply List.Forall_nil
     |repeat split; reflexivity]).
Qed.

Lemma map_each_Forall2 {A B : Type} (R : A -> B -> Prop) (f : A -> Prog B) :
  (forall x y w w', run (f x) w = (Returned y, w') -> R x y) ->
  forall items ys w w',
    run (map_each f items) w = (Returned ys, w') -> List.Forall2 R items ys.
Proof.
  intros Hf items. induction items as [|x rest IH]; intros ys w w';
    cbn [map_each].
  - cbn [run]. intros [= <- _]. constructor.
  - rewrite run_bind.
    destruct (run (f x) w) as [[y|e] w1] eqn:Hx; [|discriminate].
    rewrite run_bind.
    destruct (run (map_each f rest) w1) as [[ys'|e] w2] eqn:Hrest; [|discriminate].
    cbn [run]. intros [= <- _].
    constructor; [exact (Hf x y w w1 Hx) | exact (IH ys' w1 w2 Hrest)].
Qed.

(** X27: [n8n_credentials] gives names only.  Whenever it returns, the
    API key is stored and the request has had a reply with a JSON body
    [data]; [data.data ?? data] is a list [creds], [count] is its length,
    and [credentials] has one entry for each credential of that list, in
    its order, with the [id], [name] and [type] of that credential and no
    field other than [id], [name], [type], [createdAt] and [updatedAt],
    whatever else the reply holds for it. *)
Theorem n8n_credentials_gives_names_only (stringify : Json -> string)
    (this : N8n.N8nPlugin) (type : option string) (r : Json) (w w' : World) :
  run (handler (N8n.n8n_credentials stringify this) type) w = (Returned r, w') ->
  let dir := Keychain.configDir (N8n.keychain this) in
  let params :=
    if JS.truthy type
    then [("filter", stringify (JObj [("type", JStr (JS.nullish type ""))]))]
    else [] in
  exists key res source data creds entries,
    store w !! (dir, "n8n", "api_key") = Some key
    /\ server w (requests (trace w))
         (N8n.api_request
            (N8n.mkConfig key
               (N8n.normaliseBaseUrl (store w !! (dir, "n8n", "base_url"))))
            "/credentials" (N8n.mkOptions None undefined (Some params)))
       = Http.Responds res
    /\ Http.content res = Http.JsonDoc source data
    /\ JsVal.nullish (JsVal.prop data "data") data = JArr creds
    /\ JsVal.prop r "count" = Some (JNum (Z.of_nat (length creds)))
    /\ JsVal.prop r "credentials" = Some (JArr entries)
    /\ List.Forall2
         (fun c entry =>
            exists fields,
              entry = JObj fields
              /\ List.Forall (fun kv => In (fst kv)
                                  ["id"; "name"; "type"; "createdAt"; "updatedAt"])
                   fields
              /\ JsVal.prop entry "id" = JsVal.prop c "id"
              /\ JsVal.prop entry "name" = JsVal.prop c "name"
              /\ JsVal.prop entry "type" = JsVal.prop c "type")
         creds entries.
Proof.
  intros Hrun dir params. revert Hrun.
  cbn [handler N8n.n8n_credentials]. fold params.
  rewrite run_bind.
  destruct (run (N8n.n8nFetch this "/credentials" _) w) as [[data|e] w1] eqn:Hfetch;
    [|discriminate].
  destruct (n8nFetch_returned this _ _ w data w1 Hfetch)
    as (key & res & Hkey & Hreply & Hdata).
  rewrite run_bind.
  destruct (run (getProp data "data") w1) as [[inner|e] w2] eqn:Hinner;
    [|discriminate].
  assert (inner = JsVal.prop data "data") as ->.
  { destruct data; cbn [getProp run] in Hinner;
      first [discriminate | now injection Hinner as <- _]. }
  destruct (JsVal.nullish (JsVal.prop data "data") data) as [| | | |creds|] eqn:Hcreds;
    try discriminate.
  rewrite run_bind.
  destruct (run (map_each N8n.credential_entry creds) w2) as [[entries|e] w3] eqn:Hmap;
    [|discriminate].
  cbn [run]. intros [= <- _].
  destruct Hdata as [-> | [source Hsource]]; [discriminate|].
  exists key, res, source, data, creds, entries.
  repeat (split; [first [exact Hkey | exact Hreply | exact Hsource | exact Hcreds
                        | reflexivity]|]).
  exact (map_each_Forall2 _ _ credential_entry_of creds entries w2 w3 Hmap).
Qed.

Lemma n8n_credentials_gives_names_only_witness :
  let call := run (handler (N8n.n8n_credentials (fun _ => "{}") Scenario.n8n) None)
                  Scenario.n8n_vault in
  fst call = Returned (JObj [("count", JNum 1);
                             ("credentials",
                              JArr [JObj [("id", JStr "1"); ("name", JStr "db");
                                          ("type", JStr "postgres");
                                          ("createdAt", JNull);
                                          ("updatedAt", JNull)]])])
  /\ exists creds entries,
       creds = [Scenario.stored_credential]
       /\ List.Forall2
            (fun c entry => JsVal.prop entry "name" = JsVal.prop c "name")
            creds entries.
Proof.
  intros call.
  destruct (n8n_credentials_gives_names_only (fun _ => "{}") Scenario.n8n None
              (match fst call with Returned r => r | Thrown _ => JNull end)
              Scenario.n8n_vault (snd call))
    as (key & res & source & data & creds & entries
        & Hkey & Hreply & Hsource & Hcreds & _ & _ & Hall).
  { apply run_returned. vm_compute. reflexivity. }
  split; [vm_compute; reflexivity|].
  exists creds, entries. split.
  - vm_compute in Hreply. injection Hreply as <-.
    vm_compute in Hsource. injection Hsource as _ <-.
    vm_compute in Hcreds. now injection Hcreds as <-.
  - eapply List.Forall2_impl; [|exact Hall].
    intros c entry (fields & _ & _ & _ & Hname & _). exact Hname.
Defined.
